(** * The tabular rendering engine of the GA4 dashboard frontend

    A shallow embedding of the page component of the dashboard
    (ReportsContainer, ReportPanel, LandingPageHighlights,
    parseAnswerBlocks, AnswerRenderer, AnswerTable, AnswerCell,
    parseAnswerNumber, the selection of reports, the custom reports) and
    of the export to CSV, together with the properties of its value
    comparison, sorting, ranking, block parsing, follow-up state, bars,
    file names and exported files.

    JavaScript values are modelled the way the program sees them: strings
    are sequences of UTF-16 code units, numbers are IEEE binary64 values
    held as an exact mantissa and binary exponent, objects used as
    dictionaries are finite maps, and arrays are lists kept in an
    explicit store where aliasing matters. *)

From Stdlib Require Import ZArith NArith Lia Ascii String.
From stdpp Require Import gmap list sorting.

Local Open Scope Z_scope.

(** ** Strings: sequences of UTF-16 code units *)

Module JsString.

Abbreviation jsstring := (list N).

(** An ASCII literal as a JavaScript string. *)
Definition str (s : String.string) : jsstring :=
  List.map N_of_ascii (String.list_ascii_of_string s).

(** U+2022, the bullet glyph of the answer text. *)
Definition bullet : N := 8226%N.

(** WhiteSpace and LineTerminator of ECMAScript: the set removed by
    [String.prototype.trim] and matched by the pattern class [\s]. *)
Definition isWhiteSpace (c : N) : bool :=
  ((9 <=? c) && (c <=? 13))%N
  || (c =? 32)%N || (c =? 160)%N || (c =? 5760)%N
  || ((8192 <=? c) && (c <=? 8202))%N
  || (c =? 8232)%N || (c =? 8233)%N || (c =? 8239)%N
  || (c =? 8287)%N || (c =? 12288)%N || (c =? 65279)%N.

Fixpoint trimStart (s : jsstring) : jsstring :=
  match s with
  | c :: r => if isWhiteSpace c then trimStart r else s
  | [] => []
  end.

Fixpoint trimEnd (s : jsstring) : jsstring :=
  match s with
  | [] => []
  | c :: r =>
      match trimEnd r with
      | [] => if isWhiteSpace c then [] else [c]
      | t => c :: t
      end
  end.

Definition trim (s : jsstring) : jsstring := trimEnd (trimStart s).

Fixpoint startsWith (s p : jsstring) : bool :=
  match p, s with
  | [], _ => true
  | a :: p', b :: s' => (a =? b)%N && startsWith s' p'
  | _ :: _, [] => false
  end.

Definition endsWith (s p : jsstring) : bool := startsWith (rev s) (rev p).

(** [s.slice(1)] and [s.slice(0, -1)]. *)
Definition sliceFrom1 (s : jsstring) : jsstring := drop 1 s.
Definition sliceToLast (s : jsstring) : jsstring := take (length s - 1) s.

(** [s.includes(c)] for a one-unit needle. *)
Definition includes (s : jsstring) (c : N) : bool :=
  existsb (N.eqb c) s.

(** [s.split(c)] for a one-unit separator: never the empty array. *)
Fixpoint split (c : N) (s : jsstring) : list jsstring :=
  match s with
  | [] => [[]]
  | a :: r =>
      if (a =? c)%N then [] :: split c r
      else match split c r with
           | w :: ws => (a :: w) :: ws
           | [] => [[a]]
           end
  end.

(** [s.split(/\r?\n/)]: a line ends at LF or at CR LF; a lone CR stays
    inside its line. *)
Fixpoint splitLines (s : jsstring) : list jsstring :=
  match s with
  | [] => [[]]
  | a :: r =>
      if (a =? 10)%N then [] :: splitLines r
      else
        match r with
        | b :: r' =>
            if (a =? 13)%N && (b =? 10)%N then [] :: splitLines r'
            else match splitLines r with
                 | w :: ws => (a :: w) :: ws
                 | [] => [[a]]
                 end
        | [] => [[a]]
        end
  end.

(** [parts.join(sep)]. *)
Fixpoint join (sep : jsstring) (parts : list jsstring) : jsstring :=
  match parts with
  | [] => []
  | [p] => p
  | p :: ps => p ++ sep ++ join sep ps
  end.

(** Truthiness of a string: the empty string alone is falsy. *)
Definition truthy (s : jsstring) : bool :=
  match s with [] => false | _ => true end.

End JsString.

Import JsString.

(** ** Numbers: IEEE binary64 *)

Module JsNumber.

(** A finite value is [m * 2^e], kept canonical ([m] odd, or [0 * 2^0]).
    The sign of zero is not represented: no operation of the program
    observes it ([!==], [<], [-], [*] and [String] treat both zeros
    alike). *)
Inductive number :=
| NaN
| Inf (neg : bool)
| Fin (m e : Z).

#[global] Instance number_eq_dec : EqDecision number.
Proof. solve_decision. Defined.

Fixpoint strip2 (p : positive) (e : Z) : positive * Z :=
  match p with
  | xO q => strip2 q (e + 1)
  | _ => (p, e)
  end.

Definition mk (m e : Z) : number :=
  match m with
  | Z0 => Fin 0 0
  | Zpos p => let '(q, e') := strip2 p e in Fin (Zpos q) e'
  | Zneg p => let '(q, e') := strip2 p e in Fin (Zneg q) e'
  end.

Definition of_Z (z : Z) : number := mk z 0.
Definition of_nat (n : nat) : number := of_Z (Z.of_nat n).

(** [floor (log2 (n / d))] for positive [n] and [d]. *)
Definition floor_log2 (n d : Z) : Z :=
  let k := Z.log2 n - Z.log2 d in
  let below := if 0 <=? k then d * 2 ^ k <=? n else d <=? n * 2 ^ (- k) in
  if below then k else k - 1.

(** Round-to-nearest, ties-to-even, of the rational [n / d] with
    [0 <= n] and [0 < d]: 53 bits of precision, gradual underflow below
    [2^-1022], overflow to infinity from [2^1024 - 2^970]. *)
Definition round_pos (n d : Z) : number :=
  if n =? 0 then Fin 0 0
  else
    let b := floor_log2 n d in
    let e := Z.max (b - 52) (-1074) in
    let n' := if 0 <=? e then n else n * 2 ^ (- e) in
    let d' := if 0 <=? e then d * 2 ^ e else d in
    let q := n' / d' in
    let r := n' mod d' in
    let m :=
      if 2 * r <? d' then q
      else if d' <? 2 * r then q + 1
      else if Z.even q then q else q + 1 in
    if (971 <? e) || ((e =? 971) && (2 ^ 53 <=? m)) then Inf false
    else mk m e.

Definition neg (x : number) : number :=
  match x with
  | NaN => NaN
  | Inf b => Inf (negb b)
  | Fin m e => Fin (- m) e
  end.

Definition round_q (n d : Z) : number :=
  if n <? 0 then neg (round_pos (- n) d) else round_pos n d.

(** Rounding of the dyadic [m * 2^e]. *)
Definition round_dy (m e : Z) : number :=
  if 0 <=? e then round_q (m * 2 ^ e) 1 else round_q m (2 ^ (- e)).

Definition add (x y : number) : number :=
  match x, y with
  | NaN, _ | _, NaN => NaN
  | Inf a, Inf b => if Bool.eqb a b then Inf a else NaN
  | Inf a, Fin _ _ => Inf a
  | Fin _ _, Inf b => Inf b
  | Fin m1 e1, Fin m2 e2 =>
      let e := Z.min e1 e2 in
      round_dy (m1 * 2 ^ (e1 - e) + m2 * 2 ^ (e2 - e)) e
  end.

Definition sub (x y : number) : number := add x (neg y).

Definition mul (x y : number) : number :=
  match x, y with
  | NaN, _ | _, NaN => NaN
  | Inf a, Inf b => Inf (xorb a b)
  | Inf a, Fin m _ =>
      if m =? 0 then NaN else Inf (xorb a (m <? 0))
  | Fin m _, Inf b =>
      if m =? 0 then NaN else Inf (xorb (m <? 0) b)
  | Fin m1 e1, Fin m2 e2 => round_dy (m1 * m2) (e1 + e2)
  end.

Definition isNaN (x : number) : bool :=
  match x with NaN => true | _ => false end.

Definition isFinite (x : number) : bool :=
  match x with Fin _ _ => true | _ => false end.

(** [x < 0], [x === 0] and [x > 0]; all false on NaN. *)
Definition ltb0 (x : number) : bool :=
  match x with
  | NaN => false
  | Inf b => b
  | Fin m _ => m <? 0
  end.

Definition eqb0 (x : number) : bool :=
  match x with Fin 0 _ => true | _ => false end.

Definition gtb0 (x : number) : bool :=
  match x with
  | NaN => false
  | Inf b => negb b
  | Fin m _ => 0 <? m
  end.

(** The sign of a number: -1, 0 or 1, and 0 for NaN. *)
Definition sgn (x : number) : Z :=
  if ltb0 x then -1 else if gtb0 x then 1 else 0.

(** *** [Number(s)] on a string: StringToNumber *)

Definition isDigit (c : N) : bool := ((48 <=? c) && (c <=? 57))%N.

Fixpoint spanDigits (s : jsstring) : jsstring * jsstring :=
  match s with
  | c :: r =>
      if isDigit c then let '(ds, rest) := spanDigits r in (c :: ds, rest)
      else ([], s)
  | [] => ([], [])
  end.

Definition digitsValue (ds : jsstring) : Z :=
  fold_left (fun acc c => acc * 10 + (Z.of_N c - 48)) ds 0.

(** A digit of a literal in base 2, 8 or 16. *)
Definition digitIn (radix : Z) (c : N) : option Z :=
  let v :=
    if isDigit c then Some (Z.of_N c - 48)
    else if ((97 <=? c) && (c <=? 102))%N then Some (Z.of_N c - 87)
    else if ((65 <=? c) && (c <=? 70))%N then Some (Z.of_N c - 55)
    else None in
  match v with
  | Some d => if d <? radix then Some d else None
  | None => None
  end.

Fixpoint radixValue (radix : Z) (acc : Z) (s : jsstring) : option Z :=
  match s with
  | [] => Some acc
  | c :: r =>
      match digitIn radix c with
      | Some d => radixValue radix (acc * radix + d) r
      | None => None
      end
  end.

(** ExponentPart after the [e]: an optional sign and at least one
    digit, up to the end of the literal. *)
Definition parseExponent (s : jsstring) : option Z :=
  let '(sign, body) :=
    match s with
    | 43%N :: r => (1, r)
    | 45%N :: r => (-1, r)
    | _ => (1, s)
    end in
  match spanDigits body with
  | ((_ :: _) as ds, []) => Some (sign * digitsValue ds)
  | _ => None
  end.

Definition scaled (mant scale : Z) : number :=
  if 0 <=? scale then round_q (mant * 10 ^ scale) 1
  else round_q mant (10 ^ (- scale)).

(** StrUnsignedDecimalLiteral. *)
Definition parseUnsignedDecimal (s : jsstring) : number :=
  if decide (s = str "Infinity") then Inf false
  else
    let '(ip, r1) := spanDigits s in
    let '(fp, r2, ok) :=
      match r1 with
      | 46%N :: r =>
          let '(fp, r2) := spanDigits r in
          (fp, r2, negb (Nat.eqb (length ip + length fp) 0))
      | _ => ([], r1, negb (Nat.eqb (length ip) 0))
      end in
    if negb ok then NaN
    else
      let mant := digitsValue (ip ++ fp) in
      let exp :=
        match r2 with
        | [] => Some 0
        | c :: r =>
            if ((c =? 101) || (c =? 69))%N then parseExponent r else None
        end in
      match exp with
      | Some x => scaled mant (x - Z.of_nat (length fp))
      | None => NaN
      end.

(** StrNumericLiteral: a signed decimal literal, or an unsigned binary,
    octal or hexadecimal integer literal. *)
Definition parseNumeric (s : jsstring) : number :=
  match s with
  | 43%N :: r => parseUnsignedDecimal r
  | 45%N :: r => neg (parseUnsignedDecimal r)
  | 48%N :: p :: ((_ :: _) as r) =>
      let radix :=
        if ((p =? 120) || (p =? 88))%N then Some 16
        else if ((p =? 111) || (p =? 79))%N then Some 8
        else if ((p =? 98) || (p =? 66))%N then Some 2
        else None in
      match radix with
      | Some b =>
          match radixValue b 0 r with
          | Some v => round_q v 1
          | None => NaN
          end
      | None => parseUnsignedDecimal s
      end
  | _ => parseUnsignedDecimal s
  end.

(** [Number(s)]: surrounding white space is dropped, the empty string
    is zero, anything that is not a numeric literal is NaN. *)
Definition Number (s : jsstring) : number :=
  match trim s with
  | [] => Fin 0 0
  | t => parseNumeric t
  end.

(** *** [String(x)] on a number: Number::toString in radix 10 *)

Fixpoint digitsOf (fuel : nat) (z : Z) (acc : jsstring) : jsstring :=
  match fuel with
  | O => acc
  | S f =>
      let acc' := Z.to_N (48 + z mod 10) :: acc in
      if z <? 10 then acc' else digitsOf f (z / 10) acc'
  end.

(** The decimal digits of a non-negative integer. *)
Definition decimal (z : Z) : jsstring :=
  digitsOf (S (Z.to_nat (Z.log2 z))) z [].

(** [10^k <= n / d]. *)
Definition pow10_leb (k n d : Z) : bool :=
  if 0 <=? k then 10 ^ k * d <=? n else d <=? n * 10 ^ (- k).

(** [floor (log10 (n / d))] for positive [n] and [d], from the binary
    logarithm and a correction by comparison. *)
Definition floor_log10 (n d : Z) : Z :=
  let g := (floor_log2 n d * 30103) / 100000 in
  if pow10_leb (g + 2) n d then g + 2
  else if pow10_leb (g + 1) n d then g + 1
  else if pow10_leb g n d then g
  else g - 1.

(** The digits [s], of length [k], and the exponent [n] of step 5 of
    Number::toString: [k] as small as possible with [s * 10^(n-k)]
    rounding to [x = xn / xd], [s] as close to [x] as possible, and
    even when two are equally close. *)
Fixpoint shortest (fuel : nat) (k : Z) (x : number) (xn xd n : Z)
  : Z * Z * Z :=
  let p := n - k in
  let lo := if 0 <=? p then xn / (xd * 10 ^ p) else (xn * 10 ^ (- p)) / xd in
  let hi := lo + 1 in
  let ok s := bool_decide (scaled s p = x) in
  (* twice the distance of [s * 10^p] from [x], scaled by a common
     positive factor *)
  let dist s :=
    if 0 <=? p then Z.abs (s * 10 ^ p * xd - xn)
    else Z.abs (s * xd - xn * 10 ^ (- p)) in
  let hi_usable := (hi <? 10 ^ k) || (k =? 1) in
  let pick s := if s =? 10 ^ k then (1, 1, n + 1) else (s, k, n) in
  match fuel with
  | O => pick lo
  | S f =>
      if ok lo
         && (negb (hi_usable && ok hi) || (dist lo <? dist hi)
             || ((dist lo =? dist hi) && Z.even lo))
      then pick lo
      else if hi_usable && ok hi then pick hi
      else shortest f (k + 1) x xn xd n
  end.

Definition repeat0 (n : Z) : jsstring := List.repeat 48%N (Z.to_nat n).

Definition toStringPos (m e : Z) : jsstring :=
  let xn := if 0 <=? e then m * 2 ^ e else m in
  let xd := if 0 <=? e then 1 else 2 ^ (- e) in
  let n0 := floor_log10 xn xd + 1 in
  let '(s, k, n) := shortest 17 1 (mk m e) xn xd n0 in
  let ds := decimal s in
  if (k <=? n) && (n <=? 21) then ds ++ repeat0 (n - k)
  else if (0 <? n) && (n <=? 21) then
    take (Z.to_nat n) ds ++ [46%N] ++ drop (Z.to_nat n) ds
  else if (-6 <? n) && (n <=? 0) then
    [48%N; 46%N] ++ repeat0 (- n) ++ ds
  else
    let ex := n - 1 in
    let tail := [101%N; if ex <? 0 then 45%N else 43%N] ++ decimal (Z.abs ex) in
    match ds with
    | [d] => d :: tail
    | d :: r => d :: 46%N :: r ++ tail
    | [] => tail
    end.

Definition toString (x : number) : jsstring :=
  match x with
  | NaN => str "NaN"
  | Inf false => str "Infinity"
  | Inf true => str "-Infinity"
  | Fin 0 _ => str "0"
  | Fin (Zneg p) e => 45%N :: toStringPos (Zpos p) e
  | Fin m e => toStringPos m e
  end.

(** A value of the binary64 grid: no finite value lies below the
    exponent of the subnormals. *)
Definition onGrid (x : number) : Prop :=
  match x with
  | Fin _ e => -1074 <= e
  | _ => True
  end.

(** A finite value in units of the least subnormal. *)
Definition inUnits (x : number) : Z :=
  match x with
  | Fin m e => m * 2 ^ (e + 1074)
  | _ => 0
  end.

End JsNumber.

Import JsNumber.

(** ** Cell values and their conversions *)

Module JsValue.

(** What a cell of a report row can hold: the scalars of a JSON
    payload, and [undefined] for a key the row does not have. *)
Inductive value :=
| VUndefined
| VNull
| VBool (b : bool)
| VNumber (n : number)
| VString (s : jsstring).

#[global] Instance value_eq_dec : EqDecision value.
Proof. solve_decision. Defined.

(** [v == null]. *)
Definition nullish (v : value) : bool :=
  match v with VUndefined | VNull => true | _ => false end.

(** [v ?? d]. *)
Definition orElse (v d : value) : value := if nullish v then d else v.

(** [String(v)]. *)
Definition String (v : value) : jsstring :=
  match v with
  | VUndefined => str "undefined"
  | VNull => str "null"
  | VBool true => str "true"
  | VBool false => str "false"
  | VNumber n => toString n
  | VString s => s
  end.

End JsValue.

Import JsValue.

(** ** Collation: [localeCompare] with [numeric: true, sensitivity: "base"] *)

Module Collation.

(** The comparison is the runtime's: the program passes [undefined]
    for the locale, so the collation is that of the host's default
    locale, ICU's in the engines.  The model fixes the root locale and
    keeps what its collation does on ASCII text: only primary
    differences count (so case is ignored), a run of decimal digits
    compares as the integer it spells, control characters are ignored,
    and the remaining characters follow the root order
    white space < punctuation < symbols < currency < digits < letters.
    A host locale that tailors this order, and text outside ASCII, are
    beyond the model: code units from 128 on are placed after the
    letters in code unit order, which the runtime does not promise. *)

Definition rootOrder : jsstring :=
  [9; 10; 11; 12; 13; 32]%N
  ++ str "_-,;:!?.'" ++ [34%N] ++ str "()[]{}@*/\&#%`^+<=>|~$".

Fixpoint indexOf (c : N) (l : jsstring) (i : Z) : option Z :=
  match l with
  | [] => None
  | a :: r => if (a =? c)%N then Some i else indexOf c r (i + 1)
  end.

(** A collation key: a class and a rank inside the class. *)
Definition key : Type := Z * Z.

Definition charKey (c : N) : option key :=
  if ((97 <=? c) && (c <=? 122))%N then Some (2, Z.of_N c - 97)
  else if ((65 <=? c) && (c <=? 90))%N then Some (2, Z.of_N c - 65)
  else if (128 <=? c)%N then Some (3, Z.of_N c)
  else match indexOf c rootOrder 0 with
       | Some i => Some (0, i)
       | None => None
       end.

(** The keys of a string; [fuel] bounds the number of digit runs. *)
Fixpoint keys (fuel : nat) (s : jsstring) : list key :=
  match fuel, s with
  | _, [] => []
  | O, _ => []
  | S f, c :: r =>
      if isDigit c then
        let '(ds, rest) := spanDigits s in
        (1, digitsValue ds) :: keys f rest
      else
        match charKey c with
        | Some k => k :: keys f r
        | None => keys f r
        end
  end.

Definition keyCompare (a b : key) : Z :=
  if a.1 <? b.1 then -1 else if b.1 <? a.1 then 1
  else if a.2 <? b.2 then -1 else if b.2 <? a.2 then 1 else 0.

Fixpoint keysCompare (a b : list key) : Z :=
  match a, b with
  | [], [] => 0
  | [], _ :: _ => -1
  | _ :: _, [] => 1
  | x :: a', y :: b' =>
      let c := keyCompare x y in
      if c =? 0 then keysCompare a' b' else c
  end.

Definition localeCompare (a b : jsstring) : number :=
  of_Z (keysCompare (keys (length a) a) (keys (length b) b)).

End Collation.

Import Collation.

(** ** The comparator of the sortable tables *)

(** [value.replace(/,/g, "")]. *)
Definition removeCommas (s : jsstring) : jsstring :=
  List.filter (fun c => negb (c =? 44)%N) s.

Definition parseMaybeNumber (v : value) : option number :=
  match v with
  | VNumber n => if isFinite n then Some n else None
  | VString s =>
      let normalized := trim (removeCommas s) in
      if negb (truthy normalized) then None
      else
        let parsed := Number normalized in
        if isNaN parsed then None else Some parsed
  | _ => None
  end.

Definition compareValues (a b : value) : number :=
  if nullish a && nullish b then of_Z 0
  else if nullish a then of_Z 1
  else if nullish b then of_Z (-1)
  else
    match parseMaybeNumber a, parseMaybeNumber b with
    | Some aNum, Some bNum => sub aNum bNum
    | _, _ => localeCompare (String a) (String b)
    end.

(** ** Numbers of the answer tables *)

(** The groups of [/^(\d{1,2}):(\d{2})(?::(\d{2}))?$/] on a match. *)
Definition matchDuration (s : jsstring)
  : option (jsstring * jsstring * option jsstring) :=
  match spanDigits s with
  | (h, 58%N :: m1 :: m2 :: rest) =>
      if (Nat.leb 1 (length h) && Nat.leb (length h) 2
          && isDigit m1 && isDigit m2)%bool
      then
        match rest with
        | [] => Some (h, [m1; m2], None)
        | [58%N; s1; s2] =>
            if isDigit s1 && isDigit s2 then Some (h, [m1; m2], Some [s1; s2])
            else None
        | _ => None
        end
      else None
  | _ => None
  end.

Definition parseDurationToSeconds (raw : jsstring) : option number :=
  let trimmed := trim raw in
  match matchDuration trimmed with
  | None => None
  | Some (g1, g2, g3) =>
      let hours := Number g1 in
      let minutes := Number g2 in
      let seconds := match g3 with Some g => Number g | None => of_Z 0 end in
      if existsb isNaN [hours; minutes; seconds] then None
      else Some (add (add (mul hours (of_Z 3600)) (mul minutes (of_Z 60))) seconds)
  end.

Definition parseAnswerNumber (raw : jsstring) : option number :=
  if negb (truthy raw) then None
  else
    match parseDurationToSeconds raw with
    | Some duration => Some duration
    | None =>
        let normalized :=
          removeCommas
            (List.filter (fun c => negb (isWhiteSpace c))
               (List.filter
                  (fun c => negb ((c =? 37) || (c =? 44) || (c =? 36))%N) raw)) in
        let parsed := Number normalized in
        if isFinite parsed then Some parsed else None
    end.

(** The classification of a raw cell as the specification words it
    (a duration in seconds, else the text without [%], [$], commas and
    white space read as a number): the text rule is [parseAnswerNumber],
    and a finite number classifies as itself. *)
Definition classify (raw : value) : option number :=
  match raw with
  | VNumber n => if isFinite n then Some n else None
  | VString s => parseAnswerNumber s
  | _ => None
  end.

(** A cell that the comparator reads as a finite binary64 number. *)
Definition numericCell (v : value) : bool :=
  match parseMaybeNumber v with
  | Some (Fin _ e) => -1074 <=? e
  | _ => false
  end.

(** The value of such a cell, in units of the least subnormal. *)
Definition cellUnits (v : value) : Z :=
  match parseMaybeNumber v with
  | Some x => inUnits x
  | None => 0
  end.

(** ** [Array.prototype.sort] *)

Module ArraySort.

(** ECMAScript fixes the result of [sort] only for a consistent
    comparator; for any other the order is left to the engine.  The
    model is the procedure V8 runs on an array shorter than 64 elements
    (the first run is found and made ascending, the remaining elements
    are placed by binary insertion), applied at every length. *)

Section Sort.
Context {A : Type} (comparefn : A -> A -> number).

(** The comparator as [sort] reads it: NaN counts as +0, and only the
    test [order < 0] is ever made. *)
Definition order (x y : A) : number :=
  let v := comparefn x y in
  if isNaN v then of_Z 0 else v.

Definition before (x y : A) : bool := ltb0 (order x y).

(** The tail of the first run: ascending while [order >= 0],
    strictly descending while [order < 0]. *)
Fixpoint extendRun (descending : bool) (previous : A) (l : list A)
  : list A * list A :=
  match l with
  | [] => ([], [])
  | current :: r =>
      if Bool.eqb (before current previous) descending then
        let '(run, rest) := extendRun descending current r in
        (current :: run, rest)
      else ([], l)
  end.

Definition countAndMakeRun (l : list A) : list A * list A :=
  match l with
  | a0 :: a1 :: r =>
      let descending := before a1 a0 in
      let '(run, rest) := extendRun descending a1 r in
      let whole := a0 :: a1 :: run in
      (if descending then rev whole else whole, rest)
  | _ => (l, [])
  end.

(** The binary search of the insertion point of [pivot] in
    [arr[left..right)]. *)
Fixpoint insertionPoint (fuel : nat) (pivot : A) (arr : list A)
  (left right : nat) : nat :=
  match fuel with
  | O => left
  | S f =>
      if (left <? right)%nat then
        let mid := (left + (right - left) / 2)%nat in
        match arr !! mid with
        | Some x =>
            if before pivot x then insertionPoint f pivot arr left mid
            else insertionPoint f pivot arr (S mid) right
        | None => left
        end
      else left
  end.

Definition insert (sorted : list A) (pivot : A) : list A :=
  let p := insertionPoint (length sorted) pivot sorted 0 (length sorted) in
  take p sorted ++ pivot :: drop p sorted.

Definition binaryInsertionSort (run rest : list A) : list A :=
  fold_left insert rest run.

Definition sort (l : list A) : list A :=
  let '(run, rest) := countAndMakeRun l in
  binaryInsertionSort run rest.

Definition le (x y : A) : Prop := before y x = false.

(** A consistent comparator on the elements of [U]: a strict weak
    order, which is what ECMAScript asks of [comparefn]. *)
Record consistent (U : list A) : Prop := {
  consistent_asym x y :
    x ∈ U -> y ∈ U -> before x y = true -> before y x = false;
  consistent_trans x y z :
    x ∈ U -> y ∈ U -> z ∈ U -> le x y -> le y z -> le x z
}.

(** The same, as a check that computes. *)
Definition consistentb (U : list A) : bool :=
  forallb (fun x => forallb (fun y =>
    implb (before x y) (negb (before y x))
    && forallb (fun z =>
         implb (negb (before y x) && negb (before z y)) (negb (before z x)))
         U) U) U.

(** The elements of a run are linked to their predecessor. *)
Fixpoint linked (d : bool) (prev : A) (l : list A) : Prop :=
  match l with
  | [] => True
  | c :: r => before c prev = d /\ linked d c r
  end.

End Sort.

End ArraySort.

Import ArraySort.

(** ** The store of arrays *)

(** [rows.map(...)] builds a new array, [sort] reorders an array in
    place: the sorted views are stated over a store so that what they
    leave alone can be said.  A cell holds an array of rows or an array of
    [{ row, index }] records; a row itself is never written to. *)

Module Store.

Section Store.
Context {T : Type}.

Inductive array :=
| Plain (l : list T)
| Indexed (l : list (T * nat)).

Definition plain (a : option array) : list T :=
  match a with Some (Plain l) => l | _ => [] end.

Definition indexed (a : option array) : list (T * nat) :=
  match a with Some (Indexed l) => l | _ => [] end.

(** A new array: a reference the store has not handed out. *)
Definition alloc (h : gmap positive array) (a : array)
  : gmap positive array * positive :=
  let p := fresh (dom h) in (<[p := a]> h, p).

(** [arr.sort(comparefn)] on the array at [p]. *)
Definition sortAt (comparefn : T * nat -> T * nat -> number)
  (h : gmap positive array) (p : positive) : gmap positive array :=
  <[p := Indexed (sort comparefn (indexed (h !! p)))]> h.

End Store.

Arguments array : clear implicits.

End Store.

Import Store.

(** ** Sorted views *)

Inductive SortDirection := asc | desc.

#[global] Instance SortDirection_eq_dec : EqDecision SortDirection.
Proof. solve_decision. Defined.

(** [direction === "asc" ? 1 : -1]. *)
Definition multiplierOf (d : SortDirection) : number :=
  match d with asc => of_Z 1 | desc => of_Z (-1) end.

(** [direction === "asc" ? "desc" : "asc"]. *)
Definition toggle (d : SortDirection) : SortDirection :=
  match d with asc => desc | desc => asc end.

(** The steps both tables take once a sort is configured:
    [rows.map((row, index) => ({ row, index }))], a [sort] of that new
    array, and [rowsWithIndex.map((item) => item.row)]. *)
Section IndexedSort.
Context {T : Type} (comparefn : T * nat -> T * nat -> number).

Definition withIndex (rows : list T) : list (T * nat) :=
  imap (fun index row => (row, index)) rows.

Definition sortedWithIndex (rows : list T) : list (T * nat) :=
  sort comparefn (withIndex rows).

Definition sortedView (rows : list T) : list T :=
  (sortedWithIndex rows).*1.

(** The same steps on the store: two allocations and one sort in
    place of the first of them. *)
Definition sortedViewIn (h : gmap positive (array T)) (rows : positive)
  : gmap positive (array T) * positive :=
  let '(h1, p1) := alloc h (Indexed (withIndex (plain (h !! rows)))) in
  let h2 := sortAt comparefn h1 p1 in
  alloc h2 (Plain ((indexed (h2 !! p1)).*1)).

End IndexedSort.

(** The comparator of a view, from the cell it sorts by. *)
Definition viewComparator {T} (cellOf : T -> value) (d : SortDirection)
  (left right : T * nat) : number :=
  let order := compareValues (cellOf left.1) (cellOf right.1) in
  if negb (eqb0 order) then mul order (multiplierOf d)
  else sub (of_nat left.2) (of_nat right.2).

(** *** Report tables *)

Module ReportPanel.

(** A report row: a record from column name to cell. *)
Abbreviation ReportRow := (gmap jsstring value).

(** [row[key]]. *)
Definition get (row : ReportRow) (key : jsstring) : value :=
  default VUndefined (row !! key).

Record config := { key : jsstring; direction : SortDirection }.

#[global] Instance config_eq_dec : EqDecision config.
Proof. solve_decision. Defined.

(** The comparator handed to [rowsWithIndex.sort]. *)
Definition comparator (sortConfig : config)
  (left right : ReportRow * nat) : number :=
  let multiplier := multiplierOf (direction sortConfig) in
  let order :=
    compareValues (get left.1 (key sortConfig)) (get right.1 (key sortConfig)) in
  if negb (eqb0 order) then mul order multiplier
  else sub (of_nat left.2) (of_nat right.2).

Definition sortedWithIndex (rows : list ReportRow) (sortConfig : config)
  : list (ReportRow * nat) :=
  sortedWithIndex (comparator sortConfig) rows.

Definition sortedRows (rows : list ReportRow) (sortConfig : option config)
  : list ReportRow :=
  match sortConfig with
  | None => rows
  | Some c => sortedView (comparator c) rows
  end.

(** [sortedRows] on the store: without a sort the very array of the
    report is returned. *)
Definition sortedRowsIn (h : gmap positive (array ReportRow))
  (rows : positive) (sortConfig : option config)
  : gmap positive (array ReportRow) * positive :=
  match sortConfig with
  | None => (h, rows)
  | Some c => sortedViewIn (comparator c) h rows
  end.

Definition handleSort (prev : option config) (column : jsstring)
  : option config :=
  match prev with
  | Some p =>
      if decide (key p = column)
      then Some {| key := column; direction := toggle (direction p) |}
      else Some {| key := column; direction := asc |}
  | None => Some {| key := column; direction := asc |}
  end.

End ReportPanel.

(** *** Tables of a parsed answer *)

Module AnswerTable.

Record config := { colIdx : nat; direction : SortDirection }.

#[global] Instance config_eq_dec : EqDecision config.
Proof. solve_decision. Defined.

(** [row[colIdx] ?? ""]. *)
Definition cell (row : list jsstring) (colIdx : nat) : jsstring :=
  default [] (row !! colIdx).

Definition comparator (sortConfig : config)
  (left right : list jsstring * nat) : number :=
  let multiplier := multiplierOf (direction sortConfig) in
  let leftValue := cell left.1 (colIdx sortConfig) in
  let rightValue := cell right.1 (colIdx sortConfig) in
  let order := compareValues (VString leftValue) (VString rightValue) in
  if negb (eqb0 order) then mul order multiplier
  else sub (of_nat left.2) (of_nat right.2).

Definition sortedWithIndex (rows : list (list jsstring)) (sortConfig : config)
  : list (list jsstring * nat) :=
  sortedWithIndex (comparator sortConfig) rows.

Definition sortedRows (rows : list (list jsstring))
  (sortConfig : option config) : list (list jsstring) :=
  match sortConfig with
  | None => rows
  | Some c => sortedView (comparator c) rows
  end.

Definition sortedRowsIn (h : gmap positive (array (list jsstring)))
  (rows : positive) (sortConfig : option config)
  : gmap positive (array (list jsstring)) * positive :=
  match sortConfig with
  | None => (h, rows)
  | Some c => sortedViewIn (comparator c) h rows
  end.

Definition handleSort (prev : option config) (colIdx' : nat)
  : option config :=
  match prev with
  | Some p =>
      if decide (colIdx p = colIdx')
      then Some {| colIdx := colIdx'; direction := toggle (direction p) |}
      else Some {| colIdx := colIdx'; direction := asc |}
  | None => Some {| colIdx := colIdx'; direction := asc |}
  end.

(** The cells a table row shows:
    [block.headers.map((header, cellIdx) => row[cellIdx] ?? "")]. *)
Definition shownCells (headers row : list jsstring) : list jsstring :=
  imap (fun cellIdx _ => cell row cellIdx) headers.

End AnswerTable.

(** ** Landing page highlights: the ranker *)

Module Ranker.

Import ReportPanel.

Record RankedRow := {
  label : jsstring;
  rawValue : value;
  numericValue : option number
}.

(** The [.map] that opens [buildRankedRows]. *)
Definition toRanked (pageKey valueKey : jsstring) (row : ReportRow)
  : RankedRow :=
  {| label := String (orElse (get row pageKey) (VString []));
     rawValue := get row valueKey;
     numericValue := parseMaybeNumber (get row valueKey) |}.

Definition hasLabel (row : RankedRow) : bool :=
  (0 <? length (trim (label row)))%nat.

Definition passesZero (excludeZero : bool) (row : RankedRow) : bool :=
  if negb excludeZero then true
  else match numericValue row with
       | None => true
       | Some n => negb (eqb0 n)
       end.

(** The rows that survive the two [.filter] calls. *)
Definition candidates (data : list ReportRow) (pageKey valueKey : jsstring)
  (excludeZero : bool) : list RankedRow :=
  List.filter (passesZero excludeZero)
    (List.filter hasLabel (List.map (toRanked pageKey valueKey) data)).

Definition rankOrder (direction : SortDirection) (a b : RankedRow) : number :=
  let order := compareValues (rawValue a) (rawValue b) in
  match direction with asc => order | desc => neg order end.

Definition project (row : RankedRow) : jsstring * jsstring :=
  (label row, String (orElse (rawValue row) (VString []))).

Definition buildRankedRows (data : list ReportRow)
  (pageKey valueKey : jsstring) (direction : SortDirection) (limit : nat)
  (excludeZero : bool) : list (jsstring * jsstring) :=
  List.map project
    (take limit
       (sort (rankOrder direction)
          (candidates data pageKey valueKey excludeZero))).

End Ranker.

(** ** The block parser *)

Module BlockParser.

Inductive AnswerBlock :=
| Heading (text : jsstring)
| Paragraph (text : jsstring)
| List (items : list jsstring)
| Table (headers : list jsstring) (rows : list (list jsstring)).

#[global] Instance AnswerBlock_eq_dec : EqDecision AnswerBlock.
Proof. solve_decision. Defined.

Definition pipe : N := 124%N.

Definition parseTableRow (line : jsstring) : list jsstring :=
  let trimmed := trim line in
  let normalized :=
    if startsWith trimmed [pipe] then sliceFrom1 trimmed else trimmed in
  let withoutEdge :=
    if endsWith normalized [pipe] then sliceToLast normalized else normalized in
  List.map trim (split pipe withoutEdge).

(** The class [[-:\s|]]. *)
Definition separatorUnit (c : N) : bool :=
  (c =? 45)%N || (c =? 58)%N || isWhiteSpace c || (c =? pipe)%N.

(** [/^\s*\|?[-:\s|]+\|?\s*$/.test(line)].  Every unit the pattern can
    consume belongs to the class of its middle group, which must
    consume at least one unit and may consume the whole line: the
    pattern accepts the non-empty lines made of that class. *)
Definition isTableSeparator (line : jsstring) : bool :=
  truthy line && forallb separatorUnit line.

Definition skipWhiteSpace1 (s : jsstring) : option jsstring :=
  match s with
  | c :: r => if isWhiteSpace c then Some (trimStart r) else None
  | [] => None
  end.

(** [\s+c\s+] at the start of [s]: what follows the match. *)
Definition spaced (c : N) (s : jsstring) : option jsstring :=
  match skipWhiteSpace1 s with
  | Some (d :: r) => if (d =? c)%N then skipWhiteSpace1 r else None
  | _ => None
  end.

(** A separator of [/\s+-\s+|\s+•\s+|•/] (with [dash]) or of
    [/\s+•\s+|•/] (without) at the start of [s], alternatives tried in
    order: what follows the match. *)
Definition separatorAt (dash : bool) (s : jsstring) : option jsstring :=
  match (if dash then spaced 45%N s else None) with
  | Some r => Some r
  | None =>
      match spaced bullet s with
      | Some r => Some r
      | None =>
          match s with
          | c :: r => if (c =? bullet)%N then Some r else None
          | [] => None
          end
      end
  end.

(** [s.split(pattern)]: [cur] holds, reversed, the units read since the
    last separator. *)
Fixpoint splitItems (fuel : nat) (dash : bool) (s cur : jsstring)
  : list jsstring :=
  match fuel with
  | O => [rev cur ++ s]
  | S f =>
      match s with
      | [] => [rev cur]
      | c :: r =>
          match separatorAt dash s with
          | Some rest => rev cur :: splitItems f dash rest []
          | None => splitItems f dash r (c :: cur)
          end
      end
  end.

(** [part.replace(/^[-•]\s*/, "").trim()]. *)
Definition cleanItem (part : jsstring) : jsstring :=
  trim
    match part with
    | c :: r => if ((c =? 45) || (c =? bullet))%N then trimStart r else part
    | [] => []
    end.

(** [line.split(pattern).map(clean).filter(Boolean)]. *)
Definition itemsOf (dash : bool) (line : jsstring) : list jsstring :=
  List.filter truthy
    (List.map cleanItem (splitItems (S (length line)) dash line [])).

Definition startsList (trimmed : jsstring) : bool :=
  startsWith trimmed (str "- ") || startsWith trimmed [bullet].

(** [trimmed.replace(/^#+\s*/, "")]. *)
Fixpoint dropHashes (s : jsstring) : jsstring :=
  match s with
  | c :: r => if (c =? 35)%N then dropHashes r else s
  | [] => []
  end.

Definition headingText (trimmed : jsstring) : jsstring :=
  match trimmed with
  | 35%N :: _ => trimStart (dropHashes trimmed)
  | _ => trimmed
  end.

(** [lines[i + 1]?.trim() ?? ""], on the lines after [lines[i]]. *)
Definition nextTrimmed (rest : list jsstring) : jsstring :=
  match rest with
  | l :: _ => trim l
  | [] => []
  end.

Definition startsTable (trimmed : jsstring) (rest : list jsstring) : bool :=
  includes trimmed pipe && isTableSeparator (nextTrimmed rest).

(** The inner loops.  Each returns what it collected and the lines it
    did not consume. *)

Fixpoint tableRows (lines : list jsstring)
  : list (list jsstring) * list jsstring :=
  match lines with
  | l :: rest =>
      if truthy (trim l) then
        let '(rows, rest') := tableRows rest in
        (parseTableRow l :: rows, rest')
      else ([], lines)
  | [] => ([], [])
  end.

Fixpoint listItems (lines : list jsstring)
  : list jsstring * list jsstring :=
  match lines with
  | l :: rest =>
      let itemLine := trim l in
      if negb (startsWith itemLine (str "- "))
         && negb (startsWith itemLine [bullet])
      then ([], lines)
      else
        let parts := itemsOf true itemLine in
        let '(items, rest') := listItems rest in
        (parts ++ items, rest')
  | [] => ([], [])
  end.

Fixpoint paragraphLines (lines : list jsstring)
  : list jsstring * list jsstring :=
  match lines with
  | l :: rest =>
      let paraLine := trim l in
      if negb (truthy paraLine) then ([], lines)
      else if startsWith paraLine (str "##") then ([], lines)
      else if startsTable paraLine rest then ([], lines)
      else if startsWith paraLine (str "- ") then ([], lines)
      else
        let '(ps, rest') := paragraphLines rest in
        (paraLine :: ps, rest')
  | [] => ([], [])
  end.

(** One iteration of the outer loop, on [lines[i]] and the lines after
    it: the block it pushes, if any, and the lines left for the next
    iteration.  The index only moves forward and only [lines[i]] and
    [lines[i + 1]] are read at it, so the loop is written on the lines
    not yet consumed. *)
Definition iteration (l : jsstring) (rest : list jsstring)
  : option AnswerBlock * list jsstring :=
  let line := trimEnd l in
  let trimmed := trim line in
  if negb (truthy trimmed) then (None, rest)
  else if startsWith trimmed (str "##") then
    (Some (Heading (headingText trimmed)), rest)
  else if startsTable trimmed rest then
    let headers := parseTableRow trimmed in
    let '(rows, rest') := tableRows (drop 1 rest) in
    (Some (Table headers rows), rest')
  else if startsList trimmed then
    let '(items, rest') := listItems (l :: rest) in
    (Some (List items), rest')
  else
    let inline :=
      if includes trimmed bullet then itemsOf false trimmed else [] in
    if (1 <? length inline)%nat then (Some (List inline), rest)
    else
      let '(ps, rest') := paragraphLines (l :: rest) in
      (Some (Paragraph (join (str " ") ps)), rest').

Definition push (block : option AnswerBlock) (blocks : list AnswerBlock)
  : list AnswerBlock :=
  match block with Some b => b :: blocks | None => blocks end.

(** [while (i < lines.length)]: [None] stands for a loop that has not
    finished within [fuel] iterations. *)
Fixpoint parseLines (fuel : nat) (lines : list jsstring)
  : option (list AnswerBlock) :=
  match lines with
  | [] => Some []
  | l :: rest =>
      match fuel with
      | O => None
      | S f =>
          let '(block, rest') := iteration l rest in
          push block <$> parseLines f rest'
      end
  end.

(** One iteration consumes at least one line, so as many iterations as
    there are lines are enough. *)
Definition parseAnswerBlocks (answer : jsstring) : list AnswerBlock :=
  let lines := splitLines answer in
  default [] (parseLines (length lines) lines).

End BlockParser.

Import BlockParser.

(** ** Follow-ups of an insight *)

Module Followups.

Inductive InsightFollowupAction := basis_action | deep_dive.

#[global] Instance InsightFollowupAction_eq_dec :
  EqDecision InsightFollowupAction.
Proof. solve_decision. Defined.

(** [None] stands for a field that is absent or null: the program
    tests the fields with [!= null] and for truthiness only. *)
Record InsightFollowupState := {
  loading : option InsightFollowupAction;
  basis : option jsstring;
  deepDive : option jsstring;
  error : option jsstring
}.

#[global] Instance InsightFollowupState_eq_dec :
  EqDecision InsightFollowupState.
Proof. solve_decision. Defined.

(** [prev[insightId] ?? {}]. *)
Definition entry (prev : gmap jsstring InsightFollowupState)
  (insightId : jsstring) : InsightFollowupState :=
  default {| loading := None; basis := None; deepDive := None; error := None |}
    (prev !! insightId).

(** The three updaters [handleInsightFollowup] passes to
    [setInsightFollowups]: at the click, after the awaited analysis
    resolved, and after it was rejected. *)
Definition onStart (insightId : jsstring) (action : InsightFollowupAction)
  (prev : gmap jsstring InsightFollowupState)
  : gmap jsstring InsightFollowupState :=
  let e := entry prev insightId in
  <[insightId := {| loading := Some action; basis := basis e;
                    deepDive := deepDive e; error := None |}]> prev.

Definition onSuccess (insightId : jsstring) (action : InsightFollowupAction)
  (result : jsstring) (prev : gmap jsstring InsightFollowupState)
  : gmap jsstring InsightFollowupState :=
  let e := entry prev insightId in
  <[insightId :=
      {| loading := None;
         error := None;
         basis := if decide (action = basis_action) then Some result
                  else basis e;
         deepDive := if decide (action = deep_dive) then Some result
                     else deepDive e |}]> prev.

Definition onFailure (insightId : jsstring) (message : jsstring)
  (prev : gmap jsstring InsightFollowupState)
  : gmap jsstring InsightFollowupState :=
  let e := entry prev insightId in
  <[insightId := {| loading := None; basis := basis e;
                    deepDive := deepDive e; error := Some message |}]> prev.

(** [`${index}-${itemIdx}`]. *)
Definition insightId (index itemIdx : nat) : jsstring :=
  decimal (Z.of_nat index) ++ str "-" ++ decimal (Z.of_nat itemIdx).

End Followups.

Import Followups.

(** ** The page: the answer and the renderer mounted for it *)

Module Page.

(** [HomePage] keeps [answer] and [isAsking] and renders
    [answer && <AnswerRenderer answer={answer} ... />]; the renderer
    keeps [insightFollowups].  A state setter reaches the component
    instance it was created in: once that instance is unmounted the
    update is dropped, and a later mount starts from the initial state.
    [generation] counts the renderers mounted so far, the mounted one
    being the latest. *)
Record page := {
  answer : option jsstring;
  isAsking : bool;
  generation : nat;
  insightFollowups : option (gmap jsstring InsightFollowupState)
}.

(** The renderer is on the page when [answer] is truthy. *)
Definition shown (answer : option jsstring) : bool :=
  match answer with Some a => truthy a | None => false end.

(** [setAnswer(next)] and the render that follows: the renderer is
    unmounted, mounted afresh, or kept with its effect on [[answer]]
    run ([setInsightFollowups({})]) when the text differs. *)
Definition setAnswer (next : option jsstring) (p : page) : page :=
  let followups :=
    if negb (shown next) then None
    else match insightFollowups p with
         | None => Some ∅
         | Some m => if decide (answer p = next) then Some m else Some ∅
         end in
  let gen :=
    match insightFollowups p with
    | None => if shown next then S (generation p) else generation p
    | Some _ => generation p
    end in
  {| answer := next; isAsking := isAsking p; generation := gen;
     insightFollowups := followups |}.

Definition setIsAsking (b : bool) (p : page) : page :=
  {| answer := answer p; isAsking := b; generation := generation p;
     insightFollowups := insightFollowups p |}.

(** [setInsightFollowups(updater)] called from the renderer mounted as
    number [instance]. *)
Definition setInsightFollowups (instance : nat)
  (updater : gmap jsstring InsightFollowupState ->
             gmap jsstring InsightFollowupState) (p : page) : page :=
  match insightFollowups p with
  | Some m =>
      if decide (instance = generation p) then
        {| answer := answer p; isAsking := isAsking p;
           generation := generation p; insightFollowups := Some (updater m) |}
      else p
  | None => p
  end.

Inductive event :=
(** [handleAsk] or [handleQuickPrompt], up to its [await]. *)
| Ask
(** The awaited analysis settled, with the answer or the error text. *)
| AskSettled (text : jsstring)
(** A click on a follow-up button of a renderer. *)
| FollowupStart (instance : nat) (insightId : jsstring)
    (action : InsightFollowupAction)
(** The analysis awaited by [handleInsightFollowup] resolved. *)
| FollowupSuccess (instance : nat) (insightId : jsstring)
    (action : InsightFollowupAction) (result : jsstring)
(** The analysis awaited by [handleInsightFollowup] was rejected. *)
| FollowupFailure (instance : nat) (insightId : jsstring)
    (message : jsstring).

Definition step (p : page) (e : event) : page :=
  match e with
  | Ask =>
      if isAsking p then p
      else setAnswer None (setIsAsking true p)
  | AskSettled text =>
      if isAsking p then setIsAsking false (setAnswer (Some text) p)
      else p
  | FollowupStart i id action =>
      setInsightFollowups i (onStart id action) p
  | FollowupSuccess i id action result =>
      setInsightFollowups i (onSuccess id action result) p
  | FollowupFailure i id message =>
      setInsightFollowups i (onFailure id message) p
  end.

Definition run (p : page) (events : list event) : page :=
  fold_left step events p.

(** The completion events of the request a click started. *)
Definition completes (instance : nat) (insightId : jsstring)
  (action : InsightFollowupAction) (e : event) : Prop :=
  (exists result, e = FollowupSuccess instance insightId action result)
  \/ (exists message, e = FollowupFailure instance insightId message).

(** The renderer number [i] is gone: a later one is mounted, or none
    is and [i] was the latest. *)
Definition retired (i : nat) (p : page) : Prop :=
  (i <= generation p)%nat
  /\ ((i < generation p)%nat \/ insightFollowups p = None).

End Page.

(** ** The report tabs and the panel they show *)

Module ReportsContainer.

Import ReportPanel.

Record ReportPayload := {
  id : jsstring;
  name : jsstring;
  description : jsstring;
  data : list ReportRow
}.

(** [ReportsContainer] keeps [activeReportId] and [isFullscreen]; the
    panel it renders keeps [sortConfig].  The panel is rendered when
    there is a report, directly or inside the overlay: a change of
    [isFullscreen] moves it in the tree, which unmounts it and mounts a
    new one. *)
Record container := {
  reports : list ReportPayload;
  activeReportId : option jsstring;
  isFullscreen : bool;
  sortConfig : option config
}.

Definition hasId (i : jsstring) (r : ReportPayload) : bool :=
  bool_decide (id r = i).

(** [reports.find((report) => report.id === activeReportId) ?? reports[0]]. *)
Definition activeReport (c : container) : option ReportPayload :=
  match activeReportId c with
  | Some i =>
      match List.find (hasId i) (reports c) with
      | Some r => Some r
      | None => head (reports c)
      end
  | None => head (reports c)
  end.

(** The rows of the table on screen. *)
Definition rows (c : container) : list ReportRow :=
  match activeReport c with Some r => data r | None => [] end.

(** The effect on [[reports, activeReportId]] that keeps
    [activeReportId] among the reports: the state it leaves, from the
    one it finds.  The test [!activeReportId] holds of [null] and of the
    empty string.  The effect runs again when it has changed
    [activeReportId], and then changes nothing more
    ([syncActive_settled]). *)
Definition syncActive (rs : list ReportPayload) (active : option jsstring)
  : option jsstring :=
  match rs with
  | [] => None
  | r0 :: _ =>
      match active with
      | Some i =>
          if negb (truthy i) || negb (existsb (hasId i) rs)
          then Some (id r0)
          else active
      | None => Some (id r0)
      end
  end.

Definition panelMounted (c : container) : bool :=
  match reports c with [] => false | _ => true end.

Inductive event :=
(** The [reports] prop changed. *)
| SetReports (rs : list ReportPayload)
(** A click on a report tab: [setActiveReportId(report.id)], and the
    effect that follows. *)
| SelectTab (i : jsstring)
(** [onExpand], and [onClose] or the Escape key. *)
| Expand
| Close
(** A click on a column header: [handleSort(col)]. *)
| HeaderClick (column : jsstring)
(** [onExport]. *)
| Export.

Definition step (c : container) (e : event) : container :=
  match e with
  | SetReports rs =>
      {| reports := rs;
         activeReportId := syncActive rs (activeReportId c);
         isFullscreen := isFullscreen c;
         sortConfig :=
           match reports c, rs with
           | _ :: _, _ :: _ => sortConfig c
           | _, _ => None
           end |}
  | SelectTab i =>
      {| reports := reports c;
         activeReportId := syncActive (reports c) (Some i);
         isFullscreen := isFullscreen c; sortConfig := sortConfig c |}
  | Expand =>
      {| reports := reports c; activeReportId := activeReportId c;
         isFullscreen := true;
         sortConfig := if isFullscreen c then sortConfig c else None |}
  | Close =>
      {| reports := reports c; activeReportId := activeReportId c;
         isFullscreen := false;
         sortConfig := if isFullscreen c then None else sortConfig c |}
  | HeaderClick column =>
      if panelMounted c then
        {| reports := reports c; activeReportId := activeReportId c;
           isFullscreen := isFullscreen c;
           sortConfig := handleSort (sortConfig c) column |}
      else c
  | Export => c
  end.

(** The events that put a new panel on screen. *)
Definition remounts (c : container) (e : event) : bool :=
  match e with
  | SetReports rs => negb (panelMounted c) || negb (0 <? length rs)%nat
  | Expand => negb (isFullscreen c)
  | Close => isFullscreen c
  | _ => false
  end.

End ReportsContainer.

(** ** The tables of an answer and their sort states *)

Module AnswerTables.

(** [AnswerRenderer] and [ReadOnlyAnswerRenderer] map the blocks of
    their [answer] to elements keyed by kind and block index, an
    [AnswerTable] with key [answer-table-${index}] or
    [followup-table-${index}] for a table block, and every
    [AnswerTable] keeps its [sortConfig].  A renderer stands in a slot
    of its parent, [answer && <AnswerRenderer answer={answer} />] on
    the page and [basis && <ReadOnlyAnswerRenderer answer={basis} />]
    (the same for [deepDive]) under an insight: it is on screen while
    the text is truthy.  When the text changes under a renderer that
    stays, the element of a key found again keeps its component and the
    state of it: the table of block [index] stays mounted when that
    block was a table and is one again, whatever its rows. *)
Record renderer := {
  answer : jsstring;
  sortConfigs : gmap nat (option AnswerTable.config)
}.

Definition isTable (block : AnswerBlock) : bool :=
  match block with Table _ _ => true | _ => false end.

(** The tables on screen for [blocks], by block index: those of
    [mounted] that are found again with their state, the others new. *)
Definition reconcile (blocks : list AnswerBlock)
  (mounted : gmap nat (option AnswerTable.config))
  : gmap nat (option AnswerTable.config) :=
  map_imap
    (fun index block =>
       if isTable block then Some (default None (mounted !! index)) else None)
    (map_seq 0 blocks).

(** The parent renders the slot with [text]. *)
Definition render (text : option jsstring) (slot : option renderer)
  : option renderer :=
  match text with
  | Some a =>
      if truthy a then
        Some {| answer := a;
                sortConfigs :=
                  reconcile (parseAnswerBlocks a)
                    (match slot with
                     | Some r => sortConfigs r
                     | None => ∅
                     end) |}
      else None
  | None => None
  end.

Inductive event :=
(** A render of the parent, with the text it has for the slot. *)
| Render (text : option jsstring)
(** A click on the header of column [colIdx] of the table of block
    [index]: [handleSort(colIdx)]. *)
| HeaderClick (index colIdx : nat).

Definition step (slot : option renderer) (e : event) : option renderer :=
  match e with
  | Render text => render text slot
  | HeaderClick index colIdx =>
      match slot with
      | Some r =>
          match sortConfigs r !! index with
          | Some prev =>
              Some {| answer := answer r;
                      sortConfigs :=
                        <[index := AnswerTable.handleSort prev colIdx]>
                          (sortConfigs r) |}
          | None => slot
          end
      | None => None
      end
  end.

(** The sort state of the table of block [index], when there is one on
    screen. *)
Definition sortConfigAt (slot : option renderer) (index : nat)
  : option (option AnswerTable.config) :=
  match slot with
  | Some r => sortConfigs r !! index
  | None => None
  end.

(** [block.rows] of the table of block [index]. *)
Definition rowsAt (slot : option renderer) (index : nat)
  : option (list (list jsstring)) :=
  match slot with
  | Some r =>
      match parseAnswerBlocks (answer r) !! index with
      | Some (Table _ rows) => Some rows
      | _ => None
      end
  | None => None
  end.

End AnswerTables.

(** ** Comparison, division and minimum of numbers *)

Module JsMath.

(** [x > y]: false when an operand is NaN. *)
Definition gtb (x y : number) : bool :=
  match x, y with
  | NaN, _ | _, NaN => false
  | Inf a, Inf b => negb a && b
  | Inf a, Fin _ _ => negb a
  | Fin _ _, Inf b => b
  | Fin m1 e1, Fin m2 e2 =>
      let e := Z.min e1 e2 in
      m2 * 2 ^ (e2 - e) <? m1 * 2 ^ (e1 - e)
  end.

(** [x / y].  A zero divisor is read as +0: the program divides by a
    number it has tested to be greater than zero. *)
Definition div (x y : number) : number :=
  match x, y with
  | NaN, _ | _, NaN => NaN
  | Inf _, Inf _ => NaN
  | Inf a, Fin m _ => Inf (xorb a (m <? 0))
  | Fin _ _, Inf _ => Fin 0 0
  | Fin m1 e1, Fin m2 e2 =>
      if m2 =? 0 then (if m1 =? 0 then NaN else Inf (m1 <? 0))
      else
        let e := Z.min e1 e2 in
        let n := m1 * 2 ^ (e1 - e) in
        let d := m2 * 2 ^ (e2 - e) in
        if d <? 0 then round_q (- n) (- d) else round_q n d
  end.

(** [Math.min(x, y)]. *)
Definition min (x y : number) : number :=
  if isNaN x || isNaN y then NaN
  else if gtb x y then y else x.

End JsMath.

(** A cell whose number, when it holds one, lies on the binary64 grid. *)
Definition gridCell (v : value) : Prop :=
  match v with
  | VNumber n => onGrid n
  | _ => True
  end.

(** A cell that is missing, or that the comparator reads as a finite
    binary64 number. *)
Definition numberOrMissing (v : value) : bool := nullish v || numericCell v.

(** ** The bars of the answer tables *)

Module AnswerBars.

Import JsMath.

(** The loop of one column in [columnMaxes]. *)
Definition columnMax (rows : list (list jsstring)) (colIdx : nat) : number :=
  fold_left
    (fun max row =>
       match parseAnswerNumber (AnswerTable.cell row colIdx) with
       | Some value => if gtb value max then value else max
       | None => max
       end)
    rows (of_Z 0).

Definition columnMaxes (headers : list jsstring) (rows : list (list jsstring))
  : list number :=
  imap (fun colIdx _ => columnMax rows colIdx) headers.

(** [ratio] and [showBar] of [AnswerCell]. *)
Definition ratio (value : jsstring) (maxValue : number) : number :=
  match parseAnswerNumber value with
  | Some numericValue =>
      if gtb maxValue (of_Z 0) then min (div numericValue maxValue) (of_Z 1)
      else of_Z 0
  | None => of_Z 0
  end.

Definition showBar (value : jsstring) : bool :=
  bool_decide (parseAnswerNumber value <> None).

(** What the loop of [columnMaxes] keeps true of its accumulator, over
    the rows it has seen. *)
Definition maxOf (colIdx : nat) (seen : list (list jsstring)) (max : number)
  : Prop :=
  isFinite max = true
  /\ gtb (of_Z 0) max = false
  /\ (forall row value, row ∈ seen ->
        parseAnswerNumber (AnswerTable.cell row colIdx) = Some value ->
        gtb value max = false)
  /\ (max = of_Z 0
      \/ exists row, row ∈ seen
           /\ parseAnswerNumber (AnswerTable.cell row colIdx) = Some max).

End AnswerBars.

(** ** Landing page highlights: the fields and the four blocks *)

Module LandingPage.

Import ReportPanel Ranker ReportsContainer.

(** [keys.has(key)] on the keys of a row. *)
Definition hasKey (row : ReportRow) (key : jsstring) : bool :=
  bool_decide (is_Some (row !! key)).

Definition pickFirstKey (rows : list ReportRow) (candidates : list jsstring)
  : option jsstring :=
  match rows with
  | [] => None
  | first :: _ => List.find (hasKey first) candidates
  end.

Record LandingMetricBlock := {
  title : jsstring;
  rows : list (jsstring * jsstring)
}.

(** What the component renders: one of its three messages, or the
    blocks. *)
Inductive view :=
| LoadReports
| NoData
| FieldsRequired
| Highlights (blocks : list LandingMetricBlock).

Definition pageCandidates : list jsstring :=
  [str "Landing Page"; str "landingPage"; str "Page"; str "page"].

Definition revenueCandidates : list jsstring :=
  [str "Purchase Revenue"; str "purchaseRevenue"; str "Revenue"; str "revenue"].

Definition revenuePerSessionCandidates : list jsstring :=
  [str "Revenue per Session"; str "revenue_per_session"].

Definition blocksOf (data : list ReportRow)
  (pageKey revenueKey revenuePerSessionKey : jsstring)
  : list LandingMetricBlock :=
  [ {| title := str "Top 5 revenue pages";
       rows := buildRankedRows data pageKey revenueKey desc 5 false |};
    {| title := str "Top 5 revenue per session pages";
       rows := buildRankedRows data pageKey revenuePerSessionKey desc 5 false |};
    {| title := str "Bottom 5 revenue pages";
       rows := buildRankedRows data pageKey revenueKey asc 5 true |};
    {| title := str "Bottom 5 revenue per session pages";
       rows := buildRankedRows data pageKey revenuePerSessionKey asc 5 true |} ].

Definition LandingPageHighlights (report : option ReportPayload) : view :=
  match report with
  | None => LoadReports
  | Some report =>
      match data report with
      | [] => NoData
      | _ :: _ =>
          match pickFirstKey (data report) pageCandidates,
                pickFirstKey (data report) revenueCandidates,
                pickFirstKey (data report) revenuePerSessionCandidates with
          | Some pageKey, Some revenueKey, Some revenuePerSessionKey =>
              if truthy pageKey && truthy revenueKey
                 && truthy revenuePerSessionKey
              then Highlights
                     (blocksOf (data report) pageKey revenueKey
                        revenuePerSessionKey)
              else FieldsRequired
          | _, _, _ => FieldsRequired
          end
      end
  end.

(** [reports.find((report) => report.id === "landing_pages")]. *)
Definition landingReport (reports : list ReportPayload)
  : option ReportPayload :=
  List.find (hasId (str "landing_pages")) reports.

End LandingPage.

(** ** File names and the export to CSV *)

Module ExportCsv.

Import ReportPanel.

(** [s.replace(/\s+/g, "_")]: every maximal run of white space becomes
    one underscore; [inRun] tells that the unit before was white space. *)
Fixpoint underscoreRuns (inRun : bool) (s : jsstring) : jsstring :=
  match s with
  | [] => []
  | c :: r =>
      if isWhiteSpace c then
        if inRun then underscoreRuns true r else 95%N :: underscoreRuns true r
      else c :: underscoreRuns false r
  end.

(** The class [[a-zA-Z0-9_-]]. *)
Definition filenameUnit (c : N) : bool :=
  ((97 <=? c) && (c <=? 122))%N || ((65 <=? c) && (c <=? 90))%N
  || ((48 <=? c) && (c <=? 57))%N || (c =? 95)%N || (c =? 45)%N.

Definition sanitizeFilenamePart (value : jsstring) : jsstring :=
  List.filter filenameUnit (underscoreRuns false (trim value)).

(** [value == null ? "" : String(value)]. *)
Definition stringValue (v : value) : jsstring :=
  if nullish v then [] else String v.

(** The test of [needsQuotes]: a quote, a comma, a line feed or a
    carriage return occurs in the text. *)
Definition needsQuotes (s : jsstring) : bool :=
  existsb (fun c => (c =? 34) || (c =? 44) || (c =? 10) || (c =? 13))%N s.

(** The replacement that doubles every quote. *)
Definition doubleQuotes (s : jsstring) : jsstring :=
  flat_map (fun c => if (c =? 34)%N then [34%N; 34%N] else [c]) s.

Definition escapeValue (v : value) : jsstring :=
  let stringValue := stringValue v in
  let escaped := doubleQuotes stringValue in
  if needsQuotes stringValue then [34%N] ++ escaped ++ [34%N] else escaped.

(** [filename.endsWith(".csv") ? filename : `${filename}.csv`]. *)
Definition downloadName (filename : jsstring) : jsstring :=
  if endsWith filename (str ".csv") then filename else filename ++ str ".csv".

Section Download.

(** [Object.keys(row)]: the order in which a record lists its keys is
    the runtime's, and is left open. *)
Context (ownKeys : ReportRow -> list jsstring).

Definition line (headers : list jsstring) (row : ReportRow) : jsstring :=
  join (str ",") ((fun header => escapeValue (get row header)) <$> headers).

Definition lines (data : list ReportRow) : list jsstring :=
  let headers := ownKeys (List.hd ∅ data) in
  join (str ",") headers :: (line headers <$> data).

Definition csvContent (data : list ReportRow) : jsstring :=
  65279%N :: join [13%N; 10%N] (lines data).

(** The download [exportToCSV] starts: the name and the content of the
    file, or nothing. *)
Definition exportToCSV (data : option (list ReportRow)) (filename : jsstring)
  : option (jsstring * jsstring) :=
  match data with
  | None | Some [] => None
  | Some ((first :: _) as rows) =>
      if Nat.eqb (length (ownKeys first)) 0 then None
      else Some (downloadName filename, csvContent rows)
  end.

(** [handleExportActiveReport], with the date stamp it takes from the
    clock. *)
Definition handleExportActiveReport (c : ReportsContainer.container)
  (dateStamp : jsstring) : option (jsstring * jsstring) :=
  match ReportsContainer.activeReportId c, ReportsContainer.activeReport c with
  | Some i, Some activeReport =>
      if negb (truthy i) then None
      else
        match ReportsContainer.data activeReport with
        | [] => None
        | rows =>
            let safeProjectName := sanitizeFilenamePart (str "ga4-ai-dashboard") in
            let safeReportName :=
              sanitizeFilenamePart (ReportsContainer.name activeReport) in
            exportToCSV (Some rows)
              (safeProjectName ++ str "_" ++ safeReportName ++ str "_"
                 ++ dateStamp ++ str ".csv")
        end
  | _, _ => None
  end.

End Download.

(** The reading of one field at the start of a record, by the quoting
    rule the export writes for: a field that opens with a quote runs to
    the first quote that is not doubled, any other to the next comma or
    line break. *)
Fixpoint readQuoted (s cur : jsstring) : option (jsstring * jsstring) :=
  match s with
  | [] => None
  | c :: r =>
      if (c =? 34)%N then
        match r with
        | d :: r' =>
            if (d =? 34)%N then readQuoted r' (34%N :: cur)
            else Some (rev cur, r)
        | [] => Some (rev cur, [])
        end
      else readQuoted r (c :: cur)
  end.

Fixpoint readPlain (s cur : jsstring) : jsstring * jsstring :=
  match s with
  | [] => (rev cur, [])
  | c :: r =>
      if ((c =? 44) || (c =? 10) || (c =? 13))%N then (rev cur, s)
      else readPlain r (c :: cur)
  end.

Definition readField (s : jsstring) : option (jsstring * jsstring) :=
  match s with
  | 34%N :: r => readQuoted r []
  | _ => Some (readPlain s [])
  end.

End ExportCsv.

(** ** The selection of reports and the custom reports *)

Module Selection.

Import ReportsContainer.

Definition toggleReportSelection (reportId : jsstring) (prev : list jsstring)
  : list jsstring :=
  if bool_decide (reportId ∈ prev)
  then List.filter (fun id => negb (bool_decide (id = reportId))) prev
  else prev ++ [reportId].

Definition visibleReports (reports : list ReportPayload)
  (selectedReportIds : list jsstring) : list ReportPayload :=
  List.filter (fun report => bool_decide (id report ∈ selectedReportIds)) reports.

(** [report.id.startsWith("user_")]. *)
Definition isCustom (report : ReportPayload) : bool :=
  startsWith (id report) (str "user_").

(** The report [handleCreateCustomReport] builds once the backend has
    answered with [data].  [reports] and the two names are those of the
    render in which the request started: the handler reads them from
    its closure. *)
Definition newReport (reports : list ReportPayload)
  (customReportName customReportGroup : jsstring)
  (selectedDimensions selectedMetrics : list jsstring)
  (data : list ReportPanel.ReportRow) : ReportPayload :=
  let existingCustomCount := length (List.filter isCustom reports) in
  let reportIndex := Z.of_nat existingCustomCount + 1 in
  let displayName :=
    if truthy (trim customReportName) then trim customReportName
    else str "Custom Report " ++ decimal reportIndex in
  let groupName := trim customReportGroup in
  let descriptionParts :=
    [str "Dimensions: " ++ join (str ", ") selectedDimensions;
     str "Metrics: " ++ join (str ", ") selectedMetrics]
    ++ (if truthy groupName then [str "Group: " ++ groupName] else []) in
  {| id := str "user_" ++ decimal reportIndex;
     name := displayName;
     description := join (str " | ") descriptionParts;
     data := data |}.

(** The two state updates that follow: the report is appended and
    selected. *)
Definition addReport (state : list ReportPayload * list jsstring)
  (report : ReportPayload) : list ReportPayload * list jsstring :=
  (state.1 ++ [report], state.2 ++ [id report]).

(** The request from its start to the two updates.  The updaters
    [(prev) => [...prev, newReport]] work on the lists of the moment,
    [state], which are not those of the closure when
    [handleLoadReports] has replaced them while the request was
    awaited. *)
Definition handleCreateCustomReport (reports : list ReportPayload)
  (customReportName customReportGroup : jsstring)
  (selectedDimensions selectedMetrics : list jsstring)
  (data : list ReportPanel.ReportRow)
  (state : list ReportPayload * list jsstring)
  : list ReportPayload * list jsstring :=
  addReport state
    (newReport reports customReportName customReportGroup
       selectedDimensions selectedMetrics data).

(** [handleLoadReports] once the backend has answered: both lists are
    replaced. *)
Definition handleLoadReports (loaded : list ReportPayload)
  : list ReportPayload * list jsstring :=
  (loaded, id <$> loaded).

End Selection.

(** ** The buttons of an insight *)

Module InsightButtons.

(** [insightFollowups[id]?.loading != null]. *)
Definition disabled (followups : gmap jsstring InsightFollowupState)
  (insightId : jsstring) : bool :=
  bool_decide (loading (entry followups insightId) <> None).

(** The insight an event of the renderer is about. *)
Definition insightOf (e : Page.event) : option jsstring :=
  match e with
  | Page.FollowupStart _ id _ => Some id
  | Page.FollowupSuccess _ id _ _ => Some id
  | Page.FollowupFailure _ id _ => Some id
  | _ => None
  end.

End InsightButtons.

(** ** Sample data *)

(** A line feed. *)
Definition nl : jsstring := [10%N].

(** A report row from its cells. *)
Definition rowOf (cells : list (jsstring * value))
  : ReportPanel.ReportRow :=
  list_to_map cells.

(** The rows [{k: 1, idx: 0}, {k: 1, idx: 1}, {k: 2, idx: 2}]. *)
Definition stabilityRows : list ReportPanel.ReportRow :=
  [rowOf [(str "k", VNumber (of_Z 1)); (str "idx", VNumber (of_Z 0))];
   rowOf [(str "k", VNumber (of_Z 1)); (str "idx", VNumber (of_Z 1))];
   rowOf [(str "k", VNumber (of_Z 2)); (str "idx", VNumber (of_Z 2))]].

(** Two reports with different rows, and a container showing the first
    sorted by one of its columns. *)
Definition reportA : ReportsContainer.ReportPayload :=
  {| ReportsContainer.id := str "a";
     ReportsContainer.name := str "A";
     ReportsContainer.description := [];
     ReportsContainer.data := [rowOf [(str "Sessions", VNumber (of_Z 3))]] |}.

Definition reportB : ReportsContainer.ReportPayload :=
  {| ReportsContainer.id := str "b";
     ReportsContainer.name := str "B";
     ReportsContainer.description := [];
     ReportsContainer.data := [rowOf [(str "Users", VNumber (of_Z 5))]] |}.

Definition sortedOnA : ReportsContainer.container :=
  {| ReportsContainer.reports := [reportA; reportB];
     ReportsContainer.activeReportId := Some (str "a");
     ReportsContainer.isFullscreen := false;
     ReportsContainer.sortConfig :=
       Some {| ReportPanel.key := str "Sessions";
               ReportPanel.direction := asc |} |}.

(** Two texts of one table each, as the basis of an insight may be
    answered twice, and the renderer of the first with its table sorted
    by the first column. *)
Definition basisTable : jsstring :=
  str "A|B" ++ nl ++ str "-|-" ++ nl ++ str "2|x" ++ nl ++ str "1|y".

Definition otherBasisTable : jsstring :=
  str "A|B" ++ nl ++ str "-|-" ++ nl ++ str "7|z".

Definition sortedFollowup : option AnswerTables.renderer :=
  AnswerTables.step (AnswerTables.render (Some basisTable) None)
    (AnswerTables.HeaderClick 0 0).

(** A table whose rows are shorter and longer than its header. *)
Definition raggedTable : jsstring :=
  str "A|B" ++ nl ++ str "-|-" ++ nl ++ str "1" ++ nl ++ str "1|2|3".

(** * Properties *)

(** ** The conversions at work *)

Example Number_1234_5 : Number (str "1234.50") = Fin 2469 (-1).
Proof. vm_compute. reflexivity. Qed.
Example Number_1e3 : Number (str " 1e3 ") = of_Z 1000.
Proof. vm_compute. reflexivity. Qed.
Example Number_hex : Number (str "0x1F") = of_Z 31.
Proof. vm_compute. reflexivity. Qed.
Example Number_bad : Number (str "12px") = NaN.
Proof. vm_compute. reflexivity. Qed.
Example Number_tenth : Number (str "0.1") = Fin 3602879701896397 (-55).
Proof. vm_compute. reflexivity. Qed.
Example Number_underflow : Number (str "1e-400") = Fin 0 0.
Proof. vm_compute. reflexivity. Qed.
Example Number_overflow : Number (str "1e400") = Inf false.
Proof. vm_compute. reflexivity. Qed.
Example Number_max : Number (str "1.7976931348623157e308") = Fin (2^53 - 1) 971.
Proof. vm_compute. reflexivity. Qed.
Example Number_min : Number (str "5e-324") = Fin 1 (-1074).
Proof. vm_compute. reflexivity. Qed.
Example add_tenths :
  add (Number (str "0.1")) (Number (str "0.2")) = Fin 1351079888211149 (-52).
Proof. vm_compute. reflexivity. Qed.

Example toString_int : toString (of_Z 3723) = str "3723".
Proof. vm_compute. reflexivity. Qed.
Example toString_tenth : toString (Number (str "0.1")) = str "0.1".
Proof. vm_compute. reflexivity. Qed.
Example toString_frac : toString (Number (str "1234.50")) = str "1234.5".
Proof. vm_compute. reflexivity. Qed.
Example toString_sum :
  toString (add (Number (str "0.1")) (Number (str "0.2"))) = str "0.30000000000000004".
Proof. vm_compute. reflexivity. Qed.
Example toString_big : toString (Number (str "1e21")) = str "1e+21".
Proof. vm_compute. reflexivity. Qed.
Example toString_big2 : toString (Number (str "123456789012345678901")) = str "123456789012345680000".
Proof. vm_compute. reflexivity. Qed.
Example toString_small : toString (Number (str "0.000001")) = str "0.000001".
Proof. vm_compute. reflexivity. Qed.
Example toString_small2 : toString (Number (str "0.0000001")) = str "1e-7".
Proof. vm_compute. reflexivity. Qed.
Example toString_min : toString (Number (str "5e-324")) = str "5e-324".
Proof. vm_compute. reflexivity. Qed.
Example toString_max : toString (Number (str "1.7976931348623157e308")) = str "1.7976931348623157e+308".
Proof. vm_compute. reflexivity. Qed.
Example toString_neg : toString (Number (str "-2.50")) = str "-2.5".
Proof. vm_compute. reflexivity. Qed.
Example toString_2p53 : toString (Fin 1 53) = str "9007199254740992".
Proof. vm_compute. reflexivity. Qed.
Example toString_third : toString (Number (str "0.333333333333333333")) = str "0.3333333333333333".
Proof. vm_compute. reflexivity. Qed.
Example toString_9995 : toString (Number (str "99.5e1")) = str "995".
Proof. vm_compute. reflexivity. Qed.
Example toString_1e23 : toString (Number (str "1e23")) = str "1e+23".
Proof. vm_compute. reflexivity. Qed.
(** Two digit strings of the least length equally close: the even one. *)
Example toString_tie_down :
  toString (mk (2 ^ 52 + 1) (-2)) = str "1125899906842624.2".
Proof. vm_compute. reflexivity. Qed.
Example toString_tie_up :
  toString (mk (2 ^ 52 + 3) (-2)) = str "1125899906842624.8".
Proof. vm_compute. reflexivity. Qed.

Example localeCompare_pages :
  localeCompare (str "Page 9") (str "page 10") = of_Z (-1).
Proof. vm_compute. reflexivity. Qed.

Example parseAnswerNumber_currency :
  parseAnswerNumber (str "$1,234.50") = Some (Fin 2469 (-1)).
Proof. vm_compute. reflexivity. Qed.
Example parseAnswerNumber_percent :
  parseAnswerNumber (str "37%") = Some (of_Z 37).
Proof. vm_compute. reflexivity. Qed.
Example parseAnswerNumber_hms :
  parseAnswerNumber (str "1:02:03") = Some (of_Z 3723).
Proof. vm_compute. reflexivity. Qed.
Example parseAnswerNumber_hm :
  parseAnswerNumber (str "05:00") = Some (of_Z 18000).
Proof. vm_compute. reflexivity. Qed.
Example compareValues_percent_text :
  compareValues (VString (str "0.5%")) (VString (str "0.25%")) = of_Z (-1).
Proof. vm_compute. reflexivity. Qed.

Example parse_table :
  parseAnswerBlocks (str "A|B" ++ nl ++ str "-|-" ++ nl ++ str "1|2")
  = [Table [str "A"; str "B"] [[str "1"; str "2"]]].
Proof. vm_compute. reflexivity. Qed.

Example parse_list :
  parseAnswerBlocks (str "- Revenue up 5%" ++ nl ++ str "- Sessions down 2%")
  = [List [str "Revenue up 5%"; str "Sessions down 2%"]].
Proof. vm_compute. reflexivity. Qed.

Example parse_mixed :
  parseAnswerBlocks
    (str "## Insights" ++ nl ++ str "- a - b" ++ nl ++ nl ++ str "x " ++ [bullet]
       ++ str " y" ++ nl ++ str "plain" ++ nl ++ str "text")
  = [Heading (str "Insights"); List [str "a"; str "b"];
     List [str "x"; str "y"]; Paragraph (str "plain text")].
Proof. vm_compute. reflexivity. Qed.

(** Three clicks on the same column: unsorted, ascending, descending,
    ascending; a click on another column starts ascending. *)
Example handleSort_cycle :
  ReportPanel.handleSort None (str "k")
  = Some {| ReportPanel.key := str "k"; ReportPanel.direction := asc |}
  /\ ReportPanel.handleSort (ReportPanel.handleSort None (str "k")) (str "k")
     = Some {| ReportPanel.key := str "k"; ReportPanel.direction := desc |}
  /\ ReportPanel.handleSort
       (ReportPanel.handleSort (ReportPanel.handleSort None (str "k")) (str "k"))
       (str "k")
     = Some {| ReportPanel.key := str "k"; ReportPanel.direction := asc |}
  /\ ReportPanel.handleSort
       (ReportPanel.handleSort (ReportPanel.handleSort None (str "k")) (str "k"))
       (str "j")
     = Some {| ReportPanel.key := str "j"; ReportPanel.direction := asc |}.
Proof. vm_compute. repeat split; reflexivity. Qed.

(** ** Numbers *)

Section NumberFacts.

Lemma strip2_spec p e :
  0 <= e ->
  Zpos p * 2 ^ e = Zpos (strip2 p e).1 * 2 ^ (strip2 p e).2
  /\ 0 <= (strip2 p e).2.
Proof.
  revert e; induction p as [p IH|p IH|]; intros e He; simpl; [done| |done].
  destruct (IH (e + 1)) as [E1 E2]; [lia|].
  split; [|done]. rewrite <- E1.
  rewrite Z.pow_add_r by lia. lia.
Qed.

Lemma of_nat_value i :
  exists m e, of_nat i = Fin m e /\ 0 <= e /\ m * 2 ^ e = Z.of_nat i.
Proof.
  unfold of_nat, of_Z, mk.
  destruct (Z.of_nat i) as [|p|p] eqn:E; [exists 0, 0; done| |lia].
  pose proof (strip2_spec p 0 ltac:(lia)) as [H1 H2].
  destruct (strip2 p 0) as [q e']. simpl in *.
  exists (Zpos q), e'. split; [done|]. split; [done|]. lia.
Qed.

End NumberFacts.

Section RoundingFacts.

Lemma strip2_exponent p e : e <= (strip2 p e).2.
Proof.
  revert e; induction p as [p IH|p IH|]; intros e; simpl; [lia| |lia].
  specialize (IH (e + 1)). lia.
Qed.

Lemma mk_onGrid m e : -1074 <= e -> onGrid (mk m e).
Proof.
  intros He. destruct m as [|p|p]; simpl; [lia| |].
  - pose proof (strip2_exponent p e). destruct (strip2 p e). simpl in *. lia.
  - pose proof (strip2_exponent p e). destruct (strip2 p e). simpl in *. lia.
Qed.

Lemma mk_pos_onGrid m e :
  0 < m -> -1074 <= e ->
  exists p e', mk m e = Fin (Zpos p) e' /\ -1074 <= e'.
Proof.
  intros Hm He. destruct m as [|p|p]; try lia. simpl.
  pose proof (strip2_exponent p e). destruct (strip2 p e) as [q e'].
  simpl in *. exists q, e'. split; [done|lia].
Qed.

Lemma floor_log2_lower n d :
  0 < n -> 0 < d ->
  let b := floor_log2 n d in
  if 0 <=? b then d * 2 ^ b <= n else d <= n * 2 ^ (- b).
Proof.
  intros Hn Hd. unfold floor_log2.
  pose proof (Z.log2_spec n Hn) as [Hn1 Hn2].
  pose proof (Z.log2_spec d Hd) as [Hd1 Hd2].
  pose proof (Z.log2_nonneg n). pose proof (Z.log2_nonneg d).
  set (k := Z.log2 n - Z.log2 d).
  destruct (Z.leb_spec 0 k) as [Hk|Hk].
  - destruct (Z.leb_spec (d * 2 ^ k) n) as [Hb|Hb]; cbv zeta.
    + destruct (Z.leb_spec 0 k); [done|lia].
    + destruct (Z.leb_spec 0 (k - 1)) as [Hk1|Hk1].
      * assert (2 ^ Z.log2 n = 2 ^ (Z.log2 d + 1) * 2 ^ (k - 1)) as E.
        { rewrite <- Z.pow_add_r by lia. f_equal. lia. }
        assert (0 < 2 ^ (k - 1)) by (apply Z.pow_pos_nonneg; lia).
        nia.
      * assert (k = 0) by lia.
        replace (- (k - 1)) with 1 by lia. change (2 ^ 1) with 2.
        assert (Z.log2 n = Z.log2 d) as E by lia. rewrite E in *.
        replace (Z.succ (Z.log2 d)) with (Z.log2 d + 1) in * by lia.
        rewrite Z.pow_add_r in Hd2 by lia. change (2 ^ 1) with 2 in Hd2. lia.
  - destruct (Z.leb_spec d (n * 2 ^ (- k))) as [Hb|Hb]; cbv zeta.
    + destruct (Z.leb_spec 0 k); [lia|done].
    + destruct (Z.leb_spec 0 (k - 1)); [lia|].
      replace (Z.succ (Z.log2 d)) with (Z.log2 d + 1) in * by lia.
      assert (2 ^ (Z.log2 d + 1) = 2 ^ Z.log2 n * 2 ^ (- (k - 1))) as E.
      { rewrite <- Z.pow_add_r by lia. f_equal. lia. }
      assert (0 < 2 ^ (- (k - 1))) by (apply Z.pow_pos_nonneg; lia).
      nia.
Qed.

(** A positive rational of at least the least subnormal does not round
    to zero. *)
Lemma round_pos_positive n d :
  0 < n -> 0 < d -> d <= n * 2 ^ 1074 ->
  round_pos n d = Inf false
  \/ exists p e, round_pos n d = Fin (Zpos p) e /\ -1074 <= e.
Proof.
  intros Hn Hd Hmin. unfold round_pos.
  destruct (Z.eqb_spec n 0) as [|_]; [lia|].
  pose proof (floor_log2_lower n d Hn Hd) as Hb. cbv zeta in Hb.
  set (b := floor_log2 n d) in *.
  set (e := Z.max (b - 52) (-1074)).
  match goal with |- context [if ?c then Inf false else mk ?x e] =>
    destruct c; [by left|right] end.
  apply mk_pos_onGrid; [|lia].
  assert (0 < (if 0 <=? e then d * 2 ^ e else d)
          <= (if 0 <=? e then n else n * 2 ^ (- e))) as Hq.
  { destruct (Z.leb_spec 0 e) as [He|He].
    - assert (e = b - 52) as Ee by lia.
      destruct (Z.leb_spec 0 b); [|lia].
      assert (0 < 2 ^ e) by (apply Z.pow_pos_nonneg; lia).
      split; [lia|].
      assert (2 ^ e <= 2 ^ b) by (apply Z.pow_le_mono_r; lia). nia.
    - split; [lia|].
      assert (0 < 2 ^ (- e)) by (apply Z.pow_pos_nonneg; lia).
      destruct (Z.leb_spec 0 b) as [Hb0|Hb0].
      + assert (0 < 2 ^ b) by (apply Z.pow_pos_nonneg; lia). nia.
      + destruct (Z.max_spec (b - 52) (-1074)) as [[_ E]|[_ E]];
          fold e in E.
        * rewrite E. done.
        * assert (2 ^ (- b) <= 2 ^ (- e)) by (apply Z.pow_le_mono_r; lia).
          nia. }
  assert (0 < (if 0 <=? e then n else n * 2 ^ (- e)) /
              (if 0 <=? e then d * 2 ^ e else d)) as Hdiv.
  { apply Z.div_str_pos. lia. }
  repeat match goal with |- context [if ?c then _ else _] => destruct c end;
    lia.
Qed.

Lemma round_pos_onGrid n d : onGrid (round_pos n d).
Proof.
  unfold round_pos. destruct (n =? 0); [simpl; lia|].
  match goal with |- context [if ?c then Inf false else mk ?x ?e] =>
    destruct c; [done|apply mk_onGrid] end.
  lia.
Qed.

Lemma neg_onGrid x : onGrid x -> onGrid (neg x).
Proof. by destruct x. Qed.

Lemma round_q_onGrid n d : onGrid (round_q n d).
Proof.
  unfold round_q. destruct (n <? 0);
    [apply neg_onGrid|]; apply round_pos_onGrid.
Qed.

Lemma round_dy_onGrid m e : onGrid (round_dy m e).
Proof. unfold round_dy. destruct (0 <=? e); apply round_q_onGrid. Qed.

(** Rounding keeps the sign of a dyadic on the grid. *)
Lemma round_dy_sign m e :
  -1074 <= e ->
  match m with
  | Z0 => round_dy m e = Fin 0 0
  | Zpos _ =>
      round_dy m e = Inf false
      \/ exists p e', round_dy m e = Fin (Zpos p) e'
  | Zneg _ =>
      round_dy m e = Inf true
      \/ exists p e', round_dy m e = Fin (Zneg p) e'
  end.
Proof.
  intros He.
  assert (forall k, 0 < k ->
            (if 0 <=? e then 1 else 2 ^ (- e))
            <= (if 0 <=? e then k * 2 ^ e else k) * 2 ^ 1074) as Hmin.
  { intros k Hk. assert (0 < 2 ^ 1074) by done.
    destruct (Z.leb_spec 0 e).
    - assert (0 < 2 ^ e) by (apply Z.pow_pos_nonneg; lia). nia.
    - assert (2 ^ (- e) <= 2 ^ 1074) by (apply Z.pow_le_mono_r; lia). nia. }
  assert (forall k, 0 < k ->
            0 < (if 0 <=? e then k * 2 ^ e else k)) as Hnum.
  { intros k Hk. destruct (Z.leb_spec 0 e); [|done].
    assert (0 < 2 ^ e) by (apply Z.pow_pos_nonneg; lia). nia. }
  assert (0 < (if 0 <=? e then 1 else 2 ^ (- e))) as Hden.
  { destruct (Z.leb_spec 0 e); [done|]. apply Z.pow_pos_nonneg; lia. }
  destruct m as [|p|p].
  - unfold round_dy, round_q. by destruct (0 <=? e).
  - specialize (Hmin (Zpos p) ltac:(done)).
    specialize (Hnum (Zpos p) ltac:(done)).
    unfold round_dy, round_q.
    destruct (0 <=? e).
    + destruct (Z.ltb_spec (Z.pos p * 2 ^ e) 0); [lia|].
      destruct (round_pos_positive _ _ Hnum Hden Hmin) as [->|(q & e' & -> & _)];
        eauto.
    + destruct (Z.ltb_spec (Z.pos p) 0); [lia|].
      destruct (round_pos_positive _ _ Hnum Hden Hmin) as [->|(q & e' & -> & _)];
        eauto.
  - specialize (Hmin (Zpos p) ltac:(done)).
    specialize (Hnum (Zpos p) ltac:(done)).
    unfold round_dy, round_q.
    destruct (0 <=? e) eqn:E0.
    + destruct (Z.ltb_spec (Z.neg p * 2 ^ e) 0) as [_|Hc].
      2:{ assert (0 < 2 ^ e) by (apply Z.pow_pos_nonneg; lia). lia. }
      replace (- (Z.neg p * 2 ^ e)) with (Z.pos p * 2 ^ e) by lia.
      destruct (round_pos_positive _ _ Hnum Hden Hmin) as [->|(q & e' & -> & _)];
        simpl; eauto.
    + destruct (Z.ltb_spec (Z.neg p) 0); [|lia].
      change (- Z.neg p) with (Z.pos p).
      destruct (round_pos_positive _ _ Hnum Hden Hmin) as [->|(q & e' & -> & _)];
        simpl; eauto.
Qed.

End RoundingFacts.

(** ** [Array.prototype.sort] *)

Section SortFacts.
Context {A : Type} (comparefn : A -> A -> number).

#[local] Abbreviation before := (ArraySort.before comparefn).
#[local] Abbreviation extendRun := (ArraySort.extendRun comparefn).
#[local] Abbreviation countAndMakeRun := (ArraySort.countAndMakeRun comparefn).
#[local] Abbreviation insertionPoint := (ArraySort.insertionPoint comparefn).
#[local] Abbreviation insert := (ArraySort.insert comparefn).
#[local] Abbreviation binaryInsertionSort :=
  (ArraySort.binaryInsertionSort comparefn).
#[local] Abbreviation sort := (ArraySort.sort comparefn).
#[local] Abbreviation le := (ArraySort.le comparefn).
#[local] Abbreviation consistent := (ArraySort.consistent comparefn).
#[local] Abbreviation consistentb := (ArraySort.consistentb comparefn).
#[local] Abbreviation linked := (ArraySort.linked comparefn).
#[local] Abbreviation consistent_asym := (ArraySort.consistent_asym comparefn).
#[local] Abbreviation consistent_trans := (ArraySort.consistent_trans comparefn).

Lemma insertionPoint_S f pivot arr left right :
  insertionPoint (S f) pivot arr left right =
  if (left <? right)%nat then
    match arr !! (left + (right - left) / 2)%nat with
    | Some x =>
        if before pivot x
        then insertionPoint f pivot arr left (left + (right - left) / 2)
        else insertionPoint f pivot arr (S (left + (right - left) / 2)) right
    | None => left
    end
  else left.
Proof. reflexivity. Qed.

(** *** The result is a permutation of the array *)

Lemma elem_of_rev (x : A) l : x ∈ rev l <-> x ∈ l.
Proof. by rewrite !list_elem_of_In, <- in_rev. Qed.

Lemma extendRun_app d prev l :
  (extendRun d prev l).1 ++ (extendRun d prev l).2 = l.
Proof.
  revert prev; induction l as [|c r IH]; intros prev; simpl; [done|].
  destruct (Bool.eqb (before c prev) d); [|done].
  specialize (IH c). destruct (extendRun d c r) as [run rest].
  simpl in *. by rewrite IH.
Qed.

Lemma countAndMakeRun_perm l :
  (countAndMakeRun l).1 ++ (countAndMakeRun l).2 ≡ₚ l.
Proof.
  destruct l as [|a0 [|a1 r]]; simpl; [done..|].
  pose proof (extendRun_app (before a1 a0) a1 r) as E.
  destruct (extendRun (before a1 a0) a1 r) as [run rest]. simpl in *.
  subst r.
  destruct (before a1 a0).
  - change (rev (a0 :: a1 :: run) ++ rest ≡ₚ (a0 :: a1 :: run) ++ rest).
    by rewrite <- Permutation_rev.
  - done.
Qed.

Lemma insert_perm sorted pivot : insert sorted pivot ≡ₚ pivot :: sorted.
Proof.
  unfold ArraySort.insert.
  rewrite <- Permutation_middle. by rewrite take_drop.
Qed.

Lemma binaryInsertionSort_perm rest run :
  binaryInsertionSort run rest ≡ₚ run ++ rest.
Proof.
  unfold ArraySort.binaryInsertionSort.
  revert run; induction rest as [|x rest IH]; intros run; simpl.
  - by rewrite app_nil_r.
  - rewrite IH, insert_perm. by rewrite <- Permutation_middle.
Qed.

Lemma sort_perm l : sort l ≡ₚ l.
Proof.
  unfold ArraySort.sort. pose proof (countAndMakeRun_perm l) as E.
  destruct (countAndMakeRun l) as [run rest]. simpl in E.
  by rewrite binaryInsertionSort_perm.
Qed.

Lemma sort_length l : length (sort l) = length l.
Proof. by rewrite sort_perm. Qed.

(** *** The result is ascending when the comparator is consistent *)

Lemma consistentb_sound U : consistentb U = true -> consistent U.
Proof.
  unfold ArraySort.consistentb. rewrite forallb_forall. intros H.
  split.
  - intros x y Hx Hy Hxy.
    apply list_elem_of_In in Hx, Hy.
    specialize (H x Hx). rewrite forallb_forall in H.
    specialize (H y Hy). apply andb_true_iff in H as [H _].
    rewrite Hxy in H. simpl in H. by apply negb_true_iff.
  - unfold ArraySort.le. intros x y z Hx Hy Hz Hxy Hyz.
    apply list_elem_of_In in Hx, Hy, Hz.
    specialize (H x Hx). rewrite forallb_forall in H.
    specialize (H y Hy). apply andb_true_iff in H as [_ H].
    rewrite forallb_forall in H. specialize (H z Hz).
    rewrite Hxy, Hyz in H. simpl in H. by apply negb_true_iff.
Qed.

Section Consistent.
Variable U : list A.
Hypothesis HU : consistent U.

Lemma sorted_lookup (l : list A) i j x y :
  StronglySorted le l -> (i < j)%nat ->
  l !! i = Some x -> l !! j = Some y -> le x y.
Proof.
  intros HS Hij Hi Hj.
  rewrite <- (take_drop j l) in HS.
  eapply StronglySorted_app_1_elem_of; [exact HS| |].
  - apply elem_of_take. eauto.
  - apply list_elem_of_lookup. exists 0%nat.
    rewrite lookup_drop. by rewrite Nat.add_0_r.
Qed.

Lemma insertionPoint_spec fuel pivot arr left right :
  pivot ∈ U -> arr ⊆ U -> StronglySorted le arr ->
  (left <= right)%nat -> (right <= length arr)%nat ->
  (right - left <= fuel)%nat ->
  (forall i x, (i < left)%nat -> arr !! i = Some x -> le x pivot) ->
  (forall i x, (right <= i)%nat -> arr !! i = Some x ->
               before pivot x = true) ->
  (forall i x, (i < insertionPoint fuel pivot arr left right)%nat ->
               arr !! i = Some x -> le x pivot)
  /\ (forall i x, (insertionPoint fuel pivot arr left right <= i)%nat ->
                  arr !! i = Some x -> before pivot x = true).
Proof.
  intros Hp HarrU HS.
  revert left right.
  induction fuel as [|f IH]; intros left right Hlr Hr Hf HL HR.
  { simpl. assert (left = right) by lia. subst. split; eauto. }
  rewrite insertionPoint_S.
  destruct (Nat.ltb_spec left right) as [Hlt|Hge].
  2:{ assert (left = right) by lia. subst. split; eauto. }
  set (mid := (left + (right - left) / 2)%nat).
  assert (left <= mid < right)%nat as Hmid.
  { subst mid. split; [lia|].
    assert ((right - left) / 2 < right - left)%nat; [|lia].
    apply Nat.div_lt; lia. }
  destruct (arr !! mid) as [xm|] eqn:Em.
  2:{ apply lookup_ge_None in Em. lia. }
  assert (xm ∈ U) as HxmU.
  { apply HarrU. by eapply list_elem_of_lookup_2. }
  destruct (before pivot xm) eqn:Eb.
  - apply IH; [lia|lia|lia|done|].
    intros i x Hi Hx.
    destruct (decide (i = mid)) as [->|Hne]; [congruence|].
    destruct (before pivot x) eqn:Ebx; [done|].
    assert (le xm x) by (eapply (sorted_lookup arr mid i); eauto; lia).
    assert (x ∈ U) by (apply HarrU; by eapply list_elem_of_lookup_2).
    assert (le xm pivot) as Hc
      by (eapply (consistent_trans U HU xm x pivot); eauto).
    unfold ArraySort.le in Hc. congruence.
  - apply IH; [lia|lia|lia| |done].
    intros i x Hi Hx.
    destruct (decide (i = mid)) as [->|Hne]; [unfold ArraySort.le; congruence|].
    assert (le x xm) by (eapply (sorted_lookup arr i mid); eauto; lia).
    assert (x ∈ U) by (apply HarrU; by eapply list_elem_of_lookup_2).
    eapply (consistent_trans U HU x xm pivot); eauto.
Qed.

Lemma insert_sorted arr pivot :
  pivot ∈ U -> arr ⊆ U -> StronglySorted le arr ->
  StronglySorted le (insert arr pivot).
Proof.
  intros Hp HarrU HS. unfold ArraySort.insert.
  destruct (insertionPoint_spec (length arr) pivot arr 0 (length arr))
    as [HL HR]; try done; try lia.
  { intros i x Hi Hx. apply lookup_lt_Some in Hx. lia. }
  set (p := insertionPoint _ _ _ _ _) in *.
  pose proof HS as HS'. rewrite <- (take_drop p arr) in HS'.
  apply StronglySorted_app in HS' as (Hcross & Htake & Hdrop).
  apply StronglySorted_app_2; [|done|].
  - intros x1 x2 H1 H2. apply elem_of_take in H1 as (i & Hi & Hlt).
    apply elem_of_cons in H2 as [->|H2]; [by eapply HL|].
    apply Hcross; [|done]. apply elem_of_take. eauto.
  - apply StronglySorted_cons. split; [|done].
    apply Forall_forall. intros x Hx.
    apply list_elem_of_lookup in Hx as (i & Hi).
    rewrite lookup_drop in Hi.
    assert (x ∈ U) by (apply HarrU; by eapply list_elem_of_lookup_2).
    eapply (consistent_asym U HU); eauto.
    eapply HR; [|done]. lia.
Qed.

Lemma binaryInsertionSort_sorted rest run :
  run ⊆ U -> rest ⊆ U -> StronglySorted le run ->
  StronglySorted le (binaryInsertionSort run rest).
Proof.
  unfold ArraySort.binaryInsertionSort.
  revert run; induction rest as [|x rest IH]; intros run Hrun Hrest HS;
    simpl; [done|].
  apply IH.
  - intros y Hy. rewrite insert_perm in Hy.
    apply elem_of_cons in Hy as [->|Hy]; [apply Hrest; left|by apply Hrun].
  - intros y Hy. apply Hrest. by right.
  - apply insert_sorted; [apply Hrest; left|done|done].
Qed.

Lemma extendRun_linked d prev l : linked d prev (extendRun d prev l).1.
Proof.
  revert prev; induction l as [|c r IH]; intros prev; simpl; [done|].
  destruct (Bool.eqb (before c prev) d) eqn:E; [|done].
  apply Bool.eqb_prop in E.
  specialize (IH c). destruct (extendRun d c r) as [run rest].
  simpl in *. done.
Qed.

Lemma linked_ascending prev l :
  prev :: l ⊆ U -> linked false prev l -> StronglySorted le (prev :: l).
Proof.
  revert prev; induction l as [|c r IH]; intros prev HSub HL.
  { repeat constructor. }
  destruct HL as [Hc HL].
  assert (StronglySorted le (c :: r)) as HS.
  { apply IH; [|done]. intros y Hy. apply HSub. by right. }
  constructor; [done|].
  constructor; [done|].
  apply StronglySorted_cons in HS as [HF _].
  rewrite Forall_forall in HF |- *. intros y Hy.
  eapply (consistent_trans U HU prev c y); eauto.
  - apply HSub. left.
  - apply HSub. right. left.
  - apply HSub. right. by right.
Qed.

Lemma linked_descending prev l :
  prev :: l ⊆ U -> linked true prev l ->
  StronglySorted le (rev (prev :: l)).
Proof.
  revert prev; induction l as [|c r IH]; intros prev HSub HL.
  { repeat constructor. }
  destruct HL as [Hc HL].
  assert (StronglySorted le (rev (c :: r))) as HS.
  { apply IH; [|done]. intros y Hy. apply HSub. by right. }
  change (rev (prev :: c :: r)) with (rev (c :: r) ++ [prev]).
  assert (prev ∈ U) as HpU by (apply HSub; left).
  assert (c ∈ U) as HcU by (apply HSub; right; left).
  assert (le c prev) as Hcp by (by apply (consistent_asym U HU)).
  apply StronglySorted_app_2; [|done|repeat constructor].
  intros x1 x2 H1 H2. apply list_elem_of_singleton in H2 as ->.
  rewrite elem_of_rev in H1.
  assert (x1 ∈ U) as Hx1U by (apply HSub; by right).
  apply elem_of_cons in H1 as [->|H1]; [done|].
  eapply (consistent_trans U HU x1 c prev); eauto.
  change (rev (c :: r)) with (rev r ++ [c]) in HS.
  eapply StronglySorted_app_1_elem_of; [exact HS| |left].
  by rewrite elem_of_rev.
Qed.

Lemma countAndMakeRun_sorted l :
  l ⊆ U -> StronglySorted le (countAndMakeRun l).1.
Proof.
  intros HSub.
  destruct l as [|a0 [|a1 r]]; simpl; [repeat constructor..|].
  pose proof (extendRun_linked (before a1 a0) a1 r) as HL.
  pose proof (extendRun_app (before a1 a0) a1 r) as E.
  destruct (extendRun (before a1 a0) a1 r) as [run rest]. simpl in *.
  assert (a0 :: a1 :: run ⊆ U) as HSub'.
  { intros y Hy. apply HSub. rewrite <- E.
    rewrite !elem_of_cons in Hy. rewrite !elem_of_cons, elem_of_app.
    tauto. }
  destruct (before a1 a0) eqn:Ed.
  - change (StronglySorted le (rev (a0 :: a1 :: run))).
    by apply linked_descending.
  - by apply linked_ascending.
Qed.

Lemma sort_sorted l : l ⊆ U -> StronglySorted le (sort l).
Proof.
  intros HSub. unfold ArraySort.sort.
  pose proof (countAndMakeRun_sorted l HSub) as HS.
  pose proof (countAndMakeRun_perm l) as HP.
  destruct (countAndMakeRun l) as [run rest]. simpl in *.
  apply binaryInsertionSort_sorted; [| |done].
  - intros y Hy. apply HSub. rewrite <- HP. apply elem_of_app. by left.
  - intros y Hy. apply HSub. rewrite <- HP. apply elem_of_app. by right.
Qed.

End Consistent.

End SortFacts.

(** ** The comparator and the classification of cell values *)

Lemma compareValues_both_numbers (a b : value) (aNum bNum : number) :
  parseMaybeNumber a = Some aNum ->
  parseMaybeNumber b = Some bNum ->
  compareValues a b = sub aNum bNum.
Proof.
  intros Ha Hb. unfold compareValues. rewrite Ha, Hb.
  destruct a; try discriminate; destruct b; try discriminate; reflexivity.
Qed.

(** C2: the code at the cells "0.5%" and "0.25%".  Both classify to
    numbers, 0.5 and 0.25, whose difference is positive; the bars of
    the answer table read them so, with [parseAnswerNumber].
    [compareValues] reads its numbers with [parseMaybeNumber], which
    takes the commas out of a text and nothing else: with a percent
    sign the text is no number to it, the two cells are compared as
    text, where the digit run 5 comes before the digit run 25, and the
    result is negative.  Sorted in ascending order, the answer table
    and the report table show "0.5%" above "0.25%". *)
Theorem compareValues_percent_cells :
  classify (VString (str "0.5%")) = Some (Fin 1 (-1))
  /\ classify (VString (str "0.25%")) = Some (Fin 1 (-2))
  /\ sgn (sub (Fin 1 (-1)) (Fin 1 (-2))) = 1
  /\ sgn (compareValues (VString (str "0.5%")) (VString (str "0.25%"))) = -1
  /\ parseMaybeNumber (VString (str "0.5%")) = None
  /\ parseMaybeNumber (VString (str "0.25%")) = None
  /\ AnswerTable.sortedRows [[str "0.25%"]; [str "0.5%"]]
       (Some {| AnswerTable.colIdx := 0; AnswerTable.direction := asc |})
     = [[str "0.5%"]; [str "0.25%"]]
  /\ AnswerBars.columnMax [[str "0.25%"]; [str "0.5%"]] 0 = Fin 1 (-1)
  /\ AnswerBars.ratio (str "0.25%") (Fin 1 (-1)) = Fin 1 (-1)
  /\ ReportPanel.sortedRows
       [rowOf [(str "Rate", VString (str "0.25%"))];
        rowOf [(str "Rate", VString (str "0.5%"))]]
       (Some {| ReportPanel.key := str "Rate"; ReportPanel.direction := asc |})
     = [rowOf [(str "Rate", VString (str "0.5%"))];
        rowOf [(str "Rate", VString (str "0.25%"))]].
Proof. vm_compute. repeat split; reflexivity. Qed.

(** The numeric branch: for every pair of raw cell values that both
    read as numbers under [parseMaybeNumber] (a finite number, or a text
    that without its commas and surrounding white space is not empty
    and converts to a number other than NaN), [compareValues] returns
    their numeric difference, and the comparators of the report tables
    and of the answer tables order the two rows by the sign of that
    difference times the direction, falling back to the row index on a
    tie. *)
Theorem compareValues_numeric (a b : value) (aNum bNum : number) :
  parseMaybeNumber a = Some aNum ->
  parseMaybeNumber b = Some bNum ->
  compareValues a b = sub aNum bNum
  /\ (forall c left right,
        ReportPanel.get left.1 (ReportPanel.key c) = a ->
        ReportPanel.get right.1 (ReportPanel.key c) = b ->
        ReportPanel.comparator c left right =
          if negb (eqb0 (sub aNum bNum))
          then mul (sub aNum bNum) (multiplierOf (ReportPanel.direction c))
          else sub (of_nat left.2) (of_nat right.2))
  /\ (forall c left right,
        VString (AnswerTable.cell left.1 (AnswerTable.colIdx c)) = a ->
        VString (AnswerTable.cell right.1 (AnswerTable.colIdx c)) = b ->
        AnswerTable.comparator c left right =
          if negb (eqb0 (sub aNum bNum))
          then mul (sub aNum bNum) (multiplierOf (AnswerTable.direction c))
          else sub (of_nat left.2) (of_nat right.2)).
Proof.
  intros Ha Hb.
  assert (compareValues a b = sub aNum bNum) as Hc
    by (by apply compareValues_both_numbers).
  split; [exact Hc|]. split.
  - intros c left right Hl Hr. unfold ReportPanel.comparator.
    by rewrite Hl, Hr, Hc.
  - intros c left right Hl Hr. unfold AnswerTable.comparator.
    by rewrite Hl, Hr, Hc.
Qed.

Lemma compareValues_numeric_witness :
  compareValues (VString (str "1,000")) (VNumber (of_Z 999)) = of_Z 1.
Proof.
  exact (proj1 (compareValues_numeric
                  (VString (str "1,000")) (VNumber (of_Z 999))
                  (of_Z 1000) (of_Z 999) eq_refl eq_refl)).
Defined.

(** C3, as stated, fails on its second example: the text "05:00" is read
    as five hours and no minutes, 18000 seconds, not 300. *)
Lemma duration_05_00_is_not_300 :
  parseAnswerNumber (str "05:00") <> Some (of_Z 300).
Proof. vm_compute. discriminate. Qed.

(** C3, amended: "1:02:03" classifies to 3723; "05:00", whose two fields
    are hours and minutes, classifies to 18000; "12" has no colon, is not
    read as a duration and classifies to 12 by the plain numeric rule. *)
Theorem duration_examples :
  parseAnswerNumber (str "1:02:03") = Some (of_Z 3723)
  /\ parseAnswerNumber (str "05:00") = Some (of_Z 18000)
  /\ parseDurationToSeconds (str "12") = None
  /\ parseAnswerNumber (str "12") = Some (of_Z 12).
Proof. vm_compute. repeat split; reflexivity. Qed.

(** ** The comparator of a view on a column of numbers *)

Section ComparatorFacts.

Lemma sub_sign m1 e1 m2 e2 :
  -1074 <= e1 -> -1074 <= e2 ->
  let s := sub (Fin m1 e1) (Fin m2 e2) in
  onGrid s /\ isNaN s = false
  /\ ltb0 s = (inUnits (Fin m1 e1) <? inUnits (Fin m2 e2))
  /\ eqb0 s = (inUnits (Fin m1 e1) =? inUnits (Fin m2 e2))
  /\ gtb0 s = (inUnits (Fin m2 e2) <? inUnits (Fin m1 e1)).
Proof.
  intros H1 H2. cbv zeta. unfold sub, neg, add.
  set (e := Z.min e1 e2).
  set (D := m1 * 2 ^ (e1 - e) + - m2 * 2 ^ (e2 - e)).
  assert (-1074 <= e) as He by lia.
  split; [apply round_dy_onGrid|].
  assert (inUnits (Fin m1 e1) - inUnits (Fin m2 e2) = D * 2 ^ (e + 1074)) as EU.
  { unfold inUnits. subst D.
    replace (e1 + 1074) with ((e1 - e) + (e + 1074)) by lia.
    replace (e2 + 1074) with ((e2 - e) + (e + 1074)) by lia.
    rewrite (Z.pow_add_r 2 (e1 - e)) by lia.
    rewrite (Z.pow_add_r 2 (e2 - e)) by lia. ring. }
  assert (0 < 2 ^ (e + 1074)) as Hp by (apply Z.pow_pos_nonneg; lia).
  pose proof (round_dy_sign D e He) as HS.
  destruct D as [|p|p] eqn:ED.
  - rewrite HS. simpl isNaN. simpl ltb0. simpl eqb0. simpl gtb0.
    split; [done|].
    assert (inUnits (Fin m1 e1) = inUnits (Fin m2 e2)) as -> by lia.
    rewrite !Z.ltb_irrefl, Z.eqb_refl. done.
  - assert (inUnits (Fin m2 e2) < inUnits (Fin m1 e1)) as Hlt by nia.
    destruct (Z.ltb_spec (inUnits (Fin m1 e1)) (inUnits (Fin m2 e2))); [lia|].
    destruct (Z.eqb_spec (inUnits (Fin m1 e1)) (inUnits (Fin m2 e2))); [lia|].
    destruct (Z.ltb_spec (inUnits (Fin m2 e2)) (inUnits (Fin m1 e1))); [|lia].
    destruct HS as [->|(q & e' & ->)]; done.
  - assert (inUnits (Fin m1 e1) < inUnits (Fin m2 e2)) as Hlt by nia.
    destruct (Z.ltb_spec (inUnits (Fin m1 e1)) (inUnits (Fin m2 e2))); [|lia].
    destruct (Z.eqb_spec (inUnits (Fin m1 e1)) (inUnits (Fin m2 e2))); [lia|].
    destruct (Z.ltb_spec (inUnits (Fin m2 e2)) (inUnits (Fin m1 e1))); [lia|].
    destruct HS as [->|(q & e' & ->)]; done.
Qed.

Lemma mul_multiplier_sign s d :
  onGrid s -> isNaN s = false ->
  isNaN (mul s (multiplierOf d)) = false
  /\ ltb0 (mul s (multiplierOf d))
     = match d with asc => ltb0 s | desc => gtb0 s end.
Proof.
  intros Hg Hn. destruct s as [|a|m e]; [done| |].
  - destruct d, a; done.
  - simpl in Hg.
    assert (-1074 <= e + 0) as He by lia.
    destruct d; unfold multiplierOf, of_Z, mk, strip2, mul.
    + pose proof (round_dy_sign (m * 1) (e + 0) He) as HS.
      replace (m * 1) with m in * by lia.
      destruct m as [|p|p]; simpl ltb0.
      * by rewrite HS.
      * destruct HS as [->|(q & e' & ->)]; done.
      * destruct HS as [->|(q & e' & ->)]; done.
    + pose proof (round_dy_sign (m * -1) (e + 0) He) as HS.
      replace (m * -1) with (- m) in * by lia.
      destruct m as [|p|p]; simpl gtb0; simpl Z.opp in *.
      * by rewrite HS.
      * destruct HS as [->|(q & e' & ->)]; done.
      * destruct HS as [->|(q & e' & ->)]; done.
Qed.

Lemma of_nat_onGrid i :
  exists m e, of_nat i = Fin m e /\ -1074 <= e
              /\ inUnits (Fin m e) = Z.of_nat i * 2 ^ 1074.
Proof.
  destruct (of_nat_value i) as (m & e & E & He & Hv).
  exists m, e. split; [done|]. split; [lia|].
  simpl. rewrite Z.pow_add_r by lia. lia.
Qed.

Lemma index_difference_sign i j :
  ltb0 (sub (of_nat i) (of_nat j)) = (i <? j)%nat
  /\ isNaN (sub (of_nat i) (of_nat j)) = false.
Proof.
  destruct (of_nat_onGrid i) as (m1 & e1 & -> & H1 & U1).
  destruct (of_nat_onGrid j) as (m2 & e2 & -> & H2 & U2).
  destruct (sub_sign m1 e1 m2 e2 H1 H2) as (_ & Hn & Hl & _).
  split; [|done]. rewrite Hl, U1, U2.
  assert (0 < 2 ^ 1074) by done.
  destruct (Nat.ltb_spec i j); destruct (Z.ltb_spec (Z.of_nat i * 2 ^ 1074)
    (Z.of_nat j * 2 ^ 1074)); try done; nia.
Qed.

Lemma viewComparator_numeric {T} (cellOf : T -> value) d (l r : T * nat) :
  numericCell (cellOf l.1) = true -> numericCell (cellOf r.1) = true ->
  before (viewComparator cellOf d) l r =
    match d with
    | asc => cellUnits (cellOf l.1) <? cellUnits (cellOf r.1)
    | desc => cellUnits (cellOf r.1) <? cellUnits (cellOf l.1)
    end
    || ((cellUnits (cellOf l.1) =? cellUnits (cellOf r.1)) && (l.2 <? r.2)%nat).
Proof.
  unfold numericCell, cellUnits. intros Hl Hr.
  destruct (parseMaybeNumber (cellOf l.1)) as [[| |m1 e1]|] eqn:El; try done.
  destruct (parseMaybeNumber (cellOf r.1)) as [[| |m2 e2]|] eqn:Er; try done.
  apply Z.leb_le in Hl, Hr.
  pose proof (compareValues_both_numbers _ _ _ _ El Er) as Hc.
  destruct (sub_sign m1 e1 m2 e2 Hl Hr) as (Hg & Hn & Hlt & Heq & Hgt).
  unfold before, order, viewComparator. rewrite Hc.
  destruct (eqb0 (sub (Fin m1 e1) (Fin m2 e2))) eqn:E0; simpl negb; cbn iota.
  - destruct (index_difference_sign l.2 r.2) as [Hi Hni].
    rewrite Hni, Hi. rewrite <- Heq.
    symmetry in Heq. apply Z.eqb_eq in Heq. rewrite Heq.
    rewrite !Z.ltb_irrefl. by destruct d.
  - destruct (mul_multiplier_sign _ d Hg Hn) as [Hm1 Hm2].
    rewrite Hm1, Hm2. rewrite <- Heq, andb_false_l, orb_false_r.
    destruct d; congruence.
Qed.

(** On a column of finite numbers the comparator of a view is a
    consistent ordering. *)
Lemma viewComparator_consistent {T} (cellOf : T -> value) d
  (U : list (T * nat)) :
  Forall (fun x => numericCell (cellOf x.1) = true) U ->
  consistent (viewComparator cellOf d) U.
Proof.
  rewrite Forall_forall. intros HU. split.
  - intros x y Hx Hy. rewrite !viewComparator_numeric by auto.
    destruct d;
      repeat match goal with
             | |- context [(?a <? ?b)%nat] => destruct (Nat.ltb_spec a b)
             | |- context [?a <? ?b] => destruct (Z.ltb_spec a b)
             | |- context [?a =? ?b] => destruct (Z.eqb_spec a b)
             end; simpl; try done; try lia.
  - unfold le. intros x y z Hx Hy Hz.
    rewrite !viewComparator_numeric by auto.
    destruct d;
      repeat match goal with
             | |- context [(?a <? ?b)%nat] => destruct (Nat.ltb_spec a b)
             | |- context [?a <? ?b] => destruct (Z.ltb_spec a b)
             | |- context [?a =? ?b] => destruct (Z.eqb_spec a b)
             end; simpl; try done; try lia.
Qed.

End ComparatorFacts.

(** ** The ranker *)

Section RankerFacts.
Import ReportPanel Ranker.

Lemma elem_of_candidates data pageKey valueKey excludeZero r :
  r ∈ candidates data pageKey valueKey excludeZero <->
  (exists row, row ∈ data /\ r = toRanked pageKey valueKey row)
  /\ hasLabel r = true /\ passesZero excludeZero r = true.
Proof.
  unfold candidates.
  rewrite !list_elem_of_In, !filter_In, in_map_iff.
  setoid_rewrite list_elem_of_In.
  split.
  - intros [[(row & <- & Hin) Hl] Hz]. eauto 10.
  - intros [(row & Hin & ->) [Hl Hz]]. eauto 10.
Qed.

Lemma candidates_length data pageKey valueKey excludeZero :
  (length (candidates data pageKey valueKey excludeZero) <= length data)%nat.
Proof.
  unfold candidates.
  etransitivity; [apply List.filter_length_le|].
  etransitivity; [apply List.filter_length_le|].
  by rewrite List.length_map.
Qed.

End RankerFacts.

(** C9, as stated, fails: a row whose value is the text "0%" classifies
    to the number zero, yet with [excludeZero] the ranker keeps it, since
    the ranker reads values with [parseMaybeNumber], for which a text
    with a percent sign is not a number. *)
Lemma ranker_keeps_zero_percent :
  classify (VString (str "0%")) = Some (of_Z 0)
  /\ Ranker.buildRankedRows
       [rowOf [(str "Page", VString (str "/home"));
               (str "Revenue", VString (str "0%"))]]
       (str "Page") (str "Revenue") asc 5 true
     = [(str "/home", str "0%")].
Proof. vm_compute. split; reflexivity. Qed.

(** C9, amended: with [excludeZero] a row of the report passes the two
    filters of the ranker if and only if its trimmed label is not empty
    and its value does not read as the number zero under
    [parseMaybeNumber] (a finite number, or a text that converts to a
    number once its commas and surrounding white space are removed); a
    row whose value does not read as a number is kept; a row whose
    trimmed label is empty is dropped with or without [excludeZero]; and
    when [limit] is at least the number of rows, the result holds exactly
    the rows that passed, each as its label and its untouched value. *)
Theorem ranker_exclusion data pageKey valueKey direction limit row :
  row ∈ data ->
  let r := Ranker.toRanked pageKey valueKey row in
  (r ∈ Ranker.candidates data pageKey valueKey true <->
     Ranker.hasLabel r = true
     /\ forall n, parseMaybeNumber (ReportPanel.get row valueKey) = Some n ->
                  eqb0 n = false)
  /\ (parseMaybeNumber (ReportPanel.get row valueKey) = None ->
      Ranker.hasLabel r = true ->
      r ∈ Ranker.candidates data pageKey valueKey true)
  /\ (Ranker.hasLabel r = false ->
      forall excludeZero,
        r ∉ Ranker.candidates data pageKey valueKey excludeZero)
  /\ ((length data <= limit)%nat ->
      Ranker.buildRankedRows data pageKey valueKey direction limit true
      ≡ₚ Ranker.project <$> Ranker.candidates data pageKey valueKey true).
Proof.
  intros Hin r.
  assert (Ranker.passesZero true r = true <->
          forall n, parseMaybeNumber (ReportPanel.get row valueKey) = Some n ->
                    eqb0 n = false) as Hz.
  { unfold Ranker.passesZero, r. simpl.
    destruct (parseMaybeNumber (ReportPanel.get row valueKey)) as [n|].
    - rewrite negb_true_iff. split; [by intros ? ? [= <-]|eauto].
    - split; [by intros|done]. }
  split; [split|split; [|split]].
  - intros H. apply elem_of_candidates in H as (_ & Hl & Hp).
    split; [done|]. by apply Hz.
  - intros [Hl Hn]. apply elem_of_candidates.
    split; [by exists row|]. split; [done|]. by apply Hz.
  - intros Hnone Hl. apply elem_of_candidates.
    split; [by exists row|]. split; [done|].
    apply Hz. intros n Hn. congruence.
  - intros Hl excludeZero H.
    apply elem_of_candidates in H as (_ & Hl' & _). congruence.
  - intros Hlimit. unfold Ranker.buildRankedRows.
    rewrite take_ge.
    + change (Ranker.project <$> sort (Ranker.rankOrder direction)
                (Ranker.candidates data pageKey valueKey true)
              ≡ₚ Ranker.project <$> Ranker.candidates data pageKey valueKey true).
      by rewrite sort_perm.
    + rewrite sort_length.
      pose proof (candidates_length data pageKey valueKey true). lia.
Qed.

Lemma ranker_exclusion_witness :
  Ranker.buildRankedRows
    [rowOf [(str "Page", VString (str "/a")); (str "Revenue", VString (str "N/A"))];
     rowOf [(str "Page", VString (str "/b")); (str "Revenue", VNumber (of_Z 0))];
     rowOf [(str "Page", VString (str " ")); (str "Revenue", VNumber (of_Z 7))];
     rowOf [(str "Page", VString (str "/d")); (str "Revenue", VString (str "1,200"))]]
    (str "Page") (str "Revenue") asc 5 true
  ≡ₚ [(str "/a", str "N/A"); (str "/d", str "1,200")].
Proof.
  refine (proj2 (proj2 (proj2 (ranker_exclusion _ (str "Page") (str "Revenue") asc 5%nat
    (rowOf [(str "Page", VString (str "/a")); (str "Revenue", VString (str "N/A"))])
    _))) _).
  - left.
  - simpl. lia.
Defined.

(** ** Sorted views *)

Section IndexedSortFacts.
Context {T : Type} (comparefn : T * nat -> T * nat -> number).

Lemma withIndex_lookup (rows : list T) i :
  withIndex rows !! i = (fun row => (row, i)) <$> rows !! i.
Proof. unfold withIndex. apply list_lookup_imap. Qed.

Lemma withIndex_rows (rows : list T) : (withIndex rows).*1 = rows.
Proof.
  apply list_eq. intros i.
  rewrite list_lookup_fmap, withIndex_lookup.
  by destruct (rows !! i).
Qed.

Lemma elem_of_withIndex (rows : list T) row i :
  (row, i) ∈ withIndex rows <-> rows !! i = Some row.
Proof.
  rewrite list_elem_of_lookup. split.
  - intros [k Hk]. rewrite withIndex_lookup in Hk.
    destruct (rows !! k) eqn:E; simpl in Hk; [|done].
    by injection Hk as -> ->.
  - intros H. exists i. by rewrite withIndex_lookup, H.
Qed.

Lemma sortedWithIndex_perm (rows : list T) :
  sortedWithIndex comparefn rows ≡ₚ withIndex rows.
Proof. apply sort_perm. Qed.

Lemma sortedView_perm (rows : list T) : sortedView comparefn rows ≡ₚ rows.
Proof.
  unfold sortedView. rewrite sortedWithIndex_perm. by rewrite withIndex_rows.
Qed.

Lemma sortedView_lookup (rows : list T) p row i :
  sortedWithIndex comparefn rows !! p = Some (row, i) ->
  sortedView comparefn rows !! p = Some row.
Proof. intros H. unfold sortedView. by rewrite list_lookup_fmap, H. Qed.

(** With a consistent comparator, a row that the comparator puts
    before a later row stays before it. *)
Lemma sortedWithIndex_keeps_order (rows : list T) i j ri rj :
  consistent comparefn (withIndex rows) ->
  rows !! i = Some ri -> rows !! j = Some rj ->
  before comparefn (ri, i) (rj, j) = true ->
  exists p q, (p < q)%nat
    /\ sortedWithIndex comparefn rows !! p = Some (ri, i)
    /\ sortedWithIndex comparefn rows !! q = Some (rj, j).
Proof.
  intros HC Hi Hj Hb.
  assert (StronglySorted (le comparefn) (sortedWithIndex comparefn rows)) as HS.
  { by apply (sort_sorted comparefn (withIndex rows) HC). }
  assert ((ri, i) ∈ sortedWithIndex comparefn rows) as Hp.
  { rewrite sortedWithIndex_perm. by apply elem_of_withIndex. }
  assert ((rj, j) ∈ sortedWithIndex comparefn rows) as Hq.
  { rewrite sortedWithIndex_perm. by apply elem_of_withIndex. }
  apply list_elem_of_lookup in Hp as [p Hp].
  apply list_elem_of_lookup in Hq as [q Hq].
  exists p, q. split; [|done].
  destruct (Nat.lt_trichotomy p q) as [?|[->|Hlt]]; [done| |].
  - rewrite Hp in Hq. injection Hq as -> ->.
    assert ((rj, j) ∈ withIndex rows) as Hin by (by apply elem_of_withIndex).
    pose proof (consistent_asym comparefn _ HC _ _ Hin Hin Hb). congruence.
  - pose proof (sorted_lookup comparefn _ q p _ _ HS Hlt Hq Hp) as Hle.
    unfold le in Hle. congruence.
Qed.

(** What the store holds after the view is built. *)
Lemma sortedViewIn_spec (h : gmap positive (array T)) (rows : positive) :
  let r := sortedViewIn comparefn h rows in
  (forall l, is_Some (h !! l) -> r.1 !! l = h !! l)
  /\ plain (r.1 !! r.2) = sortedView comparefn (plain (h !! rows)).
Proof.
  unfold sortedViewIn, alloc, sortAt. simpl.
  set (p1 := fresh (dom h)).
  set (a1 := Indexed (withIndex (plain (h !! rows)))).
  rewrite lookup_insert_eq. simpl.
  rewrite insert_insert_eq.
  set (h2 := <[p1 := _]> h).
  set (p3 := fresh (dom h2)).
  split.
  - intros l Hl.
    assert (l <> p1).
    { intros ->. apply elem_of_dom in Hl. by apply (is_fresh (dom h)). }
    assert (l <> p3).
    { intros ->. apply (is_fresh (dom h2)). fold p3. subst h2.
      rewrite dom_insert_L. apply elem_of_union_r. by apply elem_of_dom. }
    rewrite lookup_insert_ne by done. subst h2.
    by rewrite lookup_insert_ne.
  - rewrite lookup_insert_eq. subst h2. by rewrite lookup_insert_eq.
Qed.

End IndexedSortFacts.

Lemma before_of_negative {A} (comparefn : A -> A -> number) x y :
  ltb0 (comparefn x y) = true -> before comparefn x y = true.
Proof.
  intros H. unfold before, order.
  destruct (comparefn x y); simpl in *; done.
Qed.

(** C8: the code at the column "2%", "1000", "1", "1,000", sorted in
    ascending order.  The comparator falls back to the row index when
    two values compare equal, which keeps equal rows in their order
    when [compareValues] is a consistent ordering of the column.  On a
    column that mixes texts it reads as numbers with texts it does not,
    it is none ("1,000" is below "2%" as text, "2%" is below "1000" as
    text, and "1000" equals "1,000" as numbers), the result of [sort]
    then depends on which pairs it compares, and the rows "1000"
    (index 1) and "1,000" (index 3), which compare equal, come out with
    index 3 first, in the answer table and in the report table. *)
Theorem sort_unstable_on_mixed_column :
  eqb0 (compareValues (VString (str "1000")) (VString (str "1,000"))) = true
  /\ (AnswerTable.sortedWithIndex
        [[str "2%"]; [str "1000"]; [str "1"]; [str "1,000"]]
        {| AnswerTable.colIdx := 0; AnswerTable.direction := asc |}).*2
     = [2; 3; 0; 1]%nat
  /\ AnswerTable.sortedRows
       [[str "2%"]; [str "1000"]; [str "1"]; [str "1,000"]]
       (Some {| AnswerTable.colIdx := 0; AnswerTable.direction := asc |})
     = [[str "1"]; [str "1,000"]; [str "2%"]; [str "1000"]]
  /\ (ReportPanel.sortedWithIndex
        [rowOf [(str "k", VString (str "2%"))];
         rowOf [(str "k", VString (str "1000"))];
         rowOf [(str "k", VString (str "1"))];
         rowOf [(str "k", VString (str "1,000"))]]
        {| ReportPanel.key := str "k"; ReportPanel.direction := asc |}).*2
     = [2; 3; 0; 1]%nat.
Proof. vm_compute. repeat split; reflexivity. Qed.

Lemma withIndex_Forall {T} (P : T -> Prop) (rows : list T) :
  Forall P rows -> Forall (fun x => P x.1) (withIndex rows).
Proof.
  rewrite !Forall_forall. intros H [row i] Hin.
  apply elem_of_withIndex in Hin. apply H. by eapply list_elem_of_lookup_2.
Qed.

(** A text without a percent sign in place of "2%" gives the same
    order. *)
Example sort_unstable_with_plain_text :
  (AnswerTable.sortedWithIndex
     [[str "2 visits"]; [str "1000"]; [str "1"]; [str "1,000"]]
     {| AnswerTable.colIdx := 0; AnswerTable.direction := asc |}).*2
  = [2; 3; 0; 1]%nat.
Proof. vm_compute. reflexivity. Qed.

(** The mixed column admits no ascending arrangement at all: whatever
    [sort] returns on it, some row stands before a row the comparator
    puts below it. *)
Example mixed_column_has_no_order :
  forallb
    (fun l =>
       existsb
         (fun i =>
            existsb
              (fun j =>
                 match l !! i, l !! j with
                 | Some x, Some y =>
                     (i <? j)%nat
                     && before
                          (AnswerTable.comparator
                             {| AnswerTable.colIdx := 0;
                                AnswerTable.direction := asc |}) y x
                 | _, _ => false
                 end)
              (seq 0 4))
         (seq 0 4))
    (permutations
       (withIndex [[str "2%"]; [str "1000"]; [str "1"]; [str "1,000"]]))
  = true.
Proof. vm_compute. reflexivity. Qed.

(** Where the tie-break on the row index does its work: for every
    rows sequence, sort column and direction on which the comparator of
    the view (the sign of [compareValues] on the column times the
    direction, the row index on a tie) is a consistent ordering of the
    rows, any two rows whose sort-column values compare equal appear in
    the sorted view in their original relative order, in report tables
    and in answer tables alike; and the comparator is such an ordering
    whenever every value of the column reads as a finite number. *)
Theorem sorted_view_stable :
  (forall rows c i j ri rj,
     consistent (ReportPanel.comparator c) (withIndex rows) ->
     (i < j)%nat -> rows !! i = Some ri -> rows !! j = Some rj ->
     eqb0 (compareValues (ReportPanel.get ri (ReportPanel.key c))
                         (ReportPanel.get rj (ReportPanel.key c))) = true ->
     exists p q, (p < q)%nat
       /\ ReportPanel.sortedWithIndex rows c !! p = Some (ri, i)
       /\ ReportPanel.sortedWithIndex rows c !! q = Some (rj, j)
       /\ ReportPanel.sortedRows rows (Some c) !! p = Some ri
       /\ ReportPanel.sortedRows rows (Some c) !! q = Some rj)
  /\ (forall rows c i j ri rj,
        consistent (AnswerTable.comparator c) (withIndex rows) ->
        (i < j)%nat -> rows !! i = Some ri -> rows !! j = Some rj ->
        eqb0 (compareValues (VString (AnswerTable.cell ri (AnswerTable.colIdx c)))
                            (VString (AnswerTable.cell rj (AnswerTable.colIdx c))))
          = true ->
        exists p q, (p < q)%nat
          /\ AnswerTable.sortedWithIndex rows c !! p = Some (ri, i)
          /\ AnswerTable.sortedWithIndex rows c !! q = Some (rj, j)
          /\ AnswerTable.sortedRows rows (Some c) !! p = Some ri
          /\ AnswerTable.sortedRows rows (Some c) !! q = Some rj)
  /\ (forall rows c,
        Forall (fun row =>
                  numericCell (ReportPanel.get row (ReportPanel.key c)) = true)
          rows ->
        consistent (ReportPanel.comparator c) (withIndex rows))
  /\ (forall rows c,
        Forall (fun row =>
                  numericCell
                    (VString (AnswerTable.cell row (AnswerTable.colIdx c)))
                  = true)
          rows ->
        consistent (AnswerTable.comparator c) (withIndex rows)).
Proof.
  split; [|split; [|split]].
  - intros rows c i j ri rj HC Hij Hi Hj Htie.
    destruct (sortedWithIndex_keeps_order (ReportPanel.comparator c)
                rows i j ri rj HC Hi Hj) as (p & q & Hpq & Hp & Hq).
    { apply before_of_negative. unfold ReportPanel.comparator. simpl.
      rewrite Htie. simpl.
      rewrite (proj1 (index_difference_sign i j)). by apply Nat.ltb_lt. }
    exists p, q. repeat split; try done.
    + by eapply sortedView_lookup.
    + by eapply sortedView_lookup.
  - intros rows c i j ri rj HC Hij Hi Hj Htie.
    destruct (sortedWithIndex_keeps_order (AnswerTable.comparator c)
                rows i j ri rj HC Hi Hj) as (p & q & Hpq & Hp & Hq).
    { apply before_of_negative. unfold AnswerTable.comparator. simpl.
      rewrite Htie. simpl.
      rewrite (proj1 (index_difference_sign i j)). by apply Nat.ltb_lt. }
    exists p, q. repeat split; try done.
    + by eapply sortedView_lookup.
    + by eapply sortedView_lookup.
  - intros rows c Hnum.
    apply (viewComparator_consistent
             (fun row => ReportPanel.get row (ReportPanel.key c))
             (ReportPanel.direction c)).
    by apply (withIndex_Forall
                (fun row => numericCell (ReportPanel.get row (ReportPanel.key c))
                            = true)).
  - intros rows c Hnum.
    apply (viewComparator_consistent
             (fun row => VString (AnswerTable.cell row (AnswerTable.colIdx c)))
             (AnswerTable.direction c)).
    by apply (withIndex_Forall
                (fun row =>
                   numericCell
                     (VString (AnswerTable.cell row (AnswerTable.colIdx c)))
                   = true)).
Qed.

Lemma sorted_view_stable_witness :
  exists p q, (p < q)%nat
    /\ ReportPanel.sortedWithIndex stabilityRows
         {| ReportPanel.key := str "k"; ReportPanel.direction := asc |} !! p
       = Some (rowOf [(str "k", VNumber (of_Z 1)); (str "idx", VNumber (of_Z 0))], 0%nat)
    /\ ReportPanel.sortedWithIndex stabilityRows
         {| ReportPanel.key := str "k"; ReportPanel.direction := asc |} !! q
       = Some (rowOf [(str "k", VNumber (of_Z 1)); (str "idx", VNumber (of_Z 1))], 1%nat)
    /\ ReportPanel.sortedRows stabilityRows
         (Some {| ReportPanel.key := str "k"; ReportPanel.direction := asc |}) !! p
       = Some (rowOf [(str "k", VNumber (of_Z 1)); (str "idx", VNumber (of_Z 0))])
    /\ ReportPanel.sortedRows stabilityRows
         (Some {| ReportPanel.key := str "k"; ReportPanel.direction := asc |}) !! q
       = Some (rowOf [(str "k", VNumber (of_Z 1)); (str "idx", VNumber (of_Z 1))]).
Proof.
  apply (proj1 sorted_view_stable stabilityRows
           {| ReportPanel.key := str "k"; ReportPanel.direction := asc |}
           0%nat 1%nat).
  - apply (proj1 (proj2 (proj2 sorted_view_stable))).
    repeat constructor.
  - lia.
  - reflexivity.
  - reflexivity.
  - vm_compute. reflexivity.
Defined.

(** C10: for every rows sequence and every sort configuration the sorted
    view is a permutation of the rows, of the same length, and building
    it leaves the array of the rows, like every array the store already
    held, as it was; the view is a new array unless no sort is
    configured, in which case it is the array of the rows itself.  This
    holds for report tables and for answer tables. *)
Theorem sorted_view_permutation
  (reports : gmap positive (array ReportPanel.ReportRow))
  (answers : gmap positive (array (list jsstring)))
  (reportRows answerRows : positive)
  (rc : option ReportPanel.config) (ac : option AnswerTable.config) :
  is_Some (reports !! reportRows) ->
  is_Some (answers !! answerRows) ->
  (forall rows, ReportPanel.sortedRows rows rc ≡ₚ rows
                /\ length (ReportPanel.sortedRows rows rc) = length rows)
  /\ (forall rows, AnswerTable.sortedRows rows ac ≡ₚ rows
                   /\ length (AnswerTable.sortedRows rows ac) = length rows)
  /\ (let r := ReportPanel.sortedRowsIn reports reportRows rc in
      r.1 !! reportRows = reports !! reportRows
      /\ (forall l, is_Some (reports !! l) -> r.1 !! l = reports !! l)
      /\ plain (r.1 !! r.2)
         = ReportPanel.sortedRows (plain (reports !! reportRows)) rc)
  /\ (let r := AnswerTable.sortedRowsIn answers answerRows ac in
      r.1 !! answerRows = answers !! answerRows
      /\ (forall l, is_Some (answers !! l) -> r.1 !! l = answers !! l)
      /\ plain (r.1 !! r.2)
         = AnswerTable.sortedRows (plain (answers !! answerRows)) ac).
Proof.
  intros Hr Ha.
  assert (forall rows, ReportPanel.sortedRows rows rc ≡ₚ rows) as HP1.
  { intros rows. destruct rc as [c|]; [apply sortedView_perm|done]. }
  assert (forall rows, AnswerTable.sortedRows rows ac ≡ₚ rows) as HP2.
  { intros rows. destruct ac as [c|]; [apply sortedView_perm|done]. }
  split; [|split; [|split]].
  - intros rows. split; [apply HP1|by rewrite HP1].
  - intros rows. split; [apply HP2|by rewrite HP2].
  - destruct rc as [c|]; simpl.
    + destruct (sortedViewIn_spec (ReportPanel.comparator c) reports reportRows)
        as [H1 H2].
      split; [by apply H1|]. split; [exact H1|exact H2].
    + done.
  - destruct ac as [c|]; simpl.
    + destruct (sortedViewIn_spec (AnswerTable.comparator c) answers answerRows)
        as [H1 H2].
      split; [by apply H1|]. split; [exact H1|exact H2].
    + done.
Qed.

Lemma sorted_view_permutation_witness :
  ReportPanel.sortedRows stabilityRows
    (Some {| ReportPanel.key := str "idx"; ReportPanel.direction := desc |})
  ≡ₚ stabilityRows
  /\ (ReportPanel.sortedRowsIn {[ 1%positive := Plain stabilityRows ]} 1%positive
        (Some {| ReportPanel.key := str "idx"; ReportPanel.direction := desc |})).1
       !! 1%positive
     = Some (Plain stabilityRows).
Proof.
  pose proof (sorted_view_permutation
    {[ 1%positive := Plain stabilityRows ]}
    {[ 1%positive := Plain [[str "a"]] ]}
    1%positive 1%positive
    (Some {| ReportPanel.key := str "idx"; ReportPanel.direction := desc |})
    None) as H.
  destruct H as (H1 & _ & H3 & _).
  - rewrite lookup_singleton_eq. by eexists.
  - rewrite lookup_singleton_eq. by eexists.
  - split.
    + apply H1.
    + destruct H3 as [H3 _]. rewrite H3. apply lookup_singleton_eq.
Defined.

Example sorted_view_desc :
  (ReportPanel.sortedWithIndex stabilityRows
     {| ReportPanel.key := str "idx"; ReportPanel.direction := desc |}).*2
  = [2; 1; 0]%nat.
Proof. vm_compute. reflexivity. Qed.

(** ** The sort state of a table *)

(** C7, as stated, fails: with the table of report "a" sorted by
    "Sessions", a click on the tab of report "b" puts other rows under
    the same panel, and the sort state is still the one set on "a"; and
    opening the fullscreen overlay, which changes no data and is no sort
    action, mounts a new panel whose sort state is unsorted. *)
Lemma sort_state_survives_data_change :
  ReportsContainer.rows
    (ReportsContainer.step sortedOnA (ReportsContainer.SelectTab (str "b")))
  <> ReportsContainer.rows sortedOnA
  /\ ReportsContainer.sortConfig
       (ReportsContainer.step sortedOnA (ReportsContainer.SelectTab (str "b")))
     = Some {| ReportPanel.key := str "Sessions"; ReportPanel.direction := asc |}
  /\ ReportsContainer.rows (ReportsContainer.step sortedOnA ReportsContainer.Expand)
     = ReportsContainer.rows sortedOnA
  /\ ReportsContainer.sortConfig
       (ReportsContainer.step sortedOnA ReportsContainer.Expand) = None.
Proof.
  split; [|split; [|split]]; try (vm_compute; reflexivity).
  vm_compute. discriminate.
Qed.

Lemma lookup_reconcile blocks mounted index :
  AnswerTables.reconcile blocks mounted !! index
  = match blocks !! index with
    | Some block =>
        if AnswerTables.isTable block
        then Some (default None (mounted !! index))
        else None
    | None => None
    end.
Proof.
  unfold AnswerTables.reconcile.
  rewrite map_lookup_imap, lookup_map_seq_0.
  by destruct (blocks !! index).
Qed.

Lemma rowsAt_render text slot index :
  AnswerTables.rowsAt (AnswerTables.render text slot) index
  = match text with
    | Some a =>
        if truthy a then
          match parseAnswerBlocks a !! index with
          | Some (Table _ rows) => Some rows
          | _ => None
          end
        else None
    | None => None
    end.
Proof.
  unfold AnswerTables.render. destruct text as [a|]; [|done].
  by destruct (truthy a).
Qed.

(** C7, amended: the sort state of a table is changed only by a click
    on one of its column headers, which sets it as [handleSort] says,
    and by the mounting of a new table, which starts unsorted: for a
    report table when the fullscreen overlay is opened or closed or
    when there was no report before, for the table of a block of an
    answer when the renderer is newly on screen or the block of that
    index was no table before.  A change of the rows under a table that
    stays mounted (another tab or new reports; a new text whose block
    of the same index is a table again) leaves the sort state as it is,
    and so does every other event. *)
Theorem sort_state_changes :
  (forall (c : ReportsContainer.container) (e : ReportsContainer.event),
     (forall column,
        e = ReportsContainer.HeaderClick column ->
        ReportsContainer.panelMounted c = true ->
        ReportsContainer.sortConfig (ReportsContainer.step c e)
        = ReportPanel.handleSort (ReportsContainer.sortConfig c) column)
     /\ (ReportsContainer.remounts c e = true ->
         ReportsContainer.sortConfig (ReportsContainer.step c e) = None)
     /\ (ReportsContainer.remounts c e = false ->
         (forall column, e <> ReportsContainer.HeaderClick column) ->
         ReportsContainer.sortConfig (ReportsContainer.step c e)
         = ReportsContainer.sortConfig c)
     /\ (ReportsContainer.sortConfig (ReportsContainer.step c e)
           <> ReportsContainer.sortConfig c ->
         (exists column,
            e = ReportsContainer.HeaderClick column
            /\ ReportsContainer.sortConfig (ReportsContainer.step c e)
               = ReportPanel.handleSort (ReportsContainer.sortConfig c) column)
         \/ (ReportsContainer.remounts c e = true
             /\ ReportsContainer.sortConfig (ReportsContainer.step c e) = None)))
  /\ (forall (slot : option AnswerTables.renderer) (e : AnswerTables.event)
        (index : nat),
        (forall colIdx prev,
           e = AnswerTables.HeaderClick index colIdx ->
           AnswerTables.sortConfigAt slot index = Some prev ->
           AnswerTables.sortConfigAt (AnswerTables.step slot e) index
           = Some (AnswerTable.handleSort prev colIdx))
        /\ (forall text,
              e = AnswerTables.Render text ->
              AnswerTables.sortConfigAt (AnswerTables.step slot e) index
              = match AnswerTables.rowsAt (AnswerTables.step slot e) index with
                | Some _ =>
                    Some (default None (AnswerTables.sortConfigAt slot index))
                | None => None
                end)
        /\ (forall index' colIdx,
              e = AnswerTables.HeaderClick index' colIdx ->
              index' <> index ->
              AnswerTables.sortConfigAt (AnswerTables.step slot e) index
              = AnswerTables.sortConfigAt slot index)
        /\ (AnswerTables.sortConfigAt (AnswerTables.step slot e) index
              <> AnswerTables.sortConfigAt slot index ->
            (exists colIdx prev,
               e = AnswerTables.HeaderClick index colIdx
               /\ AnswerTables.sortConfigAt slot index = Some prev
               /\ AnswerTables.sortConfigAt (AnswerTables.step slot e) index
                  = Some (AnswerTable.handleSort prev colIdx))
            \/ (exists text,
                  e = AnswerTables.Render text
                  /\ AnswerTables.sortConfigAt slot index = None
                  /\ AnswerTables.sortConfigAt (AnswerTables.step slot e) index
                     = Some None)
            \/ (exists text,
                  e = AnswerTables.Render text
                  /\ AnswerTables.rowsAt (AnswerTables.step slot e) index = None
                  /\ AnswerTables.sortConfigAt (AnswerTables.step slot e) index
                     = None))).
Proof.
  split.
  - intros [rs active fs sc] e. split_and!.
    + intros column -> Hm. simpl in *. by rewrite Hm.
    + destruct e as [rs'| i | | | column | ]; simpl; try done.
      * unfold ReportsContainer.panelMounted. simpl.
        destruct rs, rs'; simpl; done.
      * by destruct fs.
      * by destruct fs.
    + intros Hr Hn. destruct e as [rs'| i | | | column | ]; simpl in *.
      * unfold ReportsContainer.panelMounted in Hr. simpl in Hr.
        destruct rs, rs'; simpl in *; done.
      * done.
      * destruct fs; simpl in *; done.
      * destruct fs; simpl in *; done.
      * by destruct (Hn column).
      * done.
    + intros Hne. destruct e as [rs'| i | | | column | ]; simpl in *.
      * right. destruct rs, rs'; simpl in *; try done.
      * done.
      * right. destruct fs; simpl in *; done.
      * right. destruct fs; simpl in *; done.
      * left. exists column. split; [done|].
        unfold ReportsContainer.panelMounted in *. simpl in *.
        destruct rs; simpl in *; done.
      * done.
  - intros slot e index.
    assert (forall text,
              AnswerTables.sortConfigAt (AnswerTables.render text slot) index
              = match AnswerTables.rowsAt (AnswerTables.render text slot) index with
                | Some _ =>
                    Some (default None (AnswerTables.sortConfigAt slot index))
                | None => None
                end) as Hrender.
    { intros text. rewrite rowsAt_render. unfold AnswerTables.render.
      destruct text as [a|]; [|done]. destruct (truthy a); [|done].
      simpl. rewrite lookup_reconcile.
      destruct (parseAnswerBlocks a !! index) as [[]|]; simpl; try done.
      by destruct slot. }
    split_and!.
    + intros colIdx prev -> Hp. destruct slot as [r|]; [|done].
      simpl in *. rewrite Hp. simpl. by rewrite lookup_insert_eq.
    + intros text ->. apply Hrender.
    + intros index' colIdx -> Hne. destruct slot as [r|]; [|done].
      simpl. destruct (AnswerTables.sortConfigs r !! index'); [|done].
      simpl. by rewrite lookup_insert_ne.
    + intros Hne. destruct e as [text|index' colIdx].
      * right. simpl in *. rewrite Hrender in Hne |- *.
        destruct (AnswerTables.rowsAt (AnswerTables.render text slot) index)
          eqn:Hrows.
        -- left. exists text. split; [done|].
           destruct (AnswerTables.sortConfigAt slot index); [done|].
           by split.
        -- right. by exists text.
      * left. destruct (decide (index' = index)) as [->|Hi].
        -- destruct slot as [r|]; [|done]. simpl in *.
           destruct (AnswerTables.sortConfigs r !! index) as [prev|] eqn:Hp;
             [|done].
           exists colIdx, prev. split; [done|]. split; [done|].
           simpl. by rewrite lookup_insert_eq.
        -- destruct slot as [r|]; [|done]. simpl in *.
           destruct (AnswerTables.sortConfigs r !! index'); [|done].
           simpl in Hne. by rewrite lookup_insert_ne in Hne.
Qed.

Lemma sort_state_changes_witness :
  ReportsContainer.sortConfig
    (ReportsContainer.step sortedOnA (ReportsContainer.SelectTab (str "b")))
  = ReportsContainer.sortConfig sortedOnA
  /\ ReportsContainer.sortConfig
       (ReportsContainer.step sortedOnA (ReportsContainer.HeaderClick (str "Sessions")))
     = Some {| ReportPanel.key := str "Sessions"; ReportPanel.direction := desc |}
  /\ AnswerTables.sortConfigAt
       (AnswerTables.step sortedFollowup
          (AnswerTables.Render (Some otherBasisTable))) 0
     = Some (Some {| AnswerTable.colIdx := 0; AnswerTable.direction := asc |}).
Proof.
  split; [|split].
  - destruct (proj1 sort_state_changes sortedOnA
                (ReportsContainer.SelectTab (str "b"))) as (_ & _ & Hkept & _).
    apply Hkept.
    + reflexivity.
    + intros column. discriminate.
  - destruct (proj1 sort_state_changes sortedOnA
                (ReportsContainer.HeaderClick (str "Sessions")))
      as (Hclick & _).
    rewrite (Hclick (str "Sessions") eq_refl eq_refl). reflexivity.
  - destruct (proj2 sort_state_changes sortedFollowup
                (AnswerTables.Render (Some otherBasisTable)) 0%nat)
      as (_ & Hrender & _).
    rewrite (Hrender (Some otherBasisTable) eq_refl).
    vm_compute. reflexivity.
Defined.

(** The basis of an insight answered a second time: other rows under
    the table of block 0, and the sort state set on the first. *)
Example followup_table_keeps_sort :
  AnswerTables.rowsAt sortedFollowup 0
  = Some [[str "2"; str "x"]; [str "1"; str "y"]]
  /\ AnswerTables.rowsAt
       (AnswerTables.step sortedFollowup
          (AnswerTables.Render (Some otherBasisTable))) 0
     = Some [[str "7"; str "z"]]
  /\ AnswerTables.sortConfigAt
       (AnswerTables.step sortedFollowup
          (AnswerTables.Render (Some otherBasisTable))) 0
     = AnswerTables.sortConfigAt sortedFollowup 0
  /\ AnswerTables.sortConfigAt sortedFollowup 0
     = Some (Some {| AnswerTable.colIdx := 0; AnswerTable.direction := asc |}).
Proof. vm_compute. repeat split; reflexivity. Qed.

(** ** Follow-ups and the replacement of the answer *)

Section PageFacts.
Import Page.

Lemma setInsightFollowups_generation i f p :
  generation (setInsightFollowups i f p) = generation p.
Proof.
  unfold setInsightFollowups.
  destruct (insightFollowups p); [|done]. by case_decide.
Qed.

Lemma step_generation p e : (generation p <= generation (step p e))%nat.
Proof.
  destruct e; simpl; try (by rewrite setInsightFollowups_generation).
  - destruct (isAsking p); [done|]. unfold setAnswer. simpl.
    by destruct (insightFollowups p).
  - destruct (isAsking p); [|done]. unfold setAnswer. simpl.
    destruct (insightFollowups p); [done|]. destruct (truthy text); lia.
Qed.

Lemma run_generation events p : (generation p <= generation (run p events))%nat.
Proof.
  unfold run. revert p; induction events as [|e es IH]; intros p; simpl; [done|].
  etransitivity; [apply step_generation|apply IH].
Qed.

Lemma retired_step i p e : retired i p -> retired i (step p e).
Proof.
  intros [Hle Hr]. split.
  { etransitivity; [exact Hle|apply step_generation]. }
  destruct Hr as [Hlt|Hnone].
  { left. eapply Nat.lt_le_trans; [exact Hlt|apply step_generation]. }
  destruct e; simpl; unfold setInsightFollowups; rewrite ?Hnone; auto.
  - destruct (isAsking p); [by right|]. right. unfold setAnswer. simpl. done.
  - destruct (isAsking p); [|by right].
    unfold setAnswer. simpl. rewrite Hnone.
    destruct (truthy text); simpl; [left; lia|by right].
Qed.

Lemma retired_run i events p : retired i p -> retired i (run p events).
Proof.
  unfold run. revert p; induction events as [|e es IH]; intros p H; simpl;
    [done|].
  apply IH. by apply retired_step.
Qed.

Lemma retired_setInsightFollowups i f p :
  retired i p -> setInsightFollowups i f p = p.
Proof.
  intros [_ Hr]. unfold setInsightFollowups.
  destruct (insightFollowups p) as [m|]; [|done].
  destruct Hr as [Hlt|?]; [|done].
  case_decide; [lia|done].
Qed.

(** [handleInsightFollowup] itself does not look at the answer: on a
    renderer that stays mounted while its [answer] changes, a late
    result is written into the map the change had emptied. *)
Lemma late_result_on_kept_renderer :
  step (setAnswer (Some (str "second"))
          (step {| answer := Some (str "first"); isAsking := false;
                   generation := 1; insightFollowups := Some ∅ |}
             (FollowupStart 1 (insightId 0 0) basis_action)))
    (FollowupSuccess 1 (insightId 0 0) basis_action (str "because"))
  = {| answer := Some (str "second"); isAsking := false; generation := 1;
       insightFollowups :=
         Some {[ insightId 0 0 :=
                   {| loading := None; basis := Some (str "because");
                      deepDive := None; error := None |} ]} |}.
Proof. vm_compute. reflexivity. Qed.

End PageFacts.

(** C1: when a follow-up request is started for an insight of the
    answer on the page and the answer is then replaced before the request
    completes, the completion of that request, success or failure,
    changes nothing: the page, and with it the follow-up map the new
    answer started with and whatever was done on it since, is the same
    before and after the late completion, so that no result, error or
    loading flag of the old request is ever shown.  The replacement
    ([handleAsk] or [handleQuickPrompt]) first sets the answer to null,
    which unmounts the renderer the request was started in. *)
Theorem stale_followup_discarded
  (p : Page.page) (m : gmap jsstring InsightFollowupState)
  (id : jsstring) (action : InsightFollowupAction)
  (before after : list Page.event) (completion : Page.event) :
  Page.insightFollowups p = Some m ->
  Page.isAsking
    (Page.run (Page.step p (Page.FollowupStart (Page.generation p) id action))
       before) = false ->
  Page.completes (Page.generation p) id action completion ->
  let replaced :=
    Page.run
      (Page.step
         (Page.run (Page.step p (Page.FollowupStart (Page.generation p) id action))
            before)
         Page.Ask)
      after in
  Page.step replaced completion = replaced
  /\ forall text,
       Page.insightFollowups
         (Page.step
            (Page.step
               (Page.run
                  (Page.step p (Page.FollowupStart (Page.generation p) id action))
                  before)
               Page.Ask)
            (Page.AskSettled text))
       = if truthy text then Some ∅ else None.
Proof.
  intros Hm Hask Hc replaced.
  set (current :=
         Page.run (Page.step p (Page.FollowupStart (Page.generation p) id action))
           before) in *.
  assert (Page.retired (Page.generation p) (Page.step current Page.Ask)) as HR.
  { split.
    - etransitivity; [|apply step_generation]. subst current.
      etransitivity; [|apply run_generation]. apply step_generation.
    - right. simpl. rewrite Hask. reflexivity. }
  split.
  - assert (Page.retired (Page.generation p) replaced) as HR'
      by (by apply retired_run).
    destruct Hc as [[result ->]|[message ->]]; simpl;
      by apply retired_setInsightFollowups.
  - intros text. simpl. rewrite Hask. simpl.
    destruct (truthy text); reflexivity.
Qed.

Lemma stale_followup_discarded_witness :
  Page.step
    (Page.run
       (Page.step
          (Page.run
             (Page.step
                {| Page.answer := Some (str "first"); Page.isAsking := false;
                   Page.generation := 1; Page.insightFollowups := Some ∅ |}
                (Page.FollowupStart 1 (insightId 0 0) basis_action))
             [])
          Page.Ask)
       [Page.AskSettled (str "second");
        Page.FollowupStart 2 (insightId 0 0) deep_dive])
    (Page.FollowupSuccess 1 (insightId 0 0) basis_action (str "because"))
  = {| Page.answer := Some (str "second"); Page.isAsking := false;
       Page.generation := 2;
       Page.insightFollowups :=
         Some {[ insightId 0 0 :=
                   {| loading := Some deep_dive; basis := None;
                      deepDive := None; error := None |} ]} |}.
Proof.
  etransitivity.
  - apply (stale_followup_discarded
             {| Page.answer := Some (str "first"); Page.isAsking := false;
                Page.generation := 1; Page.insightFollowups := Some ∅ |}
             ∅ (insightId 0 0) basis_action []
             [Page.AskSettled (str "second");
              Page.FollowupStart 2 (insightId 0 0) deep_dive]
             (Page.FollowupSuccess 1 (insightId 0 0) basis_action (str "because"))).
    + reflexivity.
    + reflexivity.
    + left. by eexists.
  - vm_compute. reflexivity.
Defined.

(** ** The block parser *)

Section TrimFacts.

Lemma trimEnd_cons c r :
  trimEnd (c :: r) =
  match trimEnd r with
  | [] => if isWhiteSpace c then [] else [c]
  | t => c :: t
  end.
Proof. reflexivity. Qed.

Lemma trimEnd_idem s : trimEnd (trimEnd s) = trimEnd s.
Proof.
  induction s as [|c r IH]; [done|].
  rewrite trimEnd_cons.
  destruct (trimEnd r) as [|x t] eqn:E.
  - destruct (isWhiteSpace c) eqn:Ec; [done|].
    rewrite trimEnd_cons. simpl. by rewrite Ec.
  - rewrite trimEnd_cons, IH. done.
Qed.

Lemma trimStart_trimEnd s : trimStart (trimEnd s) = trimEnd (trimStart s).
Proof.
  induction s as [|c r IH]; [done|].
  rewrite trimEnd_cons. simpl trimStart at 2.
  destruct (isWhiteSpace c) eqn:Ec.
  - destruct (trimEnd r) as [|x t] eqn:E.
    + simpl. rewrite <- IH. done.
    + simpl. rewrite Ec. exact IH.
  - rewrite trimEnd_cons.
    destruct (trimEnd r) as [|x t] eqn:E; simpl; by rewrite Ec.
Qed.

(** [line.trimEnd().trim()] is [line.trim()]: the outer loop and the
    inner loops test the same text. *)
Lemma trim_trimEnd s : trim (trimEnd s) = trim s.
Proof.
  unfold trim. by rewrite trimStart_trimEnd, trimEnd_idem.
Qed.

End TrimFacts.

Section ParserFacts.

Lemma tableRows_spec lines :
  exists taken,
    lines = taken ++ (tableRows lines).2
    /\ (tableRows lines).1 = parseTableRow <$> taken.
Proof.
  induction lines as [|l rest IH]; simpl.
  { by exists []. }
  destruct (truthy (trim l)).
  - destruct IH as (taken & E1 & E2).
    destruct (tableRows rest) as [rows rest']. simpl in *.
    exists (l :: taken). split; [by rewrite E1 at 1|by rewrite E2].
  - by exists [].
Qed.

Lemma tableRows_suffix lines : (tableRows lines).2 `suffix_of` lines.
Proof. destruct (tableRows_spec lines) as (taken & E & _). by exists taken. Qed.

Lemma listItems_suffix lines : (listItems lines).2 `suffix_of` lines.
Proof.
  induction lines as [|l rest IH]; simpl; [done|].
  destruct (_ && _); [done|].
  destruct (listItems rest) as [items rest']. simpl in *.
  by apply suffix_cons_r.
Qed.

Lemma paragraphLines_suffix lines : (paragraphLines lines).2 `suffix_of` lines.
Proof.
  induction lines as [|l rest IH]; simpl; [done|].
  repeat (match goal with |- context [if ?c then _ else _] => destruct c end;
          [done|]).
  destruct (paragraphLines rest) as [ps rest']. simpl in *.
  by apply suffix_cons_r.
Qed.

(** Every iteration consumes [lines[i]]: what it leaves is a suffix of
    the lines after it. *)
Lemma iteration_suffix l rest : (iteration l rest).2 `suffix_of` rest.
Proof.
  unfold iteration. rewrite trim_trimEnd.
  destruct (negb (truthy (trim l))) eqn:Eblank; [done|].
  destruct (startsWith (trim l) (str "##")) eqn:Ehead; [done|].
  destruct (startsTable (trim l) rest) eqn:Etable.
  { pose proof (tableRows_suffix (drop 1 rest)) as H.
    destruct (tableRows (drop 1 rest)) as [rows rest']. simpl in *.
    etransitivity; [exact H|]. apply suffix_drop. }
  destruct (startsList (trim l)) eqn:Elist.
  { pose proof (listItems_suffix rest) as H.
    cbn [listItems]. unfold startsList in Elist.
    apply orb_true_iff in Elist.
    destruct (startsWith (trim l) (str "- "));
      destruct (startsWith (trim l) [bullet]); simpl;
      try (destruct Elist; discriminate);
      destruct (listItems rest) as [items rest']; done. }
  destruct (_ <? _)%nat; [done|].
  pose proof (paragraphLines_suffix rest) as H.
  cbn [paragraphLines]. rewrite Eblank, Ehead, Etable.
  unfold startsList in Elist. apply orb_false_iff in Elist as [-> _].
  destruct (paragraphLines rest) as [ps rest']. done.
Qed.

Lemma parseLines_nil fuel : parseLines fuel [] = Some [].
Proof. by destruct fuel. Qed.

(** The loop ends within as many iterations as there are lines, and
    more fuel does not change what it returns. *)
Lemma parseLines_total n :
  forall lines, (length lines <= n)%nat ->
  exists blocks,
    forall fuel, (length lines <= fuel)%nat -> parseLines fuel lines = Some blocks.
Proof.
  induction n as [|n IH]; intros lines Hn.
  { destruct lines; [|simpl in Hn; lia].
    exists []. intros fuel _. apply parseLines_nil. }
  destruct lines as [|l rest].
  { exists []. intros fuel _. apply parseLines_nil. }
  pose proof (iteration_suffix l rest) as Hs.
  apply suffix_length in Hs. simpl in Hn.
  destruct (IH (iteration l rest).2) as [blocks Hb]; [lia|].
  exists (push (iteration l rest).1 blocks).
  intros fuel Hf. destruct fuel as [|f]; [simpl in Hf; lia|].
  simpl in Hf. cbn [parseLines].
  destruct (iteration l rest) as [block rest']. simpl in *.
  rewrite Hb by lia. done.
Qed.

Lemma parseAnswerBlocks_eq answer fuel :
  (length (splitLines answer) <= fuel)%nat ->
  parseLines fuel (splitLines answer) = Some (parseAnswerBlocks answer).
Proof.
  intros Hf.
  destruct (parseLines_total (length (splitLines answer)) (splitLines answer))
    as [blocks Hb]; [done|].
  unfold parseAnswerBlocks. rewrite (Hb (length (splitLines answer))) by done.
  by apply Hb.
Qed.

(** Every block comes from one iteration at some line of the input. *)
Lemma parseLines_blocks fuel :
  forall lines blocks b,
    parseLines fuel lines = Some blocks -> b ∈ blocks ->
    exists l rest,
      (l :: rest) `suffix_of` lines /\ (iteration l rest).1 = Some b.
Proof.
  induction fuel as [|f IH]; intros lines blocks b Hp Hb.
  { destruct lines; simpl in Hp; [|done].
    injection Hp as <-. by apply elem_of_nil in Hb. }
  destruct lines as [|l rest]; simpl in Hp.
  { injection Hp as <-. by apply elem_of_nil in Hb. }
  pose proof (iteration_suffix l rest) as Hs.
  destruct (iteration l rest) as [block rest'] eqn:Ei. simpl in *.
  destruct (parseLines f rest') as [bs|] eqn:Er; [|done].
  injection Hp as <-.
  assert (b ∈ bs -> exists l0 rest0,
            (l0 :: rest0) `suffix_of` (l :: rest)
            /\ (iteration l0 rest0).1 = Some b) as Htail.
  { intros Hin. destruct (IH rest' bs b Er Hin) as (l0 & rest0 & H1 & H2).
    exists l0, rest0. split; [|done].
    etransitivity; [exact H1|]. by apply suffix_cons_r. }
  destruct block as [b0|]; simpl in Hb; [|by apply Htail].
  apply elem_of_cons in Hb as [->|Hb]; [|by apply Htail].
  exists l, rest. split; [done|]. by rewrite Ei.
Qed.

(** What an iteration that pushes a table has read. *)
Lemma iteration_table l rest headers rows :
  (iteration l rest).1 = Some (Table headers rows) ->
  headers = parseTableRow (trim l)
  /\ includes (trim l) pipe = true
  /\ isTableSeparator (nextTrimmed rest) = true
  /\ exists taken after,
       drop 1 rest = taken ++ after /\ rows = parseTableRow <$> taken.
Proof.
  unfold iteration. rewrite trim_trimEnd.
  destruct (negb (truthy (trim l))); [done|].
  destruct (startsWith (trim l) (str "##")); [done|].
  destruct (startsTable (trim l) rest) eqn:Etable.
  - destruct (tableRows_spec (drop 1 rest)) as (taken & E1 & E2).
    destruct (tableRows (drop 1 rest)) as [rows' rest']. simpl in *.
    intros [= <- <-]. unfold startsTable in Etable.
    apply andb_true_iff in Etable as [? ?].
    repeat split; try done. by exists taken, rest'.
  - destruct (startsList (trim l)).
    { destruct (listItems (l :: rest)). done. }
    destruct (_ <? _)%nat; [done|].
    destruct (paragraphLines (l :: rest)). done.
Qed.

End ParserFacts.

Lemma shownCells_lookup headers row i :
  (i < length headers)%nat ->
  AnswerTable.shownCells headers row !! i = Some (AnswerTable.cell row i).
Proof.
  intros Hi. unfold AnswerTable.shownCells.
  rewrite list_lookup_imap.
  destruct (lookup_lt_is_Some_2 headers i Hi) as [x ->]. done.
Qed.

(** A line that is not blank, starts no heading, table or list and holds
    no bullet glyph opens a paragraph. *)
Lemma iteration_paragraph l rest :
  truthy (trim l) = true ->
  startsWith (trim l) (str "##") = false ->
  startsTable (trim l) rest = false ->
  startsList (trim l) = false ->
  includes (trim l) bullet = false ->
  exists ps,
    (iteration l rest).1 = Some (Paragraph (join (str " ") (trim l :: ps))).
Proof.
  intros Ht Hh Htab Hl Hb. unfold iteration.
  rewrite trim_trimEnd, Ht, Hh, Htab, Hl, Hb. simpl negb. cbn iota.
  change (1 <? length (@nil jsstring))%nat with false. cbn iota.
  cbn [paragraphLines]. rewrite Ht, Hh, Htab. simpl negb. cbn iota.
  unfold startsList in Hl. apply orb_false_iff in Hl as [-> _].
  destruct (paragraphLines rest) as [ps rest']. by exists ps.
Qed.

(** C6: the block parser is a total function: on every text the loop
    ends within as many iterations as the text has lines, each iteration
    consuming at least one line, and returns a sequence of blocks that
    more iterations would not change; nothing in it can fail: every line
    that is not blank yields a block, and a line that is no heading,
    table or list and holds no bullet glyph opens a paragraph. *)
Theorem parseAnswerBlocks_total (answer : jsstring) (extra : nat) :
  parseLines (length (splitLines answer) + extra) (splitLines answer)
  = Some (parseAnswerBlocks answer)
  /\ (forall l rest,
        (length (iteration l rest).2 <= length rest)%nat
        /\ (truthy (trim l) = true -> is_Some (iteration l rest).1)
        /\ (truthy (trim l) = true ->
            startsWith (trim l) (str "##") = false ->
            startsTable (trim l) rest = false ->
            startsList (trim l) = false ->
            includes (trim l) bullet = false ->
            exists ps,
              (iteration l rest).1
              = Some (Paragraph (join (str " ") (trim l :: ps))))).
Proof.
  split.
  - apply parseAnswerBlocks_eq. lia.
  - intros l rest. split; [|split].
    + apply suffix_length, iteration_suffix.
    + intros Ht. unfold iteration. rewrite trim_trimEnd, Ht. simpl.
      repeat match goal with
             | |- context [if ?c then _ else _] => destruct c
             | |- context [let '(_, _) := ?x in _] => destruct x
             end; by eexists.
    + apply iteration_paragraph.
Qed.

Lemma parseAnswerBlocks_total_witness :
  parseLines 7 (splitLines (str "## Insights" ++ nl ++ str "free text"))
  = Some [Heading (str "Insights"); Paragraph (str "free text")]
  /\ is_Some (iteration (str "free text") []).1.
Proof.
  destruct (parseAnswerBlocks_total
              (str "## Insights" ++ nl ++ str "free text") 5) as [H1 H2].
  split.
  - exact H1.
  - apply (proj1 (proj2 (H2 (str "free text") []))). reflexivity.
Defined.

Example parse_raggedTable :
  parseAnswerBlocks raggedTable
  = [Table [str "A"; str "B"] [[str "1"]; [str "1"; str "2"; str "3"]]].
Proof. vm_compute. reflexivity. Qed.

(** C4, as stated, fails: after the header "A|B" and its separator the
    row "1" is stored with its single cell, and the row "1|2|3" with its
    three, under two headers. *)
Lemma table_rows_not_padded :
  exists headers rows row,
    Table headers rows ∈ parseAnswerBlocks raggedTable
    /\ row ∈ rows
    /\ length row <> length headers.
Proof.
  exists [str "A"; str "B"], [[str "1"]; [str "1"; str "2"; str "3"]], [str "1"].
  rewrite parse_raggedTable.
  split; [left|]. split; [left|]. simpl. lia.
Qed.

(** C4, amended: for every text and every table the parser emits, the
    headers are the cells of the header line and every row is the cells
    of one line of the text, as many as that line has between its pipes,
    neither padded nor cut; the table shown for it takes, for each
    header position, the cell of the row at that position or the empty
    string when the row is shorter, so that every shown row has as many
    cells as there are headers. *)
Theorem table_rows_as_parsed (answer : jsstring)
  (headers : list jsstring) (rows : list (list jsstring)) :
  Table headers rows ∈ parseAnswerBlocks answer ->
  (exists line, line ∈ splitLines answer /\ headers = parseTableRow (trim line))
  /\ (forall row, row ∈ rows ->
        exists line, line ∈ splitLines answer /\ row = parseTableRow line)
  /\ (forall row,
        length (AnswerTable.shownCells headers row) = length headers
        /\ forall i, (i < length headers)%nat ->
             AnswerTable.shownCells headers row !! i
             = Some (if (i <? length row)%nat
                     then default [] (row !! i) else [])).
Proof.
  intros Hin.
  pose proof (parseAnswerBlocks_eq answer (length (splitLines answer))
                ltac:(done)) as Hp.
  destruct (parseLines_blocks _ _ _ _ Hp Hin) as (l & rest & Hs & Hi).
  apply iteration_table in Hi as (Hh & _ & _ & taken & after & Hd & Hr).
  destruct Hs as [before Hs].
  split; [|split].
  - exists l. split; [|done]. rewrite Hs.
    apply elem_of_app. right. left.
  - intros row Hrow. subst rows.
    apply list_elem_of_fmap in Hrow as (line & -> & Hline).
    exists line. split; [|done]. rewrite Hs.
    apply elem_of_app. right. right.
    assert (line ∈ drop 1 rest) as Hd'.
    { rewrite Hd. apply elem_of_app. by left. }
    destruct rest; simpl in Hd'; [by apply elem_of_nil in Hd'|by right].
  - intros row. split.
    + unfold AnswerTable.shownCells. by rewrite length_imap.
    + intros i Hi. rewrite shownCells_lookup by done.
      unfold AnswerTable.cell.
      destruct (Nat.ltb_spec i (length row)) as [Hlt|Hge]; [done|].
      by rewrite (lookup_ge_None_2 row i).
Qed.

Lemma table_rows_as_parsed_witness :
  AnswerTable.shownCells [str "A"; str "B"] [str "1"] = [str "1"; []].
Proof.
  pose proof (table_rows_as_parsed raggedTable
    [str "A"; str "B"] [[str "1"]; [str "1"; str "2"; str "3"]]) as H.
  destruct H as (_ & _ & H).
  - rewrite parse_raggedTable. left.
  - destruct (H [str "1"]) as [_ H2].
    apply list_eq. intros [|[|i]].
    + apply (H2 0%nat). simpl. lia.
    + apply (H2 1%nat). simpl. lia.
    + reflexivity.
Defined.

(** C5: a paragraph run stops at a line that starts a list with "- ",
    but not at one that starts with the bullet glyph, although such a
    line starts a list everywhere else in the loop: after "Hello" the
    line "• foo" is taken into the paragraph, where "- foo" is left to
    become a list. *)
Theorem paragraph_takes_bullet_line :
  parseAnswerBlocks (str "Hello" ++ nl ++ [bullet] ++ str " foo")
  = [Paragraph (str "Hello " ++ [bullet] ++ str " foo")]
  /\ parseAnswerBlocks ([bullet] ++ str " foo") = [List [str "foo"]]
  /\ parseAnswerBlocks (str "Hello" ++ nl ++ str "- foo")
     = [Paragraph (str "Hello"); List [str "foo"]].
Proof. vm_compute. repeat split; reflexivity. Qed.

(** ** Integers are computed exactly *)

Section IntegerFacts.

Lemma strip2_shift j p e :
  strip2 (Nat.iter j xO p) e = strip2 p (e + Z.of_nat j).
Proof.
  revert e; induction j as [|j IH]; intros e.
  - simpl. f_equal. lia.
  - simpl. rewrite IH. f_equal. lia.
Qed.

Lemma iter_xO_value j p : Zpos (Nat.iter j xO p) = Zpos p * 2 ^ Z.of_nat j.
Proof.
  induction j as [|j IH]; [simpl; lia|].
  rewrite Nat2Z.inj_succ, Z.pow_succ_r by lia.
  simpl Nat.iter. rewrite Pos2Z.inj_xO, IH. lia.
Qed.

Lemma mk_shift m j e : 0 <= j -> mk (m * 2 ^ j) (e - j) = mk m e.
Proof.
  intros Hj. rewrite <- (Z2Nat.id j) by done.
  destruct m as [|p|p]; [done| |].
  - rewrite <- iter_xO_value. simpl. rewrite strip2_shift.
    replace (e - Z.of_nat (Z.to_nat j) + Z.of_nat (Z.to_nat j)) with e by lia.
    done.
  - replace (Zneg p * 2 ^ Z.of_nat (Z.to_nat j))
      with (- (Zpos p * 2 ^ Z.of_nat (Z.to_nat j))) by lia.
    rewrite <- iter_xO_value. simpl. rewrite strip2_shift.
    replace (e - Z.of_nat (Z.to_nat j) + Z.of_nat (Z.to_nat j)) with e by lia.
    done.
Qed.

Lemma neg_mk m e : neg (mk m e) = mk (- m) e.
Proof. destruct m as [|p|p]; simpl; [done| |]; by destruct (strip2 p e). Qed.

Lemma round_pos_int n : 0 < n < 2 ^ 53 -> round_pos n 1 = mk n 0.
Proof.
  intros [Hn Hn53]. unfold round_pos.
  destruct (Z.eqb_spec n 0); [lia|].
  pose proof (Z.log2_spec n Hn) as [Hl1 Hl2].
  pose proof (Z.log2_nonneg n) as Hl0.
  assert (Z.log2 n < 53) as Hl53 by (apply Z.log2_lt_pow2; lia).
  assert (floor_log2 n 1 = Z.log2 n) as ->.
  { unfold floor_log2. change (Z.log2 1) with 0. rewrite Z.sub_0_r.
    destruct (Z.leb_spec 0 (Z.log2 n)); [|lia].
    destruct (Z.leb_spec (1 * 2 ^ Z.log2 n) n); [done|lia]. }
  cbv zeta.
  rewrite Z.max_l by lia.
  destruct (Z.leb_spec 0 (Z.log2 n - 52)) as [He|He].
  - assert (Z.log2 n - 52 = 0) as -> by lia.
    change (1 * 2 ^ 0) with 1. rewrite Z.div_1_r, Z.mod_1_r.
    change (2 * 0 <? 1) with true. cbv iota.
    change (971 <? 0) with false. change (0 =? 971) with false. done.
  - rewrite Z.div_1_r, Z.mod_1_r.
    change (2 * 0 <? 1) with true. cbv iota.
    destruct (Z.ltb_spec 971 (Z.log2 n - 52)); [lia|].
    destruct (Z.eqb_spec (Z.log2 n - 52) 971); [lia|]. simpl orb. cbv iota.
    replace (Z.log2 n - 52) with (0 - (- (Z.log2 n - 52))) at 2 by lia.
    apply mk_shift. lia.
Qed.

Lemma round_q_int z : - 2 ^ 53 < z < 2 ^ 53 -> round_q z 1 = of_Z z.
Proof.
  intros Hz. unfold round_q, of_Z.
  destruct (Z.ltb_spec z 0).
  - rewrite round_pos_int by lia. rewrite neg_mk. f_equal. lia.
  - destruct (Z.eq_dec z 0) as [->|]; [done|].
    apply round_pos_int. lia.
Qed.

Lemma of_Z_value z :
  exists m e, of_Z z = Fin m e /\ 0 <= e /\ m * 2 ^ e = z.
Proof.
  unfold of_Z, mk. destruct z as [|p|p]; [exists 0, 0; done| |].
  - pose proof (strip2_spec p 0 ltac:(lia)) as [H1 H2].
    destruct (strip2 p 0) as [q e']. simpl in *.
    exists (Zpos q), e'. split; [done|]. split; [done|]. lia.
  - pose proof (strip2_spec p 0 ltac:(lia)) as [H1 H2].
    destruct (strip2 p 0) as [q e']. simpl in *.
    exists (Zneg q), e'. split; [done|]. split; [done|]. lia.
Qed.

Lemma add_int a b :
  - 2 ^ 53 < a + b < 2 ^ 53 -> add (of_Z a) (of_Z b) = of_Z (a + b).
Proof.
  intros Hab.
  destruct (of_Z_value a) as (m1 & e1 & -> & He1 & <-).
  destruct (of_Z_value b) as (m2 & e2 & -> & He2 & <-).
  unfold add, round_dy.
  destruct (Z.leb_spec 0 (Z.min e1 e2)); [|lia].
  rewrite <- round_q_int by done. f_equal.
  rewrite Z.mul_add_distr_r, <- !Z.mul_assoc, <- !Z.pow_add_r by lia.
  f_equal; f_equal; f_equal; lia.
Qed.

Lemma mul_int a b :
  - 2 ^ 53 < a * b < 2 ^ 53 -> mul (of_Z a) (of_Z b) = of_Z (a * b).
Proof.
  intros Hab.
  destruct (of_Z_value a) as (m1 & e1 & -> & He1 & <-).
  destruct (of_Z_value b) as (m2 & e2 & -> & He2 & <-).
  unfold mul, round_dy.
  destruct (Z.leb_spec 0 (e1 + e2)); [|lia].
  rewrite <- round_q_int by done. f_equal.
  rewrite Z.pow_add_r by lia. ring.
Qed.

End IntegerFacts.

(** ** Digit strings and durations *)

Section DigitFacts.

Lemma isDigit_range c : isDigit c = true <-> (48 <= c <= 57)%N.
Proof. unfold isDigit. rewrite andb_true_iff, !N.leb_le. done. Qed.

Lemma isDigit_not_space c : isDigit c = true -> isWhiteSpace c = false.
Proof.
  rewrite isDigit_range. intros Hc.
  apply not_true_is_false. unfold isWhiteSpace.
  rewrite !orb_true_iff, !andb_true_iff, !N.leb_le, !N.eqb_eq. lia.
Qed.

Lemma trimEnd_snoc s c : isWhiteSpace c = false -> trimEnd (s ++ [c]) = s ++ [c].
Proof.
  intros Hc. induction s as [|a s IH].
  - simpl. by rewrite Hc.
  - rewrite <- app_comm_cons, trimEnd_cons, IH. by destruct s.
Qed.

Lemma trimEnd_no_space s :
  Forall (fun c => isWhiteSpace c = false) s -> trimEnd s = s.
Proof.
  intros Hs. induction s as [|a s _] using rev_ind; [done|].
  apply Forall_app in Hs as [_ Hc]. inversion_clear Hc as [|? ? Hc' _].
  by apply trimEnd_snoc.
Qed.

Lemma trim_no_space s :
  Forall (fun c => isWhiteSpace c = false) s -> trim s = s.
Proof.
  intros Hs. unfold trim.
  assert (trimStart s = s) as ->.
  { destruct Hs as [|c r Hc _]; [done|]. simpl. by rewrite Hc. }
  by apply trimEnd_no_space.
Qed.

Lemma spanDigits_spec s :
  s = (spanDigits s).1 ++ (spanDigits s).2
  /\ Forall (fun c => isDigit c = true) (spanDigits s).1.
Proof.
  induction s as [|c r [IH1 IH2]]; [done|]. simpl.
  destruct (isDigit c) eqn:Hc; [|done].
  destruct (spanDigits r) as [ds rest]. simpl in *.
  split; [by f_equal|by constructor].
Qed.

Lemma spanDigits_all ds :
  Forall (fun c => isDigit c = true) ds -> spanDigits ds = (ds, []).
Proof.
  induction 1 as [|c r Hc _ IH]; [done|]. simpl. by rewrite Hc, IH.
Qed.

(** [Number] reads a string of digits as the integer it spells, rounded. *)
Lemma Number_digits ds :
  ds <> [] -> Forall (fun c => isDigit c = true) ds ->
  Number ds = round_q (digitsValue ds) 1.
Proof.
  intros Hne Hds. unfold Number.
  rewrite trim_no_space
    by (eapply Forall_impl; [done|]; apply isDigit_not_space).
  destruct ds as [|c r]; [done|].
  assert (parseUnsignedDecimal (c :: r) = round_q (digitsValue (c :: r)) 1)
    as Hdec.
  { unfold parseUnsignedDecimal.
    destruct (decide (c :: r = str "Infinity")) as [E|_].
    { injection E as -> _. by apply Forall_cons_1 in Hds as [? _]. }
    rewrite (spanDigits_all (c :: r)) by done.
    cbv beta iota zeta. rewrite app_nil_r.
    change (negb (negb (Nat.eqb (length (c :: r)) 0))) with false.
    cbv iota. unfold scaled. simpl Z.of_nat. simpl Z.sub. simpl Z.leb.
    cbv iota. by rewrite Z.mul_1_r. }
  apply Forall_cons_1 in Hds as [Hc Hr]. apply isDigit_range in Hc.
  unfold parseNumeric.
  destruct c as [|p]; [lia|].
  repeat (destruct p as [p|p|]; try lia; try exact Hdec).
  destruct r as [|p' [|x r']]; try exact Hdec.
  apply Forall_cons_1 in Hr as [Hp' _]. apply isDigit_range in Hp'.
  repeat match goal with
  | |- context [(?a =? ?b)%N] => destruct (N.eqb_spec a b); [lia|]
  end.
  exact Hdec.
Qed.

Lemma digitsValue_short ds :
  (length ds <= 2)%nat -> Forall (fun c => isDigit c = true) ds ->
  0 <= digitsValue ds <= 99.
Proof.
  intros Hl Hds. destruct ds as [|a [|b [|]]]; simpl in Hl; try lia.
  - done.
  - apply Forall_cons_1 in Hds as [Ha%isDigit_range _].
    unfold digitsValue. simpl. lia.
  - apply Forall_cons_1 in Hds as [Ha%isDigit_range Hds].
    apply Forall_cons_1 in Hds as [Hb%isDigit_range _].
    unfold digitsValue. simpl. lia.
Qed.

Lemma Number_short ds :
  ds <> [] -> (length ds <= 2)%nat ->
  Forall (fun c => isDigit c = true) ds ->
  Number ds = of_Z (digitsValue ds).
Proof.
  intros Hne Hl Hds. rewrite Number_digits by done.
  pose proof (digitsValue_short ds Hl Hds).
  apply round_q_int. lia.
Qed.

Lemma isNaN_of_Z z : isNaN (of_Z z) = false.
Proof. by destruct (of_Z_value z) as (m & e & -> & _). Qed.

Lemma matchDuration_spec s g1 g2 g3 :
  matchDuration s = Some (g1, g2, g3) ->
  (g1 <> [] /\ (length g1 <= 2)%nat /\ Forall (fun c => isDigit c = true) g1)
  /\ (length g2 = 2%nat /\ Forall (fun c => isDigit c = true) g2)
  /\ (forall g, g3 = Some g ->
        length g = 2%nat /\ Forall (fun c => isDigit c = true) g)
  /\ s = g1 ++ [58%N] ++ g2
         ++ match g3 with Some g => 58%N :: g | None => [] end.
Proof.
  unfold matchDuration.
  pose proof (spanDigits_spec s) as [Es Hh].
  destruct (spanDigits s) as [h rest]. simpl in Es, Hh.
  destruct rest as [|c [|m1 [|m2 rest]]]; [done|..].
  all: destruct (decide (c = 58%N)) as [->|Hc58];
    [cbv iota; try done
    |intros Hm; exfalso; destruct c as [|p]; [done|];
     do 6 (try (destruct p as [p|p|]; try done)); by destruct Hc58].
  destruct (Nat.leb 1 (length h) && Nat.leb (length h) 2 && isDigit m1
            && isDigit m2) eqn:Hc; [|done].
  repeat (apply andb_prop in Hc as [Hc ?]).
  apply Nat.leb_le in Hc.
  assert (h <> []) by (intros ->; simpl in Hc; lia).
  assert ((length h <= 2)%nat) by by apply Nat.leb_le.
  destruct rest as [|c' rest].
  - intros [= <- <- <-]. split_and!; try done.
    + by repeat constructor.
  - destruct rest as [|s1 [|s2 [|]]].
    all: destruct (decide (c' = 58%N)) as [->|Hc58];
      [cbv iota; try done
      |intros Hm; exfalso; destruct c' as [|p]; [done|];
       do 6 (try (destruct p as [p|p|]; try done)); by destruct Hc58].
    destruct (isDigit s1 && isDigit s2) eqn:Hs; [|done].
    apply andb_prop in Hs as [? ?].
    intros [= <- <- <-]. split_and!; try done.
    + by repeat constructor.
    + intros g [= <-]. split; [done|]. by repeat constructor.
Qed.

Lemma parseDurationToSeconds_value raw :
  parseDurationToSeconds raw =
  match matchDuration (trim raw) with
  | Some (hours, minutes, seconds) =>
      Some (of_Z (3600 * digitsValue hours + 60 * digitsValue minutes
                  + from_option digitsValue 0 seconds))
  | None => None
  end
  /\ forall d, parseDurationToSeconds raw = Some d ->
       exists n, d = of_Z n /\ 0 <= n <= 362439.
Proof.
  unfold parseDurationToSeconds.
  destruct (matchDuration (trim raw)) as [[[g1 g2] g3]|] eqn:Hm; [|done].
  apply matchDuration_spec in Hm as ((N1 & L1 & D1) & (L2 & D2) & H3 & _).
  assert (g2 <> []) as N2 by (by destruct g2).
  rewrite (Number_short g1), (Number_short g2) by (done || lia).
  pose proof (digitsValue_short g1 L1 D1).
  pose proof (digitsValue_short g2 ltac:(lia) D2).
  assert (exists s, match g3 with Some g => Number g | None => of_Z 0 end
                    = of_Z s
                    /\ s = from_option digitsValue 0 g3 /\ 0 <= s <= 99)
    as (s & -> & Es & Hs).
  { destruct g3 as [g|]; [|by exists 0].
    destruct (H3 g eq_refl) as [L3 D3].
    exists (digitsValue g). rewrite Number_short by (done || lia || by destruct g).
    split; [done|]. split; [done|]. apply digitsValue_short; [lia|done]. }
  simpl existsb. rewrite !isNaN_of_Z. simpl orb. cbv iota.
  rewrite !mul_int by lia. rewrite !add_int by lia.
  rewrite <- Es. split.
  - do 2 f_equal. lia.
  - intros d [= <-]. eexists. split; [done|]. lia.
Qed.

End DigitFacts.

(** X1: a text of the form H:MM or H:MM:SS is always read, as the exact
    number of seconds [3600 * H + 60 * MM + SS]: no part is checked
    against a range, and nothing is rounded. *)
Theorem parseDurationToSeconds_exact (raw : jsstring) :
  parseDurationToSeconds raw =
  match matchDuration (trim raw) with
  | Some (hours, minutes, seconds) =>
      Some (of_Z (3600 * digitsValue hours + 60 * digitsValue minutes
                  + from_option digitsValue 0 seconds))
  | None => None
  end
  /\ forall duration, parseDurationToSeconds raw = Some duration ->
       parseAnswerNumber raw = Some duration
       /\ exists n, duration = of_Z n /\ 0 <= n <= 362439.
Proof.
  destruct (parseDurationToSeconds_value raw) as [E B].
  split; [exact E|]. intros d Hd. split; [|by apply B].
  unfold parseAnswerNumber. rewrite Hd.
  destruct raw; [|done].
  by vm_compute in Hd.
Qed.

Lemma parseDurationToSeconds_exact_witness :
  parseAnswerNumber (str " 1:75 ") = Some (of_Z 8100).
Proof.
  apply (proj2 (parseDurationToSeconds_exact (str " 1:75 "))).
  vm_compute. reflexivity.
Defined.

(** ** The bars of the answer tables *)

Section BarFacts.

Import JsMath AnswerBars.

Lemma gtb_scaled m1 e1 m2 e2 E :
  E <= e1 -> E <= e2 ->
  gtb (Fin m1 e1) (Fin m2 e2) = (m2 * 2 ^ (e2 - E) <? m1 * 2 ^ (e1 - E)).
Proof.
  intros H1 H2. unfold gtb. set (e := Z.min e1 e2).
  assert (E <= e) by lia.
  replace (e1 - E) with ((e1 - e) + (e - E)) by lia.
  replace (e2 - E) with ((e2 - e) + (e - E)) by lia.
  rewrite !Z.pow_add_r by lia.
  assert (0 < 2 ^ (e - E)) by (apply Z.pow_pos_nonneg; lia).
  destruct (Z.ltb_spec (m2 * 2 ^ (e2 - e)) (m1 * 2 ^ (e1 - e)));
    destruct (Z.ltb_spec (m2 * (2 ^ (e2 - e) * 2 ^ (e - E)))
                         (m1 * (2 ^ (e1 - e) * 2 ^ (e - E))));
    try done; nia.
Qed.

(** [x <= y < z] gives [x <= z]. *)
Lemma gtb_le_lt x y z :
  gtb x y = false -> gtb z y = true -> gtb x z = false.
Proof.
  destruct x as [|a|m1 e1], y as [|b|m2 e2], z as [|c|m3 e3];
    try done.
  all: try (simpl; intros;
              repeat match goal with x : bool |- _ => destruct x end;
              simpl in *; congruence).
  set (E := Z.min e1 (Z.min e2 e3)).
  rewrite (gtb_scaled m1 e1 m2 e2 E), (gtb_scaled m3 e3 m2 e2 E),
    (gtb_scaled m1 e1 m3 e3 E) by lia.
  rewrite !Z.ltb_ge, Z.ltb_lt. lia.
Qed.

Lemma gtb_irrefl x : gtb x x = false.
Proof.
  destruct x as [|a|m e]; [done|by destruct a|].
  simpl. apply Z.ltb_irrefl.
Qed.

Lemma parseAnswerNumber_finite raw value :
  parseAnswerNumber raw = Some value -> isFinite value = true.
Proof.
  unfold parseAnswerNumber. destruct (negb (truthy raw)); [done|].
  destruct (parseDurationToSeconds raw) as [d|] eqn:Hd.
  - intros [= <-].
    destruct (proj2 (parseDurationToSeconds_value raw) d Hd)
      as (n & -> & _).
    by destruct (of_Z_value n) as (m & e & -> & _).
  - match goal with |- context [isFinite ?x] => destruct (isFinite x) eqn:E end;
      [|done].
    by intros [= <-].
Qed.

Lemma columnMax_loop colIdx rows :
  forall seen max,
    maxOf colIdx seen max ->
    maxOf colIdx (seen ++ rows)
      (fold_left
         (fun max row =>
            match parseAnswerNumber (AnswerTable.cell row colIdx) with
            | Some value => if gtb value max then value else max
            | None => max
            end) rows max).
Proof.
  induction rows as [|row rows IH]; intros seen max Hmax.
  - by rewrite app_nil_r.
  - simpl. replace (seen ++ row :: rows) with ((seen ++ [row]) ++ rows)
      by by rewrite <- app_assoc.
    apply IH. destruct Hmax as (Hfin & Hpos & Hle & Hat).
    destruct (parseAnswerNumber (AnswerTable.cell row colIdx)) as [v|] eqn:Hv.
    + destruct (gtb v max) eqn:Hg.
      * split_and!.
        -- by eapply parseAnswerNumber_finite.
        -- by eapply gtb_le_lt.
        -- intros r w [Hr|Hr%list_elem_of_singleton]%elem_of_app Hw.
           ++ eapply gtb_le_lt; [by eapply Hle|done].
           ++ subst r. rewrite Hv in Hw. injection Hw as <-.
              apply gtb_irrefl.
        -- right. exists row. split; [|done].
           apply elem_of_app. right. by apply list_elem_of_singleton.
      * split_and!; [done..| |].
        -- intros r w [Hr|Hr%list_elem_of_singleton]%elem_of_app Hw.
           ++ by eapply Hle.
           ++ subst r. rewrite Hv in Hw. by injection Hw as <-.
        -- destruct Hat as [?|(r & Hr & ?)]; [by left|right].
           exists r. split; [|done]. apply elem_of_app. by left.
    + split_and!; [done..| |].
      * intros r w [Hr|Hr%list_elem_of_singleton]%elem_of_app Hw.
        -- by eapply Hle.
        -- subst r. by rewrite Hv in Hw.
      * destruct Hat as [?|(r & Hr & ?)]; [by left|right].
        exists r. split; [|done]. apply elem_of_app. by left.
Qed.

Lemma columnMax_maxOf rows colIdx : maxOf colIdx rows (columnMax rows colIdx).
Proof.
  apply (columnMax_loop colIdx rows [] (of_Z 0)).
  split_and!; [done..| |by left].
  intros r w Hr. by apply elem_of_nil in Hr.
Qed.

Lemma round_pos_not_NaN n d : isNaN (round_pos n d) = false.
Proof.
  unfold round_pos. destruct (n =? 0); [done|]. cbv zeta.
  match goal with |- context [if ?c then Inf false else mk ?m ?e] =>
    destruct c; [done|]; destruct m as [|p|p]; simpl; [done| |];
    by destruct (strip2 p e)
  end.
Qed.

Lemma round_q_not_NaN n d : isNaN (round_q n d) = false.
Proof.
  unfold round_q. destruct (n <? 0); [|apply round_pos_not_NaN].
  pose proof (round_pos_not_NaN (- n) d). by destruct (round_pos (- n) d).
Qed.

Lemma round_pos_same n : 0 < n -> round_pos n n = Fin 1 0.
Proof.
  intros Hn. unfold round_pos. destruct (Z.eqb_spec n 0); [lia|].
  assert (floor_log2 n n = 0) as ->.
  { unfold floor_log2. rewrite Z.sub_diag. simpl. rewrite Z.mul_1_r.
    by rewrite Z.leb_refl. }
  cbv zeta. change (Z.max (0 - 52) (-1074)) with (-52).
  change (0 <=? -52) with false. cbv iota.
  change (- -52) with 52.
  rewrite (Z.mul_comm n), Z.div_mul, Z.mod_mul by lia.
  destruct (Z.ltb_spec (2 * 0) n); [|lia]. done.
Qed.

Lemma div_same m e : 0 < m -> div (Fin m e) (Fin m e) = Fin 1 0.
Proof.
  intros Hm. unfold div. destruct (Z.eqb_spec m 0); [lia|].
  rewrite Z.min_id, Z.sub_diag. cbv zeta. rewrite Z.mul_1_r.
  destruct (Z.ltb_spec m 0); [lia|].
  unfold round_q. destruct (Z.ltb_spec m 0); [lia|].
  by apply round_pos_same.
Qed.

End BarFacts.

(** X2: the column maximum of an answer table is finite and not below
    zero, no numeric cell of the column exceeds it, and it is zero or the
    value of one of the column's cells. *)
Theorem columnMax_spec (rows : list (list jsstring)) (colIdx : nat) :
  let max := AnswerBars.columnMax rows colIdx in
  isFinite max = true
  /\ JsMath.gtb (of_Z 0) max = false
  /\ (forall row value, row ∈ rows ->
        parseAnswerNumber (AnswerTable.cell row colIdx) = Some value ->
        JsMath.gtb value max = false)
  /\ (max = of_Z 0
      \/ exists row, row ∈ rows
           /\ parseAnswerNumber (AnswerTable.cell row colIdx) = Some max)
  /\ forall headers, (colIdx < length headers)%nat ->
       AnswerBars.columnMaxes headers rows !! colIdx = Some max.
Proof.
  destruct (columnMax_maxOf rows colIdx) as (H1 & H2 & H3 & H4).
  split_and!; try done.
  intros headers Hi. unfold AnswerBars.columnMaxes.
  rewrite list_lookup_imap.
  destruct (lookup_lt_is_Some_2 headers colIdx Hi) as [h ->]. done.
Qed.

Lemma columnMax_spec_witness :
  JsMath.gtb (of_Z 37)
    (AnswerBars.columnMax [[str "a"; str "37%"]; [str "b"; str "1:02:03"]] 1)
  = false.
Proof.
  destruct (columnMax_spec [[str "a"; str "37%"]; [str "b"; str "1:02:03"]] 1)
    as (_ & _ & H & _).
  apply (H [str "a"; str "37%"] (of_Z 37)).
  - left.
  - vm_compute. reflexivity.
Defined.

(** X3: the fill of a bar is a number, never above 1; it is 0 for a cell
    that is not numeric or under a column maximum of 0, and 1 for the
    cell that holds a positive column maximum. *)
Theorem ratio_bounds (value : jsstring) (maxValue : number) :
  isFinite maxValue = true ->
  let r := AnswerBars.ratio value maxValue in
  isNaN r = false
  /\ JsMath.gtb r (of_Z 1) = false
  /\ (AnswerBars.showBar value = false -> r = of_Z 0)
  /\ (JsMath.gtb maxValue (of_Z 0) = false -> r = of_Z 0)
  /\ (parseAnswerNumber value = Some maxValue ->
      JsMath.gtb maxValue (of_Z 0) = true -> r = of_Z 1).
Proof.
  intros Hfin r. subst r. unfold AnswerBars.ratio, AnswerBars.showBar.
  destruct maxValue as [| |m2 e2]; try done.
  destruct (parseAnswerNumber value) as [v|] eqn:Hv.
  2:{ split_and!; try done. }
  pose proof (parseAnswerNumber_finite _ _ Hv) as Hvf.
  destruct v as [| |m1 e1]; try done.
  destruct (JsMath.gtb (Fin m2 e2) (of_Z 0)) eqn:Hpos.
  2:{ split_and!; done. }
  assert (0 < m2) as Hm2.
  { change (of_Z 0) with (Fin 0 0) in Hpos.
    rewrite (gtb_scaled m2 e2 0 0 (Z.min e2 0)) in Hpos by lia.
    apply Z.ltb_lt in Hpos.
    assert (0 < 2 ^ (e2 - Z.min e2 0)) by (apply Z.pow_pos_nonneg; lia).
    nia. }
  assert (isNaN (JsMath.div (Fin m1 e1) (Fin m2 e2)) = false) as Hq.
  { unfold JsMath.div. destruct (Z.eqb_spec m2 0); [lia|]. cbv zeta.
    match goal with |- context [if ?c then _ else _] => destruct c end;
      apply round_q_not_NaN. }
  split_and!.
  - unfold JsMath.min. rewrite Hq. change (isNaN (of_Z 1)) with false.
    simpl orb. cbv iota.
    by destruct (JsMath.gtb (JsMath.div (Fin m1 e1) (Fin m2 e2)) (of_Z 1)).
  - unfold JsMath.min. rewrite Hq. change (isNaN (of_Z 1)) with false.
    simpl orb. cbv iota.
    destruct (JsMath.gtb (JsMath.div (Fin m1 e1) (Fin m2 e2)) (of_Z 1)) eqn:Hg;
      [done|exact Hg].
  - intros Hb%bool_decide_eq_false. by destruct Hb.
  - done.
  - intros [= -> ->] _. by rewrite div_same.
Qed.

Lemma ratio_bounds_witness :
  isNaN (AnswerBars.ratio (str "50%") (of_Z 200)) = false.
Proof. exact (proj1 (ratio_bounds (str "50%") (of_Z 200) eq_refl)). Defined.

(** ** Sorted views of a column of numbers *)

Section NumericViewFacts.
Context {T : Type} (cellOf : T -> value) (d : SortDirection).

Lemma withIndex_indices (rows : list T) :
  (withIndex rows).*2 = seq 0 (length rows).
Proof.
  apply list_eq. intros i.
  rewrite list_lookup_fmap, withIndex_lookup.
  destruct (rows !! i) as [row|] eqn:E; simpl.
  - symmetry. apply lookup_seq. split; [done|]. by eapply lookup_lt_Some.
  - symmetry. apply lookup_seq_ge. by apply lookup_ge_None.
Qed.

Lemma withIndex_NoDup (rows : list T) : NoDup (withIndex rows).
Proof.
  apply (NoDup_fmap_1 snd). rewrite withIndex_indices. apply NoDup_seq.
Qed.

Lemma numeric_le (x y : T * nat) :
  numericCell (cellOf x.1) = true -> numericCell (cellOf y.1) = true ->
  le (viewComparator cellOf d) x y <->
  match d with
  | asc => cellUnits (cellOf x.1) <= cellUnits (cellOf y.1)
  | desc => cellUnits (cellOf y.1) <= cellUnits (cellOf x.1)
  end
  /\ (cellUnits (cellOf x.1) = cellUnits (cellOf y.1) -> (x.2 <= y.2)%nat).
Proof.
  intros Hx Hy. unfold le. rewrite viewComparator_numeric by done.
  destruct d;
    repeat match goal with
           | |- context [(?a <? ?b)%nat] => destruct (Nat.ltb_spec a b)
           | |- context [?a <? ?b] => destruct (Z.ltb_spec a b)
           | |- context [?a =? ?b] => destruct (Z.eqb_spec a b)
           end; simpl; split; try done; try lia.
Qed.

Lemma numeric_view_sorted (rows : list T) :
  Forall (fun row => numericCell (cellOf row) = true) rows ->
  StronglySorted (le (viewComparator cellOf d))
    (sortedWithIndex (viewComparator cellOf d) rows).
Proof.
  intros Hnum. unfold sortedWithIndex.
  apply (sort_sorted _ (withIndex rows)); [|done].
  apply viewComparator_consistent.
  by apply (withIndex_Forall (fun row => numericCell (cellOf row) = true)).
Qed.

Lemma numeric_view_order (rows : list T) p q x i y j :
  Forall (fun row => numericCell (cellOf row) = true) rows ->
  (p < q)%nat ->
  sortedWithIndex (viewComparator cellOf d) rows !! p = Some (x, i) ->
  sortedWithIndex (viewComparator cellOf d) rows !! q = Some (y, j) ->
  match d with
  | asc => cellUnits (cellOf x) < cellUnits (cellOf y)
  | desc => cellUnits (cellOf y) < cellUnits (cellOf x)
  end
  \/ (cellUnits (cellOf x) = cellUnits (cellOf y) /\ (i < j)%nat).
Proof.
  intros Hnum Hpq Hp Hq.
  pose proof (numeric_view_sorted rows Hnum) as Hs.
  assert (forall z k, (z, k) ∈ sortedWithIndex (viewComparator cellOf d) rows ->
            rows !! k = Some z) as Hin.
  { intros z k Hz. rewrite sortedWithIndex_perm in Hz.
    by apply elem_of_withIndex. }
  assert (rows !! i = Some x) as Hx
    by (apply Hin; by eapply list_elem_of_lookup_2).
  assert (rows !! j = Some y) as Hy
    by (apply Hin; by eapply list_elem_of_lookup_2).
  rewrite Forall_forall in Hnum.
  assert (numericCell (cellOf x) = true) as Nx
    by (apply Hnum; by eapply list_elem_of_lookup_2).
  assert (numericCell (cellOf y) = true) as Ny
    by (apply Hnum; by eapply list_elem_of_lookup_2).
  assert (le (viewComparator cellOf d) (x, i) (y, j)) as Hle.
  { exact (sorted_lookup _ _ p q _ _ Hs Hpq Hp Hq). }
  apply numeric_le in Hle as [H1 H2]; [|done..]. simpl in H1, H2.
  assert (i <> j) as Hij.
  { intros ->. rewrite Hx in Hy. injection Hy as ->.
    assert (NoDup (sortedWithIndex (viewComparator cellOf d) rows)) as Hnd.
    { rewrite sortedWithIndex_perm. apply withIndex_NoDup. }
    pose proof (NoDup_lookup _ p q _ Hnd Hp Hq). lia. }
  destruct d; lia.
Qed.

Lemma numeric_view_unique (rows : list T) (other : list (T * nat)) :
  Forall (fun row => numericCell (cellOf row) = true) rows ->
  other ≡ₚ withIndex rows ->
  StronglySorted (le (viewComparator cellOf d)) other ->
  other = sortedWithIndex (viewComparator cellOf d) rows.
Proof.
  intros Hnum Hperm Hsorted.
  apply (StronglySorted_unique_strong (le (viewComparator cellOf d)));
    [|done|by apply numeric_view_sorted|by rewrite sortedWithIndex_perm].
  intros [x i] [y j] Hx Hy Hxy Hyx.
  rewrite Hperm in Hx. rewrite sortedWithIndex_perm in Hy.
  apply elem_of_withIndex in Hx, Hy.
  rewrite Forall_forall in Hnum.
  assert (numericCell (cellOf x) = true) as Nx
    by (apply Hnum; by eapply list_elem_of_lookup_2).
  assert (numericCell (cellOf y) = true) as Ny
    by (apply Hnum; by eapply list_elem_of_lookup_2).
  apply numeric_le in Hxy as [H1 H2]; [|done..].
  apply numeric_le in Hyx as [H3 H4]; [|done..]. simpl in *.
  assert (i = j) as -> by (destruct d; lia).
  rewrite Hx in Hy. by injection Hy as ->.
Qed.

End NumericViewFacts.

(** X4: on a column whose cells all read as finite numbers, the sorted
    view of a report table and of an answer table lists the rows by
    value, rising or falling with the direction, and rows of equal value
    by their original position. *)
Theorem numeric_column_order :
  (forall rows c p q x i y j,
     Forall (fun row =>
               numericCell (ReportPanel.get row (ReportPanel.key c)) = true)
       rows ->
     (p < q)%nat ->
     ReportPanel.sortedWithIndex rows c !! p = Some (x, i) ->
     ReportPanel.sortedWithIndex rows c !! q = Some (y, j) ->
     let ux := cellUnits (ReportPanel.get x (ReportPanel.key c)) in
     let uy := cellUnits (ReportPanel.get y (ReportPanel.key c)) in
     match ReportPanel.direction c with
     | asc => ux < uy
     | desc => uy < ux
     end
     \/ (ux = uy /\ (i < j)%nat))
  /\ (forall rows c p q x i y j,
        Forall (fun row =>
                  numericCell
                    (VString (AnswerTable.cell row (AnswerTable.colIdx c)))
                  = true)
          rows ->
        (p < q)%nat ->
        AnswerTable.sortedWithIndex rows c !! p = Some (x, i) ->
        AnswerTable.sortedWithIndex rows c !! q = Some (y, j) ->
        let ux := cellUnits (VString (AnswerTable.cell x (AnswerTable.colIdx c))) in
        let uy := cellUnits (VString (AnswerTable.cell y (AnswerTable.colIdx c))) in
        match AnswerTable.direction c with
        | asc => ux < uy
        | desc => uy < ux
        end
        \/ (ux = uy /\ (i < j)%nat)).
Proof.
  split.
  - intros rows c p q x i y j Hnum Hpq Hp Hq.
    exact (numeric_view_order
             (fun row => ReportPanel.get row (ReportPanel.key c))
             (ReportPanel.direction c) rows p q x i y j Hnum Hpq Hp Hq).
  - intros rows c p q x i y j Hnum Hpq Hp Hq.
    exact (numeric_view_order
             (fun row => VString (AnswerTable.cell row (AnswerTable.colIdx c)))
             (AnswerTable.direction c) rows p q x i y j Hnum Hpq Hp Hq).
Qed.

Lemma numeric_column_order_witness :
  cellUnits (VString (str "20")) < cellUnits (VString (str "1,000"))
  \/ (cellUnits (VString (str "1,000")) = cellUnits (VString (str "20"))
      /\ (1 < 0)%nat).
Proof.
  apply (proj2 numeric_column_order
           [[str "20"]; [str "1,000"]; [str "3"]]
           {| AnswerTable.colIdx := 0; AnswerTable.direction := desc |}
           0%nat 1%nat [str "1,000"] 1%nat [str "20"] 0%nat).
  - repeat constructor.
  - lia.
  - vm_compute. reflexivity.
  - vm_compute. reflexivity.
Defined.

(** X5: on such a column the comparator leaves one arrangement only in
    which no row stands after a row it has to precede, so the sorted view
    does not depend on the sorting procedure of the engine. *)
Theorem numeric_column_unique :
  (forall rows c other,
     Forall (fun row =>
               numericCell (ReportPanel.get row (ReportPanel.key c)) = true)
       rows ->
     other ≡ₚ withIndex rows ->
     StronglySorted (le (ReportPanel.comparator c)) other ->
     other = ReportPanel.sortedWithIndex rows c)
  /\ (forall rows c other,
        Forall (fun row =>
                  numericCell
                    (VString (AnswerTable.cell row (AnswerTable.colIdx c)))
                  = true)
          rows ->
        other ≡ₚ withIndex rows ->
        StronglySorted (le (AnswerTable.comparator c)) other ->
        other = AnswerTable.sortedWithIndex rows c).
Proof.
  split.
  - intros rows c other Hnum Hperm Hs.
    exact (numeric_view_unique
             (fun row => ReportPanel.get row (ReportPanel.key c))
             (ReportPanel.direction c) rows other Hnum Hperm Hs).
  - intros rows c other Hnum Hperm Hs.
    exact (numeric_view_unique
             (fun row => VString (AnswerTable.cell row (AnswerTable.colIdx c)))
             (AnswerTable.direction c) rows other Hnum Hperm Hs).
Qed.

Lemma numeric_column_unique_witness :
  [([str "3"], 2%nat); ([str "20"], 0%nat); ([str "1,000"], 1%nat)]
  = AnswerTable.sortedWithIndex [[str "20"]; [str "1,000"]; [str "3"]]
      {| AnswerTable.colIdx := 0; AnswerTable.direction := asc |}.
Proof.
  apply (proj2 numeric_column_unique).
  - repeat constructor.
  - vm_compute.
    etrans; [apply perm_swap|apply perm_skip, perm_swap].
  - repeat constructor.
Defined.

(** ** The ranker on a column of numbers, and the highlights *)

Section RankingFacts.
Import ReportPanel Ranker.

Lemma neg_sign s :
  isNaN (neg s) = isNaN s /\ ltb0 (neg s) = gtb0 s.
Proof.
  destruct s as [|a|m e]; simpl; [done|done|]. split; [done|].
  destruct (Z.ltb_spec (- m) 0); destruct (Z.ltb_spec 0 m); try done; lia.
Qed.

Lemma rankOrder_numeric d (a b : RankedRow) :
  numericCell (rawValue a) = true -> numericCell (rawValue b) = true ->
  before (rankOrder d) a b =
    match d with
    | asc => cellUnits (rawValue a) <? cellUnits (rawValue b)
    | desc => cellUnits (rawValue b) <? cellUnits (rawValue a)
    end.
Proof.
  unfold numericCell, cellUnits. intros Ha Hb.
  destruct (parseMaybeNumber (rawValue a)) as [[| |m1 e1]|] eqn:Ea; try done.
  destruct (parseMaybeNumber (rawValue b)) as [[| |m2 e2]|] eqn:Eb; try done.
  apply Z.leb_le in Ha, Hb.
  pose proof (compareValues_both_numbers _ _ _ _ Ea Eb) as Hc.
  destruct (sub_sign m1 e1 m2 e2 Ha Hb) as (_ & Hn & Hlt & _ & Hgt).
  unfold before, order, rankOrder. rewrite Hc.
  destruct d.
  - rewrite Hn. cbv iota. done.
  - destruct (neg_sign (sub (Fin m1 e1) (Fin m2 e2))) as [E1 E2].
    rewrite E1, Hn. cbv iota. by rewrite E2.
Qed.

Lemma rankOrder_consistent d (U : list RankedRow) :
  Forall (fun r => numericCell (rawValue r) = true) U ->
  consistent (rankOrder d) U.
Proof.
  rewrite Forall_forall. intros HU. split.
  - intros x y Hx Hy. rewrite !rankOrder_numeric by auto.
    destruct d;
      repeat match goal with
             | |- context [?a <? ?b] => destruct (Z.ltb_spec a b)
             end; simpl; try done; try lia.
  - unfold le. intros x y z Hx Hy Hz.
    rewrite !rankOrder_numeric by auto.
    destruct d;
      repeat match goal with
             | |- context [?a <? ?b] => destruct (Z.ltb_spec a b)
             end; simpl; try done; try lia.
Qed.

Lemma buildRankedRows_from data pageKey valueKey direction limit excludeZero
  shown :
  shown ∈ buildRankedRows data pageKey valueKey direction limit excludeZero ->
  exists r, r ∈ candidates data pageKey valueKey excludeZero
            /\ shown = project r.
Proof.
  unfold buildRankedRows. rewrite list_elem_of_In, in_map_iff.
  intros (r & <- & Hr). exists r. split; [|done].
  apply list_elem_of_In in Hr.
  change (r ∈ take limit (sort (rankOrder direction)
                            (candidates data pageKey valueKey excludeZero)))
    in Hr.
  apply (subseteq_take limit) in Hr.
  by rewrite sort_perm in Hr.
Qed.

Lemma buildRankedRows_length data pageKey valueKey direction limit excludeZero :
  (length (buildRankedRows data pageKey valueKey direction limit excludeZero)
   <= limit)%nat.
Proof.
  unfold buildRankedRows. rewrite List.length_map, length_take. lia.
Qed.

End RankingFacts.

(** X6: when every row reads as a finite number under the value key,
    the ranker shows the first [limit] of its candidates arranged by
    value, rising for "asc", falling for "desc": no candidate left out
    ranks before one that is shown. *)
Theorem ranked_rows_in_order (data : list ReportPanel.ReportRow)
  (pageKey valueKey : jsstring) (direction : SortDirection) (limit : nat)
  (excludeZero : bool) :
  Forall (fun row => numericCell (ReportPanel.get row valueKey) = true) data ->
  exists ranked,
    ranked ≡ₚ Ranker.candidates data pageKey valueKey excludeZero
    /\ Ranker.buildRankedRows data pageKey valueKey direction limit excludeZero
       = Ranker.project <$> take limit ranked
    /\ forall p q a b,
         (p < q)%nat -> ranked !! p = Some a -> ranked !! q = Some b ->
         match direction with
         | asc => cellUnits (Ranker.rawValue a) <= cellUnits (Ranker.rawValue b)
         | desc => cellUnits (Ranker.rawValue b) <= cellUnits (Ranker.rawValue a)
         end.
Proof.
  intros Hnum.
  set (cands := Ranker.candidates data pageKey valueKey excludeZero).
  assert (Forall (fun r => numericCell (Ranker.rawValue r) = true) cands)
    as Hc.
  { rewrite Forall_forall in Hnum. apply Forall_forall. intros r Hr.
    apply elem_of_candidates in Hr as ((row & Hrow & ->) & _).
    simpl. by apply Hnum. }
  exists (sort (Ranker.rankOrder direction) cands).
  split; [apply sort_perm|]. split; [done|].
  intros p q a b Hpq Hp Hq.
  pose proof (sort_sorted (Ranker.rankOrder direction) cands
                (rankOrder_consistent direction cands Hc) cands
                ltac:(done)) as Hs.
  pose proof (sorted_lookup _ _ p q a b Hs Hpq Hp Hq) as Hle.
  unfold le in Hle.
  rewrite Forall_forall in Hc.
  rewrite rankOrder_numeric in Hle.
  - destruct direction; apply Z.ltb_ge in Hle; lia.
  - apply Hc. rewrite <- (sort_perm (Ranker.rankOrder direction) cands).
    by eapply list_elem_of_lookup_2.
  - apply Hc. rewrite <- (sort_perm (Ranker.rankOrder direction) cands).
    by eapply list_elem_of_lookup_2.
Qed.

Lemma ranked_rows_in_order_witness :
  exists ranked,
    Ranker.buildRankedRows
      [rowOf [(str "Page", VString (str "/a")); (str "Revenue", VString (str "20"))];
       rowOf [(str "Page", VString (str "/b")); (str "Revenue", VString (str "1,000"))];
       rowOf [(str "Page", VString (str "/c")); (str "Revenue", VNumber (of_Z 3))]]
      (str "Page") (str "Revenue") desc 2 false
    = Ranker.project <$> take 2 ranked.
Proof.
  destruct (ranked_rows_in_order
    [rowOf [(str "Page", VString (str "/a")); (str "Revenue", VString (str "20"))];
     rowOf [(str "Page", VString (str "/b")); (str "Revenue", VString (str "1,000"))];
     rowOf [(str "Page", VString (str "/c")); (str "Revenue", VNumber (of_Z 3))]]
    (str "Page") (str "Revenue") desc 2 false) as (ranked & _ & H & _).
  - repeat constructor.
  - by exists ranked.
Defined.

Lemma find_hasKey first cs key :
  (List.find (LandingPage.hasKey first) cs = Some key <->
   exists earlier later,
     cs = earlier ++ key :: later /\ is_Some (first !! key)
     /\ forall k, k ∈ earlier -> first !! k = None)
  /\ (List.find (LandingPage.hasKey first) cs = None <->
      forall k, k ∈ cs -> first !! k = None).
Proof.
  induction cs as [|c cs [IH1 IH2]].
  - split; split; try done.
    + intros (earlier & later & E & _). by destruct earlier.
    + intros _ k Hk. by apply elem_of_nil in Hk.
  - simpl. unfold LandingPage.hasKey at 1 3.
    destruct (decide (is_Some (first !! c))) as [Hc|Hc].
    + rewrite bool_decide_eq_true_2 by done. split; split.
      * intros [= ->]. exists [], cs. split; [done|]. split; [done|].
        intros k Hk. by apply elem_of_nil in Hk.
      * intros (earlier & later & E & Hk & Hno).
        destruct earlier as [|e earlier]; simpl in E.
        -- by injection E as ->.
        -- injection E as -> _. rewrite (Hno e) in Hc by left.
           by destruct Hc.
      * done.
      * intros Hno. rewrite (Hno c) in Hc by left. by destruct Hc.
    + rewrite bool_decide_eq_false_2 by done.
      assert (first !! c = None) as Hn
        by (destruct (first !! c); [by destruct Hc|done]).
      split; split.
      * intros (earlier & later & -> & Hk & Hno)%IH1.
        exists (c :: earlier), later. split; [done|]. split; [done|].
        intros k [->|Hk']%elem_of_cons; [done|by apply Hno].
      * intros (earlier & later & E & Hk & Hno).
        destruct earlier as [|e earlier]; simpl in E.
        -- injection E as -> _. rewrite Hn in Hk. by destruct Hk.
        -- injection E as -> ->. apply IH1. exists earlier, later.
           split; [done|]. split; [done|]. intros k Hk'. apply Hno. by right.
      * intros Hno k [->|Hk]%elem_of_cons; [done|].
        by apply (proj1 IH2 Hno).
      * intros Hno. apply IH2. intros k Hk. apply Hno. by right.
Qed.

(** X7: [pickFirstKey] looks at the first row only and returns the
    earliest candidate that is one of its keys; it returns nothing when
    there is no row or no candidate is a key of the first row. *)
Theorem pickFirstKey_spec (rows : list ReportPanel.ReportRow)
  (candidates : list jsstring) (key : jsstring) :
  (LandingPage.pickFirstKey rows candidates = Some key <->
   exists first rest earlier later,
     rows = first :: rest
     /\ candidates = earlier ++ key :: later
     /\ is_Some (first !! key)
     /\ forall k, k ∈ earlier -> first !! k = None)
  /\ (LandingPage.pickFirstKey rows candidates = None <->
      forall first, head rows = Some first ->
        forall k, k ∈ candidates -> first !! k = None).
Proof.
  unfold LandingPage.pickFirstKey. destruct rows as [|first rest].
  { split; split; try done.
    by intros (? & ? & ? & ? & ? & _). }
  destruct (find_hasKey first candidates key) as [H1 H2]. split.
  - rewrite H1. split.
    + intros (earlier & later & ? & ? & ?). by exists first, rest, earlier, later.
    + intros (f & r & earlier & later & [= <- <-] & ? & ? & ?).
      by exists earlier, later.
  - rewrite H2. split.
    + by intros Hno f [= <-].
    + intros Hno. by apply Hno.
Qed.

Lemma pickFirstKey_spec_witness :
  LandingPage.pickFirstKey
    [rowOf [(str "page", VString (str "/a")); (str "Page", VString (str "/b"))];
     rowOf [(str "Landing Page", VString (str "/c"))]]
    LandingPage.pageCandidates
  = Some (str "Page").
Proof.
  apply (proj1 (pickFirstKey_spec _ _ _)).
  eexists _, _, [str "Landing Page"; str "landingPage"], [str "page"].
  split; [reflexivity|]. split; [reflexivity|]. split.
  - vm_compute. eauto.
  - intros k Hk. apply list_elem_of_In in Hk.
    destruct Hk as [<-|[<-|[]]]; vm_compute; reflexivity.
Defined.

(** X8: whatever the report, the highlights are four blocks of at most
    five rows; every row shown comes from a row of the report whose page
    label is not blank, read under candidate keys of the first row, and
    a "Bottom" block shows no row whose value the comparator reads as the
    number zero. *)
Theorem highlights_blocks (report : ReportsContainer.ReportPayload)
  (blocks : list LandingPage.LandingMetricBlock) :
  LandingPage.LandingPageHighlights (Some report) = LandingPage.Highlights blocks ->
  length blocks = 4%nat
  /\ forall k block, blocks !! k = Some block ->
       (length (LandingPage.rows block) <= 5)%nat
       /\ forall shown, shown ∈ LandingPage.rows block ->
            exists row pageKey valueKey,
              row ∈ ReportsContainer.data report
              /\ pageKey ∈ LandingPage.pageCandidates
              /\ valueKey ∈ LandingPage.revenueCandidates
                             ++ LandingPage.revenuePerSessionCandidates
              /\ shown = Ranker.project (Ranker.toRanked pageKey valueKey row)
              /\ trim shown.1 <> []
              /\ ((2 <= k)%nat ->
                  forall n,
                    parseMaybeNumber (ReportPanel.get row valueKey) = Some n ->
                    eqb0 n = false).
Proof.
  unfold LandingPage.LandingPageHighlights.
  destruct (ReportsContainer.data report) as [|first rest] eqn:Hdata; [done|].
  unfold LandingPage.pickFirstKey.
  destruct (List.find (LandingPage.hasKey first) LandingPage.pageCandidates)
    as [pageKey|] eqn:Hpage; [|done].
  destruct (List.find (LandingPage.hasKey first) LandingPage.revenueCandidates)
    as [revenueKey|] eqn:Hrev; [|done].
  destruct (List.find (LandingPage.hasKey first)
              LandingPage.revenuePerSessionCandidates)
    as [rpsKey|] eqn:Hrps; [|done].
  destruct (truthy pageKey && truthy revenueKey && truthy rpsKey); [|done].
  intros [= <-]. split; [done|].
  assert (forall cs key, List.find (LandingPage.hasKey first) cs = Some key ->
            key ∈ cs) as Hin.
  { intros cs key (earlier & later & -> & _)%find_hasKey.
    apply elem_of_app. right. left. }
  apply Hin in Hpage, Hrev, Hrps.
  assert (forall valueKey direction excludeZero shown,
            shown ∈ Ranker.buildRankedRows (first :: rest) pageKey valueKey
                      direction 5 excludeZero ->
            exists row,
              row ∈ first :: rest
              /\ shown = Ranker.project (Ranker.toRanked pageKey valueKey row)
              /\ trim shown.1 <> []
              /\ (excludeZero = true ->
                  forall n,
                    parseMaybeNumber (ReportPanel.get row valueKey) = Some n ->
                    eqb0 n = false)) as Hrows.
  { intros valueKey direction excludeZero shown Hs.
    apply buildRankedRows_from in Hs as (r & Hr & ->).
    apply elem_of_candidates in Hr as ((row & Hrow & ->) & Hl & Hz).
    exists row. split; [done|]. split; [done|]. split.
    - unfold Ranker.hasLabel in Hl. apply Nat.ltb_lt in Hl.
      simpl in *. intros E. rewrite E in Hl. simpl in Hl. lia.
    - intros -> n Hn. unfold Ranker.passesZero in Hz. simpl in Hz.
      rewrite Hn in Hz. by apply negb_true_iff in Hz. }
  intros k block Hk.
  assert (forall title valueKey direction excludeZero,
            valueKey ∈ LandingPage.revenueCandidates
                        ++ LandingPage.revenuePerSessionCandidates ->
            ((2 <= k)%nat -> excludeZero = true) ->
            block = {| LandingPage.title := title;
                       LandingPage.rows :=
                         Ranker.buildRankedRows (first :: rest) pageKey
                           valueKey direction 5 excludeZero |} ->
            (length (LandingPage.rows block) <= 5)%nat
            /\ forall shown, shown ∈ LandingPage.rows block ->
                 exists row pageKey valueKey,
                   row ∈ first :: rest
                   /\ pageKey ∈ LandingPage.pageCandidates
                   /\ valueKey ∈ LandingPage.revenueCandidates
                                  ++ LandingPage.revenuePerSessionCandidates
                   /\ shown = Ranker.project
                                (Ranker.toRanked pageKey valueKey row)
                   /\ trim shown.1 <> []
                   /\ ((2 <= k)%nat ->
                       forall n,
                         parseMaybeNumber (ReportPanel.get row valueKey)
                         = Some n ->
                         eqb0 n = false)) as Hcase.
  { intros title valueKey direction excludeZero Hv Hk2 ->.
    cbn [LandingPage.rows]. split; [apply buildRankedRows_length|].
    intros shown Hs. apply Hrows in Hs as (row & ? & ? & ? & Hz).
    exists row, pageKey, valueKey. split_and!; try done.
    intros Hk'. by apply Hz, Hk2. }
  destruct k as [|[|[|[|k]]]]; simpl in Hk; try done; injection Hk as <-.
  - eapply Hcase; [|lia|done]. apply elem_of_app. by left.
  - eapply Hcase; [|lia|done]. apply elem_of_app. by right.
  - eapply Hcase; [|done|done]. apply elem_of_app. by left.
  - eapply Hcase; [|done|done]. apply elem_of_app. by right.
Qed.

Lemma highlights_blocks_witness :
  length
    (LandingPage.blocksOf
       [rowOf [(str "Page", VString (str "/a"));
               (str "Revenue", VNumber (of_Z 0));
               (str "Revenue per Session", VString (str "0.5"))]]
       (str "Page") (str "Revenue") (str "Revenue per Session")) = 4%nat.
Proof.
  apply (highlights_blocks
    {| ReportsContainer.id := str "landing_pages";
       ReportsContainer.name := str "Landing pages";
       ReportsContainer.description := [];
       ReportsContainer.data :=
         [rowOf [(str "Page", VString (str "/a"));
                 (str "Revenue", VNumber (of_Z 0));
                 (str "Revenue per Session", VString (str "0.5"))]] |}).
  vm_compute. reflexivity.
Defined.

(** ** File names and the export to CSV *)

Section ExportFacts.
Import ReportPanel ExportCsv.

Lemma filenameUnit_not_space c : filenameUnit c = true -> isWhiteSpace c = false.
Proof.
  unfold filenameUnit.
  rewrite !orb_true_iff, !andb_true_iff, !N.leb_le, !N.eqb_eq. intros Hc.
  apply not_true_is_false. unfold isWhiteSpace.
  rewrite !orb_true_iff, !andb_true_iff, !N.leb_le, !N.eqb_eq. lia.
Qed.

Lemma underscoreRuns_no_space s :
  Forall (fun c => isWhiteSpace c = false) s -> underscoreRuns false s = s.
Proof.
  induction 1 as [|c r Hc _ IH]; [done|]. simpl. by rewrite Hc, IH.
Qed.

Lemma sanitizeFilenamePart_units value :
  Forall (fun c => filenameUnit c = true) (sanitizeFilenamePart value).
Proof.
  unfold sanitizeFilenamePart. apply Forall_forall. intros c Hc.
  apply list_elem_of_In, filter_In in Hc. tauto.
Qed.

Lemma sanitizeFilenamePart_fixed s :
  Forall (fun c => filenameUnit c = true) s -> sanitizeFilenamePart s = s.
Proof.
  intros Hs. unfold sanitizeFilenamePart.
  assert (Forall (fun c => isWhiteSpace c = false) s) as Hw
    by (eapply Forall_impl; [done|]; apply filenameUnit_not_space).
  rewrite trim_no_space, underscoreRuns_no_space by done.
  induction Hs as [|c r Hc _ IH]; [done|]. simpl. rewrite Hc. f_equal.
  apply IH. by inversion Hw.
Qed.

Lemma startsWith_app p s : startsWith (p ++ s) p = true.
Proof.
  induction p as [|a p IH]; [by destruct s|]. simpl.
  rewrite N.eqb_refl. exact IH.
Qed.

Lemma endsWith_app s p : endsWith (s ++ p) p = true.
Proof. unfold endsWith. rewrite rev_app_distr. apply startsWith_app. Qed.

Lemma downloadName_fixed filename :
  endsWith filename (str ".csv") = true -> downloadName filename = filename.
Proof. unfold downloadName. by intros ->. Qed.

(** A quote, a comma, a line feed or a carriage return. *)
Lemma needsQuotes_false s :
  needsQuotes s = false <->
  Forall (fun c => c <> 34%N /\ c <> 44%N /\ c <> 10%N /\ c <> 13%N) s.
Proof.
  unfold needsQuotes. induction s as [|c r IH]; simpl.
  - split; [constructor|done].
  - rewrite orb_false_iff, IH, Forall_cons.
    repeat match goal with
    | |- context [(?a =? ?b)%N] => destruct (N.eqb_spec a b)
    end; simpl; split; intros [? ?]; try done; split; try done; tauto.
Qed.

Lemma doubleQuotes_plain s : needsQuotes s = false -> doubleQuotes s = s.
Proof.
  rewrite needsQuotes_false.
  induction 1 as [|c r (Hc & _) _ IH]; [done|].
  unfold doubleQuotes in *. simpl.
  destruct (N.eqb_spec c 34); [done|]. simpl. by f_equal.
Qed.

Lemma readQuoted_doubleQuotes s rest cur :
  head rest <> Some 34%N ->
  readQuoted (doubleQuotes s ++ 34%N :: rest) cur = Some (rev cur ++ s, rest).
Proof.
  intros Hrest. revert cur. induction s as [|c s IH]; intros cur.
  - simpl. rewrite app_nil_r. destruct rest as [|d r]; [done|].
    destruct (N.eqb_spec d 34) as [->|]; [done|done].
  - unfold doubleQuotes. simpl. fold (doubleQuotes s).
    destruct (N.eqb_spec c 34) as [->|Hc].
    + simpl. rewrite IH. simpl. by rewrite <- app_assoc.
    + simpl. destruct (N.eqb_spec c 34); [done|].
      rewrite IH. simpl. by rewrite <- app_assoc.
Qed.

(** What may follow a field: nothing, a comma or a carriage return. *)
Lemma readPlain_app s rest cur :
  needsQuotes s = false ->
  (rest = [] \/ exists r, rest = 44%N :: r \/ rest = 13%N :: r) ->
  readPlain (s ++ rest) cur = (rev cur ++ s, rest).
Proof.
  rewrite needsQuotes_false. intros Hs Hrest. revert cur.
  induction Hs as [|c s (H1 & H2 & H3 & H4) _ IH]; intros cur.
  - simpl. rewrite app_nil_r.
    destruct Hrest as [->|(r & [->| ->])]; done.
  - simpl.
    destruct (N.eqb_spec c 44); [done|].
    destruct (N.eqb_spec c 10); [done|].
    destruct (N.eqb_spec c 13); [done|]. simpl.
    rewrite IH. simpl. by rewrite <- app_assoc.
Qed.

Lemma readField_escapeValue v rest :
  (rest = [] \/ exists r, rest = 44%N :: r \/ rest = 13%N :: r) ->
  readField (escapeValue v ++ rest) = Some (stringValue v, rest).
Proof.
  intros Hrest. unfold escapeValue.
  destruct (needsQuotes (stringValue v)) eqn:Hq.
  - simpl. rewrite <- app_assoc. simpl.
    apply (readQuoted_doubleQuotes _ _ []).
    destruct Hrest as [->|(r & [->| ->])]; done.
  - rewrite doubleQuotes_plain by done.
    assert (readField (stringValue v ++ rest)
            = Some (readPlain (stringValue v ++ rest) [])) as ->.
    { pose proof (proj1 (needsQuotes_false _) Hq) as Hs.
      destruct (stringValue v) as [|c s]; simpl.
      - destruct Hrest as [->|(r & [->| ->])]; done.
      - apply Forall_cons_1 in Hs as [(Hc & _) _].
        unfold readField.
        destruct c as [|p]; [done|].
        do 6 (try (destruct p as [p|p|]; try done)). }
    by rewrite readPlain_app.
Qed.

(** Two lines of as many fields, each followed by the end of the text
    or by a line break, are equal only when their fields are. *)
Lemma fields_inj (vs1 vs2 : list value) rest1 rest2 :
  vs1 <> [] -> length vs1 = length vs2 ->
  (rest1 = [] \/ exists r, rest1 = 13%N :: r) ->
  (rest2 = [] \/ exists r, rest2 = 13%N :: r) ->
  join (str ",") (escapeValue <$> vs1) ++ rest1
  = join (str ",") (escapeValue <$> vs2) ++ rest2 ->
  stringValue <$> vs1 = stringValue <$> vs2 /\ rest1 = rest2.
Proof.
  intros Hne. revert vs2.
  induction vs1 as [|a vs1 IH]; intros vs2 Hlen H1 H2 E; [done|].
  destruct vs2 as [|b vs2]; [done|]. simpl in Hlen.
  assert (forall rest, (rest = [] \/ exists r, rest = 13%N :: r) ->
            rest = [] \/ exists r, rest = 44%N :: r \/ rest = 13%N :: r) as Hw.
  { intros rest [->|(r & ->)]; [by left|right; eauto]. }
  destruct vs1 as [|a' vs1], vs2 as [|b' vs2]; try done.
  - simpl in E.
    pose proof (readField_escapeValue a rest1 (Hw _ H1)) as R1.
    pose proof (readField_escapeValue b rest2 (Hw _ H2)) as R2.
    rewrite E, R2 in R1. injection R1 as Eab Er.
    split; [simpl; by rewrite Eab|done].
  - change (join (str ",") (escapeValue <$> a :: a' :: vs1))
      with (escapeValue a ++ str "," ++ join (str ",") (escapeValue <$> a' :: vs1))
      in E.
    change (join (str ",") (escapeValue <$> b :: b' :: vs2))
      with (escapeValue b ++ str "," ++ join (str ",") (escapeValue <$> b' :: vs2))
      in E.
    rewrite <- !app_assoc in E.
    pose proof (readField_escapeValue a
      (str "," ++ join (str ",") (escapeValue <$> a' :: vs1) ++ rest1)
      ltac:(right; eexists; left; reflexivity)) as R1.
    pose proof (readField_escapeValue b
      (str "," ++ join (str ",") (escapeValue <$> b' :: vs2) ++ rest2)
      ltac:(right; eexists; left; reflexivity)) as R2.
    rewrite E, R2 in R1. injection R1 as Eab Erest.
    destruct (IH ltac:(done) (b' :: vs2) ltac:(simpl in *; lia) H1 H2)
      as [Ev Er]; [by symmetry|].
    split; [|done]. simpl. simpl in Ev. by rewrite Eab, Ev.
Qed.

Lemma join_singleton sep (p : jsstring) : join sep [p] = p.
Proof. done. Qed.

Lemma join_cons sep (p q : jsstring) ps :
  join sep (p :: q :: ps) = p ++ sep ++ join sep (q :: ps).
Proof. done. Qed.

Lemma lines_inj (headers : list jsstring) (d1 d2 : list ReportRow) :
  headers <> [] -> d1 <> [] -> d2 <> [] ->
  join [13%N; 10%N] (line headers <$> d1)
  = join [13%N; 10%N] (line headers <$> d2) ->
  (fun row => (fun header => stringValue (get row header)) <$> headers) <$> d1
  = (fun row => (fun header => stringValue (get row header)) <$> headers) <$> d2.
Proof.
  intros Hh. revert d2.
  assert (forall row, line headers row
            = join (str ",") (escapeValue <$> (get row <$> headers))) as Hline.
  { intros row. unfold line. f_equal.
    by rewrite <- list_fmap_compose. }
  assert (forall row, get row <$> headers <> []) as Hne
    by (intros row; by destruct headers).
  assert (forall row : ReportRow,
            stringValue <$> (get row <$> headers)
            = (fun header => stringValue (get row header)) <$> headers) as Hsv
    by (intros row; by rewrite <- list_fmap_compose).
  assert (forall rest : jsstring, [13%N; 10%N] ++ rest = []
            \/ exists r, [13%N; 10%N] ++ rest = 13%N :: r) as Hcr
    by (intros rest; right; by eexists).
  induction d1 as [|r1 d1 IH]; intros d2 N1 N2 E; [done|].
  destruct d2 as [|r2 d2]; [done|].
  rewrite !fmap_cons in *.
  destruct d1 as [|r1' d1], d2 as [|r2' d2]; rewrite ?fmap_cons in *;
    rewrite ?fmap_nil, ?join_singleton, ?join_cons, !Hline in E.
  - destruct (fields_inj (get r1 <$> headers) (get r2 <$> headers) [] [])
      as [Ev _]; [done|by rewrite !length_fmap|by left|by left| |].
    + by rewrite !app_nil_r.
    + rewrite !fmap_nil. by rewrite <- !Hsv, Ev.
  - exfalso.
    destruct (fields_inj (get r1 <$> headers) (get r2 <$> headers) []
                ([13%N; 10%N] ++ join [13%N; 10%N]
                   (line headers r2' :: (line headers <$> d2))))
      as [_ Er]; [done|by rewrite !length_fmap|by left|apply Hcr| |done].
    rewrite app_nil_r. by rewrite !Hline.
  - exfalso.
    destruct (fields_inj (get r1 <$> headers) (get r2 <$> headers)
                ([13%N; 10%N] ++ join [13%N; 10%N]
                   (line headers r1' :: (line headers <$> d1)))
                [])
      as [_ Er]; [done|by rewrite !length_fmap|apply Hcr|by left| |done].
    rewrite app_nil_r. by rewrite !Hline.
  - destruct (fields_inj (get r1 <$> headers) (get r2 <$> headers)
                ([13%N; 10%N] ++ join [13%N; 10%N]
                   (line headers r1' :: (line headers <$> d1)))
                ([13%N; 10%N] ++ join [13%N; 10%N]
                   (line headers r2' :: (line headers <$> d2))))
      as [Ev Er];
      [done|by rewrite !length_fmap|apply Hcr|apply Hcr|by rewrite !Hline|].
    apply app_inv_head in Er.
    specialize (IH (r2' :: d2) ltac:(done) ltac:(done)).
    rewrite !fmap_cons in IH. rewrite (IH Er).
    by rewrite <- !Hsv, Ev.
Qed.

End ExportFacts.

(** X9: a sanitized file name part holds letters, digits, underscores
    and hyphens only, and sanitizing it again changes nothing. *)
Theorem sanitizeFilenamePart_safe (value : jsstring) :
  Forall (fun c => ExportCsv.filenameUnit c = true)
    (ExportCsv.sanitizeFilenamePart value)
  /\ ExportCsv.sanitizeFilenamePart (ExportCsv.sanitizeFilenamePart value)
     = ExportCsv.sanitizeFilenamePart value.
Proof.
  split; [apply sanitizeFilenamePart_units|].
  apply sanitizeFilenamePart_fixed, sanitizeFilenamePart_units.
Qed.

Lemma escapeValue_inj a b :
  ExportCsv.escapeValue a = ExportCsv.escapeValue b ->
  ExportCsv.stringValue a = ExportCsv.stringValue b.
Proof.
  intros E.
  pose proof (readField_escapeValue a [] ltac:(by left)) as Ra.
  pose proof (readField_escapeValue b [] ltac:(by left)) as Rb.
  rewrite E, Rb in Ra. by injection Ra as ->.
Qed.

(** X10: the export loses nothing of the cells.  Two cells with
    different texts never give the same field, whatever quotes, commas
    and line breaks the texts hold; and two tables with the same columns
    that export to the same file have the same texts in all their
    cells. *)
Theorem csvContent_faithful (ownKeys : ReportPanel.ReportRow -> list jsstring) :
  (forall a b,
     ExportCsv.escapeValue a = ExportCsv.escapeValue b ->
     ExportCsv.stringValue a = ExportCsv.stringValue b)
  /\ forall d1 d2,
       ownKeys (List.hd ∅ d1) = ownKeys (List.hd ∅ d2) ->
       ownKeys (List.hd ∅ d1) <> [] ->
       ExportCsv.csvContent ownKeys d1 = ExportCsv.csvContent ownKeys d2 ->
       (fun row =>
          (fun header => ExportCsv.stringValue (ReportPanel.get row header))
            <$> ownKeys (List.hd ∅ d1)) <$> d1
       = (fun row =>
            (fun header => ExportCsv.stringValue (ReportPanel.get row header))
              <$> ownKeys (List.hd ∅ d1)) <$> d2.
Proof.
  split; [apply escapeValue_inj|].
  intros d1 d2 Hkeys Hne. unfold ExportCsv.csvContent, ExportCsv.lines.
  rewrite <- Hkeys. set (headers := ownKeys (List.hd ∅ d1)) in *.
  intros [= E].
  destruct d1 as [|r1 d1], d2 as [|r2 d2]; [done| | |];
    rewrite ?fmap_cons, ?fmap_nil, ?join_singleton, ?join_cons in E.
  - exfalso. apply (f_equal length) in E.
    rewrite !length_app in E. simpl in E. lia.
  - exfalso. apply (f_equal length) in E.
    rewrite !length_app in E. simpl in E. lia.
  - apply app_inv_head in E. injection E as E.
    apply lines_inj; [done..|]. by rewrite !fmap_cons.
Qed.

Lemma csvContent_faithful_witness :
  (fun row =>
     (fun header => ExportCsv.stringValue (ReportPanel.get row header))
       <$> [str "a"; str "b"])
    <$> [rowOf [(str "a", VString (str "x,y")); (str "b", VNull)]]
  = (fun row =>
       (fun header => ExportCsv.stringValue (ReportPanel.get row header))
         <$> [str "a"; str "b"])
      <$> [rowOf [(str "a", VString (str "x,y")); (str "b", VNull)]].
Proof.
  apply (proj2 (csvContent_faithful (fun _ => [str "a"; str "b"]))
           [rowOf [(str "a", VString (str "x,y")); (str "b", VNull)]]
           [rowOf [(str "a", VString (str "x,y")); (str "b", VNull)]]).
  - reflexivity.
  - done.
  - reflexivity.
Defined.

(** X11: the name of the downloaded file always ends in ".csv", and a
    name that already does is taken as it is. *)
Theorem downloadName_csv (filename : jsstring) :
  endsWith (ExportCsv.downloadName filename) (str ".csv") = true
  /\ ExportCsv.downloadName (ExportCsv.downloadName filename)
     = ExportCsv.downloadName filename.
Proof.
  assert (endsWith (ExportCsv.downloadName filename) (str ".csv") = true) as H.
  { unfold ExportCsv.downloadName.
    destruct (endsWith filename (str ".csv")) eqn:E; [done|].
    apply endsWith_app. }
  split; [done|]. by apply downloadName_fixed.
Qed.

(** X12: the export of the report on screen happens only when a tab is
    active and the report has rows and columns; the file then holds the
    rows of that report and is named after the project, the sanitized
    report name and the date, with one ".csv" at the end. *)
Theorem handleExportActiveReport_spec
  (ownKeys : ReportPanel.ReportRow -> list jsstring)
  (c : ReportsContainer.container) (dateStamp filename content : jsstring) :
  ExportCsv.handleExportActiveReport ownKeys c dateStamp
  = Some (filename, content) ->
  exists report,
    ReportsContainer.activeReport c = Some report
    /\ ReportsContainer.activeReportId c <> None
    /\ ReportsContainer.data report <> []
    /\ ownKeys (List.hd ∅ (ReportsContainer.data report)) <> []
    /\ filename
       = str "ga4-ai-dashboard_"
         ++ ExportCsv.sanitizeFilenamePart (ReportsContainer.name report)
         ++ str "_" ++ dateStamp ++ str ".csv"
    /\ content = ExportCsv.csvContent ownKeys (ReportsContainer.data report).
Proof.
  unfold ExportCsv.handleExportActiveReport.
  destruct (ReportsContainer.activeReportId c) as [i|]; [|done].
  destruct (ReportsContainer.activeReport c) as [report|]; [|done].
  destruct (negb (truthy i)); [done|].
  destruct (ReportsContainer.data report) as [|first rest] eqn:Hd; [done|].
  unfold ExportCsv.exportToCSV.
  destruct (Nat.eqb (length (ownKeys first)) 0) eqn:Hk; [done|].
  intros H. apply (inj Some), pair_equal_spec in H as [<- <-].
  exists report. split_and!; try done.
  - by rewrite Hd.
  - rewrite Hd. simpl. intros E. by rewrite E in Hk.
  - rewrite downloadName_fixed.
    + change (ExportCsv.sanitizeFilenamePart (str "ga4-ai-dashboard"))
        with (str "ga4-ai-dashboard").
      reflexivity.
    + rewrite !app_assoc. apply endsWith_app.
  - by rewrite Hd.
Qed.

Lemma handleExportActiveReport_spec_witness :
  exists report,
    ReportsContainer.activeReport sortedOnA = Some report
    /\ ReportsContainer.activeReportId sortedOnA <> None
    /\ ReportsContainer.data report <> []
    /\ (fun _ : ReportPanel.ReportRow => [str "Sessions"])
         (List.hd ∅ (ReportsContainer.data report)) <> []
    /\ str "ga4-ai-dashboard_A_2024-05-01.csv"
       = str "ga4-ai-dashboard_"
         ++ ExportCsv.sanitizeFilenamePart (ReportsContainer.name report)
         ++ str "_" ++ str "2024-05-01" ++ str ".csv"
    /\ [65279; 83; 101; 115; 115; 105; 111; 110; 115; 13; 10; 51]%N
       = ExportCsv.csvContent (fun _ => [str "Sessions"])
           (ReportsContainer.data report).
Proof.
  apply (handleExportActiveReport_spec (fun _ => [str "Sessions"]) sortedOnA
           (str "2024-05-01")).
  vm_compute. reflexivity.
Defined.

(** ** The blocks of an answer *)

Section BlockFacts.

Lemma trimStart_idem s : trimStart (trimStart s) = trimStart s.
Proof.
  induction s as [|c r IH]; [done|]. simpl.
  destruct (isWhiteSpace c) eqn:Ec; [done|]. simpl. by rewrite Ec.
Qed.

Lemma trim_idem s : trim (trim s) = trim s.
Proof.
  unfold trim. by rewrite trimStart_trimEnd, trimStart_idem, trimEnd_idem.
Qed.

Lemma trimEnd_tail c r : trimEnd (c :: r) = c :: r -> trimEnd r = r.
Proof.
  rewrite trimEnd_cons. destruct (trimEnd r) as [|x t] eqn:E.
  - destruct (isWhiteSpace c); [done|]. by intros [= <-].
  - by intros [= <-].
Qed.

Lemma trimEnd_suffix s t : trimEnd s = s -> t `suffix_of` s -> trimEnd t = t.
Proof.
  intros Hs [pre ->]. induction pre as [|c pre IH]; [done|].
  apply IH. by eapply trimEnd_tail.
Qed.

Lemma trimStart_suffix s : trimStart s `suffix_of` s.
Proof.
  induction s as [|c r IH]; [done|]. simpl.
  destruct (isWhiteSpace c); [by apply suffix_cons_r|done].
Qed.

Lemma dropHashes_suffix s : dropHashes s `suffix_of` s.
Proof.
  induction s as [|c r IH]; [done|]. simpl.
  destruct (c =? 35)%N; [by apply suffix_cons_r|done].
Qed.

Lemma trimStart_fixed s : trimEnd s = s -> trim (trimStart s) = trimStart s.
Proof.
  intros Hs. unfold trim. rewrite trimStart_idem.
  eapply trimEnd_suffix; [exact Hs|apply trimStart_suffix].
Qed.

Lemma split_nonempty c s : split c s <> [].
Proof.
  destruct s as [|a r]; [done|]. simpl.
  destruct (a =? c)%N; [done|]. by destruct (split c r).
Qed.

Lemma parseTableRow_cells line :
  parseTableRow line <> []
  /\ Forall (fun cell => trim cell = cell) (parseTableRow line).
Proof.
  unfold parseTableRow.
  match goal with |- context [split pipe ?s] =>
    pose proof (split_nonempty pipe s) as Hne; generalize dependent (split pipe s)
  end.
  intros cells Hne. split; [by destruct cells|].
  apply Forall_forall. intros cell Hc.
  apply list_elem_of_In, in_map_iff in Hc as (x & <- & _). apply trim_idem.
Qed.

Lemma itemsOf_items dash line :
  Forall (fun item => item <> [] /\ trim item = item) (itemsOf dash line).
Proof.
  unfold itemsOf. apply Forall_forall. intros item Hi.
  apply list_elem_of_In, filter_In in Hi as [Hi Ht].
  apply in_map_iff in Hi as (part & <- & _).
  split; [by intros E; rewrite E in Ht|].
  unfold cleanItem. apply trim_idem.
Qed.

Lemma listItems_items lines :
  Forall (fun item => item <> [] /\ trim item = item) (listItems lines).1.
Proof.
  induction lines as [|l rest IH]; [done|]. simpl.
  destruct (negb (startsWith (trim l) (str "- "))
            && negb (startsWith (trim l) [bullet])); [done|].
  destruct (listItems rest) as [items rest']. simpl in *.
  apply Forall_app. split; [apply itemsOf_items|done].
Qed.

Lemma join_nonempty sep (p : jsstring) ps : p <> [] -> join sep (p :: ps) <> [].
Proof. destruct p, ps; done. Qed.

Lemma iteration_produces l rest :
  truthy (trim l) = true -> is_Some (iteration l rest).1.
Proof.
  intros Ht. unfold iteration. rewrite trim_trimEnd, Ht. simpl.
  repeat match goal with
         | |- context [if ?c then _ else _] => destruct c
         | |- context [let '(_, _) := ?x in _] => destruct x
         end; by eexists.
Qed.

Lemma iteration_blank l rest :
  truthy (trim l) = false -> iteration l rest = (None, rest).
Proof. intros Ht. unfold iteration. by rewrite trim_trimEnd, Ht. Qed.

Lemma iteration_block l rest b :
  (iteration l rest).1 = Some b ->
  match b with
  | Heading text => trim text = text
  | Paragraph text => text <> []
  | List items => Forall (fun item => item <> [] /\ trim item = item) items
  | Table headers rows =>
      (headers <> [] /\ Forall (fun cell => trim cell = cell) headers)
      /\ Forall (fun row => row <> [] /\ Forall (fun cell => trim cell = cell) row)
           rows
  end.
Proof.
  unfold iteration. rewrite trim_trimEnd.
  destruct (truthy (trim l)) eqn:Eblank; [|done]. simpl negb. cbv iota.
  destruct (startsWith (trim l) (str "##")) eqn:Ehead.
  { intros [= <-]. unfold headingText.
    destruct (trim l) as [|c r] eqn:Et; [done|].
    assert (trimEnd (c :: r) = c :: r) as Hfix
      by (rewrite <- Et; unfold trim; apply trimEnd_idem).
    destruct c as [|p]; [done|].
    do 6 (try (destruct p as [p|p|]; try done)).
    unfold trim. rewrite trimStart_idem.
    eapply trimEnd_suffix; [exact Hfix|].
    etransitivity; [apply trimStart_suffix|apply dropHashes_suffix]. }
  destruct (startsTable (trim l) rest) eqn:Etable.
  { destruct (tableRows_spec (drop 1 rest)) as (taken & _ & Hrows).
    destruct (tableRows (drop 1 rest)) as [rows rest']. simpl in Hrows.
    intros [= <-]. split; [apply parseTableRow_cells|].
    subst rows. apply Forall_forall. intros row Hrow.
    apply list_elem_of_In, in_map_iff in Hrow as (line & <- & _).
    apply parseTableRow_cells. }
  destruct (startsList (trim l)) eqn:Elist.
  { pose proof (listItems_items (l :: rest)) as Hitems.
    destruct (listItems (l :: rest)) as [items rest']. by intros [= <-]. }
  destruct (_ <? _)%nat eqn:Einline.
  { intros [= <-]. destruct (includes (trim l) bullet); [|done].
    apply itemsOf_items. }
  cbn [paragraphLines]. rewrite Eblank, Ehead, Etable. simpl negb. cbv iota.
  unfold startsList in Elist. apply orb_false_iff in Elist as [-> _].
  destruct (paragraphLines rest) as [ps rest']. intros [= <-].
  destruct (trim l), ps; done.
Qed.

Lemma parseLines_empty fuel :
  forall lines blocks,
    parseLines fuel lines = Some blocks ->
    (blocks = [] <-> Forall (fun line => trim line = []) lines).
Proof.
  induction fuel as [|f IH]; intros lines blocks Hp.
  { destruct lines; simpl in Hp; [|done]. injection Hp as <-. done. }
  destruct lines as [|l rest]; simpl in Hp.
  { injection Hp as <-. done. }
  destruct (truthy (trim l)) eqn:Et.
  - destruct (iteration_produces l rest Et) as [b Hb].
    destruct (iteration l rest) as [block rest']. simpl in Hb. subst block.
    destruct (parseLines f rest') as [bs|]; [|done]. injection Hp as <-.
    split; [done|]. intros [Hl _]%Forall_cons_1. by rewrite Hl in Et.
  - rewrite (iteration_blank l rest Et) in Hp.
    destruct (parseLines f rest) as [bs|] eqn:Er; [|done]. injection Hp as <-.
    simpl. rewrite (IH rest bs Er), Forall_cons.
    destruct (trim l); [tauto|done].
Qed.

Lemma split_plain c s : c ∉ s -> split c s = [s].
Proof.
  induction s as [|a r IH]; [done|]. intros Hc.
  apply not_elem_of_cons in Hc as [Hac Hr]. simpl.
  destruct (N.eqb_spec a c); [by subst|]. by rewrite IH.
Qed.

Lemma split_app c s r : c ∉ s -> split c (s ++ c :: r) = s :: split c r.
Proof.
  induction s as [|a s IH]; intros Hc.
  - simpl. by rewrite N.eqb_refl.
  - apply not_elem_of_cons in Hc as [Hac Hs]. simpl.
    destruct (N.eqb_spec a c); [by subst|]. by rewrite IH.
Qed.

Lemma split_join c cells :
  cells <> [] -> Forall (fun cell => c ∉ cell) cells ->
  split c (join [c] cells) = cells.
Proof.
  intros Hne Hc. induction Hc as [|cell cells Hcell _ IH]; [done|].
  destruct cells as [|cell' cells].
  - simpl. by apply split_plain.
  - change (join [c] (cell :: cell' :: cells))
      with (cell ++ c :: join [c] (cell' :: cells)).
    rewrite split_app by done. f_equal. by apply IH.
Qed.

Lemma splitLines_plain l :
  Forall (fun c => c <> 10%N /\ c <> 13%N) l -> splitLines l = [l].
Proof.
  induction 1 as [|a l [H10 H13] Hl IH]; [done|].
  simpl. destruct (N.eqb_spec a 10); [done|].
  destruct l as [|b l']; [done|].
  destruct (N.eqb_spec a 13); [done|]. simpl andb. cbv iota.
  by rewrite IH.
Qed.

Lemma splitLines_app l sep r :
  Forall (fun c => c <> 10%N /\ c <> 13%N) l ->
  sep = [10%N] \/ sep = [13%N; 10%N] ->
  splitLines (l ++ sep ++ r) = l :: splitLines r.
Proof.
  intros Hl Hsep. induction Hl as [|a l [H10 H13] Hl IH].
  - destruct Hsep as [->| ->]; done.
  - rewrite <- app_comm_cons.
    assert (exists b t, l ++ sep ++ r = b :: t) as (b & t & E).
    { destruct l; [|by eexists _, _].
      destruct Hsep as [->| ->]; by eexists _, _. }
    cbn [splitLines]. destruct (N.eqb_spec a 10); [done|].
    rewrite E. destruct (N.eqb_spec a 13); [done|]. simpl andb. cbv iota.
    rewrite <- E, IH. done.
Qed.

Lemma splitLines_join sep lines :
  sep = [10%N] \/ sep = [13%N; 10%N] ->
  lines <> [] ->
  Forall (fun l => Forall (fun c => c <> 10%N /\ c <> 13%N) l) lines ->
  splitLines (join sep lines) = lines.
Proof.
  intros Hsep Hne Hl. induction Hl as [|l lines Hline _ IH]; [done|].
  destruct lines as [|l' lines].
  - simpl. by apply splitLines_plain.
  - change (join sep (l :: l' :: lines))
      with (l ++ sep ++ join sep (l' :: lines)).
    rewrite splitLines_app by done. f_equal. by apply IH.
Qed.

End BlockFacts.

(** X13: the parser returns no block exactly for a text all of whose
    lines are blank. *)
Theorem parseAnswerBlocks_empty (answer : jsstring) :
  parseAnswerBlocks answer = []
  <-> Forall (fun line => trim line = []) (splitLines answer).
Proof.
  apply (parseLines_empty (length (splitLines answer))).
  by apply parseAnswerBlocks_eq.
Qed.

Lemma parseAnswerBlocks_empty_witness :
  parseAnswerBlocks (str "  " ++ [10%N] ++ [9%N]) = [].
Proof.
  apply (proj2 (parseAnswerBlocks_empty (str "  " ++ [10%N] ++ [9%N]))).
  repeat constructor.
Defined.

(** X14: what the parser hands to the renderer is tidy: a heading and
    every list item and table cell carry no white space at their ends,
    no list item and no paragraph is empty, and a table has at least one
    header cell and at least one cell in every row. *)
Theorem parseAnswerBlocks_tidy (answer : jsstring) (block : AnswerBlock) :
  block ∈ parseAnswerBlocks answer ->
  match block with
  | Heading text => trim text = text
  | Paragraph text => text <> []
  | List items => Forall (fun item => item <> [] /\ trim item = item) items
  | Table headers rows =>
      (headers <> [] /\ Forall (fun cell => trim cell = cell) headers)
      /\ Forall (fun row => row <> [] /\ Forall (fun cell => trim cell = cell) row)
           rows
  end.
Proof.
  intros Hb.
  destruct (parseLines_blocks (length (splitLines answer)) (splitLines answer)
              (parseAnswerBlocks answer) block) as (l & rest & _ & Hi);
    [by apply parseAnswerBlocks_eq|done|].
  by eapply iteration_block.
Qed.

Lemma parseAnswerBlocks_tidy_witness :
  Forall (fun item => item <> [] /\ trim item = item) [str "a"; str "b"].
Proof.
  apply (parseAnswerBlocks_tidy (str "-  a  - b  ") (List [str "a"; str "b"])).
  vm_compute. left.
Defined.

(** X15: a table row written with its cells between pipes is read back
    as those cells, when they hold no pipe and no white space at their
    ends. *)
Theorem parseTableRow_join (cells : list jsstring) :
  cells <> [] ->
  Forall (fun cell => (pipe ∉ cell) /\ trim cell = cell) cells ->
  parseTableRow ([pipe] ++ join [pipe] cells ++ [pipe]) = cells.
Proof.
  intros Hne Hcells. unfold parseTableRow.
  set (inner := join [pipe] cells).
  assert (trim ([pipe] ++ inner ++ [pipe]) = [pipe] ++ inner ++ [pipe]) as ->.
  { unfold trim. simpl trimStart.
    change (pipe :: inner ++ [pipe]) with ((pipe :: inner) ++ [pipe]).
    by apply trimEnd_snoc. }
  assert (startsWith ([pipe] ++ inner ++ [pipe]) [pipe] = true) as ->
    by (simpl; by destruct (inner ++ [pipe])).
  cbv iota. unfold sliceFrom1.
  change (drop 1 ([pipe] ++ inner ++ [pipe])) with (inner ++ [pipe]).
  rewrite endsWith_app. cbv iota.
  unfold sliceToLast. rewrite length_app. simpl length.
  replace (length inner + 1 - 1)%nat with (length inner) by lia.
  rewrite take_app_length.
  subst inner. rewrite split_join.
  - apply list_eq. intros i. rewrite list_lookup_fmap.
    destruct (cells !! i) as [cell|] eqn:E; [|done]. simpl. f_equal.
    rewrite Forall_forall in Hcells.
    apply (Hcells cell). by eapply list_elem_of_lookup_2.
  - done.
  - eapply Forall_impl; [exact Hcells|]. by intros cell [? _].
Qed.

Lemma parseTableRow_join_witness :
  parseTableRow (str "|Page|Sessions|") = [str "Page"; str "Sessions"].
Proof.
  apply (parseTableRow_join [str "Page"; str "Sessions"]); [done|].
  repeat constructor; try (vm_compute; reflexivity);
    intros H; apply list_elem_of_In in H; vm_compute in H; intuition discriminate.
Defined.

(** X16: a text parses to the same blocks whether its lines end in LF or
    in CR LF. *)
Theorem parseAnswerBlocks_line_endings (lines : list jsstring) :
  Forall (fun l => Forall (fun c => c <> 10%N /\ c <> 13%N) l) lines ->
  parseAnswerBlocks (join [13%N; 10%N] lines)
  = parseAnswerBlocks (join [10%N] lines).
Proof.
  intros Hl. destruct lines as [|l lines]; [done|].
  unfold parseAnswerBlocks.
  rewrite !splitLines_join; auto.
Qed.

Lemma parseAnswerBlocks_line_endings_witness :
  parseAnswerBlocks (str "## A" ++ [13%N; 10%N] ++ str "- b")
  = parseAnswerBlocks (str "## A" ++ [10%N] ++ str "- b").
Proof.
  apply (parseAnswerBlocks_line_endings [str "## A"; str "- b"]).
  repeat constructor; done.
Defined.

(** ** The comparator is antisymmetric *)

Section AntisymmetryFacts.

Lemma keyCompare_antisym a b : keyCompare b a = - keyCompare a b.
Proof.
  unfold keyCompare.
  repeat match goal with
         | |- context [?x <? ?y] => destruct (Z.ltb_spec x y)
         end; lia.
Qed.

Lemma keysCompare_antisym a b : keysCompare b a = - keysCompare a b.
Proof.
  revert b. induction a as [|x a IH]; intros [|y b]; simpl; try done.
  rewrite (keyCompare_antisym x y).
  destruct (Z.eqb_spec (keyCompare x y) 0) as [E|E].
  - rewrite E. simpl. apply IH.
  - destruct (Z.eqb_spec (- keyCompare x y) 0); [lia|done].
Qed.

Lemma keyCompare_range a b : -1 <= keyCompare a b <= 1.
Proof.
  unfold keyCompare.
  repeat match goal with
         | |- context [?x <? ?y] => destruct (Z.ltb_spec x y)
         end; lia.
Qed.

Lemma keysCompare_range a b : -1 <= keysCompare a b <= 1.
Proof.
  revert b. induction a as [|x a IH]; intros [|y b]; simpl; try lia.
  destruct (keyCompare x y =? 0); [apply IH|apply keyCompare_range].
Qed.

Lemma sgn_of_Z z : -1 <= z <= 1 -> sgn (of_Z z) = z.
Proof.
  intros Hz.
  assert (z = -1 \/ z = 0 \/ z = 1) as [->|[->| ->]] by lia; done.
Qed.

Lemma localeCompare_antisym a b :
  sgn (localeCompare b a) = - sgn (localeCompare a b).
Proof.
  unfold localeCompare.
  rewrite !sgn_of_Z by apply keysCompare_range.
  apply keysCompare_antisym.
Qed.

Lemma parseUnsignedDecimal_onGrid s : onGrid (parseUnsignedDecimal s).
Proof.
  unfold parseUnsignedDecimal.
  repeat match goal with
         | |- onGrid (if ?c then _ else _) => destruct c
         | |- onGrid (let '(_, _) := ?x in _) => destruct x
         | |- onGrid (match ?x with _ => _ end) => destruct x
         end; try done; unfold scaled;
    repeat match goal with
           | |- onGrid (if ?c then _ else _) => destruct c
           end; apply round_q_onGrid.
Qed.

Lemma parseNumeric_onGrid s : onGrid (parseNumeric s).
Proof.
  unfold parseNumeric.
  repeat match goal with
         | |- onGrid (if ?c then _ else _) => destruct c
         | |- onGrid (match ?x with _ => _ end) => destruct x
         end;
    try done; try apply parseUnsignedDecimal_onGrid;
    try apply neg_onGrid, parseUnsignedDecimal_onGrid;
    try apply round_q_onGrid.
Qed.

Lemma Number_onGrid s : onGrid (Number s).
Proof.
  unfold Number. destruct (trim s); [simpl; lia|apply parseNumeric_onGrid].
Qed.

Lemma parseMaybeNumber_onGrid v x :
  gridCell v -> parseMaybeNumber v = Some x -> onGrid x /\ isNaN x = false.
Proof.
  intros Hv. unfold parseMaybeNumber. destruct v as [| |b|n|s]; try done.
  - destruct n; try done. by intros [= <-].
  - destruct (negb (truthy (trim (removeCommas s)))); [done|].
    destruct (isNaN (Number (trim (removeCommas s)))) eqn:E; [done|].
    intros [= <-]. split; [apply Number_onGrid|done].
Qed.

Lemma sub_antisym x y :
  onGrid x -> onGrid y -> isNaN x = false -> isNaN y = false ->
  sgn (sub y x) = - sgn (sub x y).
Proof.
  intros Hx Hy Nx Ny.
  destruct x as [|a|m1 e1], y as [|b|m2 e2]; try done.
  - by destruct a, b.
  - by destruct a.
  - by destruct b.
  - simpl in Hx, Hy.
    destruct (sub_sign m1 e1 m2 e2 Hx Hy) as (_ & _ & L1 & _ & G1).
    destruct (sub_sign m2 e2 m1 e1 Hy Hx) as (_ & _ & L2 & _ & G2).
    unfold sgn. rewrite L1, G1, L2, G2.
    repeat match goal with
           | |- context [?x <? ?y] => destruct (Z.ltb_spec x y)
           end; lia.
Qed.

End AntisymmetryFacts.

(** X17: exchanging the two cells negates the sign of their comparison,
    whatever they hold: numbers, texts, or nothing. *)
Theorem compareValues_antisym (a b : value) :
  gridCell a -> gridCell b ->
  sgn (compareValues b a) = - sgn (compareValues a b).
Proof.
  intros Ha Hb. unfold compareValues.
  destruct (nullish a) eqn:Na, (nullish b) eqn:Nb; simpl; try done.
  destruct (parseMaybeNumber a) as [x|] eqn:Ea,
           (parseMaybeNumber b) as [y|] eqn:Eb;
    try apply localeCompare_antisym.
  destruct (parseMaybeNumber_onGrid a x Ha Ea).
  destruct (parseMaybeNumber_onGrid b y Hb Eb).
  by apply sub_antisym.
Qed.

Lemma compareValues_antisym_witness :
  sgn (compareValues (VString (str "1,000")) (VNumber (of_Z 3)))
  = - sgn (compareValues (VNumber (of_Z 3)) (VString (str "1,000"))).
Proof.
  apply (compareValues_antisym (VNumber (of_Z 3)) (VString (str "1,000"))).
  - simpl. lia.
  - exact I.
Defined.

(** ** Decimal numerals, and the identifiers built from them *)

Section NumeralFacts.

Lemma digitsValue_app ds c :
  digitsValue (ds ++ [c]) = digitsValue ds * 10 + (Z.of_N c - 48).
Proof. unfold digitsValue. by rewrite fold_left_app. Qed.

Lemma digitsOf_spec fuel :
  forall z acc,
    0 <= z < 10 ^ Z.of_nat fuel ->
    exists ds,
      digitsOf fuel z acc = ds ++ acc
      /\ Forall (fun c => isDigit c = true) ds
      /\ digitsValue ds = z.
Proof.
  induction fuel as [|f IH]; intros z acc Hz.
  { simpl in Hz. exists []. assert (z = 0) as -> by lia. done. }
  simpl digitsOf.
  assert (0 <= z mod 10 < 10) as Hm by (apply Z.mod_pos_bound; lia).
  assert (isDigit (Z.to_N (48 + z mod 10)) = true) as Hd
    by (apply isDigit_range; lia).
  destruct (Z.ltb_spec z 10) as [Hlt|Hge].
  - exists [Z.to_N (48 + z mod 10)]. split; [done|]. split; [by constructor|].
    unfold digitsValue. simpl. rewrite Z2N.id by lia.
    rewrite Z.mod_small by lia. lia.
  - destruct (IH (z / 10) (Z.to_N (48 + z mod 10) :: acc)) as (ds & E & D & V).
    { rewrite Nat2Z.inj_succ, Z.pow_succ_r in Hz by lia.
      split; [apply Z.div_pos; lia|].
      apply Z.div_lt_upper_bound; lia. }
    exists (ds ++ [Z.to_N (48 + z mod 10)]).
    split; [by rewrite E, <- app_assoc|].
    split; [apply Forall_app; split; [done|by constructor]|].
    rewrite digitsValue_app, V, Z2N.id by lia.
    pose proof (Z.div_mod z 10 ltac:(lia)). lia.
Qed.

Lemma decimal_spec z :
  0 <= z ->
  Forall (fun c => isDigit c = true) (decimal z)
  /\ digitsValue (decimal z) = z.
Proof.
  intros Hz. unfold decimal.
  destruct (digitsOf_spec (S (Z.to_nat (Z.log2 z))) z []) as (ds & E & D & V).
  { split; [done|].
    rewrite Nat2Z.inj_succ, Z2Nat.id by apply Z.log2_nonneg.
    destruct (Z.eq_dec z 0) as [->|]; [done|].
    pose proof (Z.log2_spec z ltac:(lia)) as [_ Hl].
    eapply Z.lt_le_trans; [exact Hl|].
    apply Z.pow_le_mono_l. lia. }
  rewrite E, app_nil_r. done.
Qed.

Lemma decimal_inj a b : 0 <= a -> 0 <= b -> decimal a = decimal b -> a = b.
Proof.
  intros Ha Hb E.
  rewrite <- (proj2 (decimal_spec a Ha)), <- (proj2 (decimal_spec b Hb)).
  by rewrite E.
Qed.

Lemma decimal_no_hyphen z : 0 <= z -> 45%N ∉ decimal z.
Proof.
  intros Hz Hin. pose proof (proj1 (decimal_spec z Hz)) as Hd.
  rewrite Forall_forall in Hd. by apply Hd in Hin.
Qed.

End NumeralFacts.

(** X18: two list items of an answer never share an identifier: the
    identifier determines the block index and the item index. *)
Theorem insightId_injective (index itemIdx index' itemIdx' : nat) :
  insightId index itemIdx = insightId index' itemIdx' ->
  index = index' /\ itemIdx = itemIdx'.
Proof.
  unfold insightId. intros E.
  apply not_elem_of_app_cons_inv_l in E as (E1 & _ & E2);
    [|apply decimal_no_hyphen; lia..].
  apply decimal_inj in E1; [|lia..]. apply decimal_inj in E2; [|lia..].
  lia.
Qed.

Lemma insightId_injective_witness : 12%nat = 12%nat /\ 3%nat = 3%nat.
Proof. apply (insightId_injective 12 3 12 3). reflexivity. Defined.

(** ** The selection of reports and the custom reports *)

Section SelectionFacts.
Import ReportsContainer Selection.

Lemma elem_of_toggle reportId prev x :
  x ∈ toggleReportSelection reportId prev <->
  (x = reportId /\ reportId ∉ prev) \/ (x <> reportId /\ x ∈ prev).
Proof.
  unfold toggleReportSelection.
  destruct (decide (reportId ∈ prev)) as [Hin|Hin].
  - rewrite bool_decide_eq_true_2 by done.
    rewrite list_elem_of_In, filter_In, <- list_elem_of_In, negb_true_iff,
      bool_decide_eq_false.
    tauto.
  - rewrite bool_decide_eq_false_2 by done.
    rewrite elem_of_app, list_elem_of_singleton.
    destruct (decide (x = reportId)) as [->|]; tauto.
Qed.

Lemma isCustom_user z :
  startsWith (str "user_" ++ decimal z) (str "user_") = true.
Proof. apply startsWith_app. Qed.

Lemma filter_snoc {A} (f : A -> bool) l x :
  List.filter f (l ++ [x]) = List.filter f l ++ (if f x then [x] else []).
Proof. rewrite List.filter_app. simpl. by destruct (f x). Qed.

End SelectionFacts.

(** X19: ticking a report flips its membership in the selection and no
    other, keeps a selection free of duplicates so, and ticking twice
    leaves the visible reports as they were. *)
Theorem toggleReportSelection_spec (reportId : jsstring) (prev : list jsstring) :
  (forall x,
     x ∈ Selection.toggleReportSelection reportId prev <->
     (x = reportId /\ reportId ∉ prev) \/ (x <> reportId /\ x ∈ prev))
  /\ (NoDup prev -> NoDup (Selection.toggleReportSelection reportId prev))
  /\ forall reports,
       Selection.visibleReports reports
         (Selection.toggleReportSelection reportId
            (Selection.toggleReportSelection reportId prev))
       = Selection.visibleReports reports prev.
Proof.
  split; [apply elem_of_toggle|]. split.
  - intros Hnd. unfold Selection.toggleReportSelection.
    destruct (decide (reportId ∈ prev)) as [Hin|Hin].
    + rewrite bool_decide_eq_true_2 by done.
      apply NoDup_ListNoDup, List.NoDup_filter. by apply NoDup_ListNoDup.
    + rewrite bool_decide_eq_false_2 by done.
      apply NoDup_app. split; [done|]. split; [|apply NoDup_singleton].
      intros x Hx ->%list_elem_of_singleton. done.
  - intros reports. unfold Selection.visibleReports.
    apply List.filter_ext. intros report. apply bool_decide_ext.
    rewrite !elem_of_toggle.
    destruct (decide (ReportsContainer.id report = reportId));
      destruct (decide (reportId ∈ prev)); subst; tauto.
Qed.

Lemma toggleReportSelection_spec_witness :
  NoDup (Selection.toggleReportSelection (str "b") [str "a"; str "b"; str "c"]).
Proof.
  apply (toggleReportSelection_spec (str "b") [str "a"; str "b"; str "c"]).
  repeat constructor; intros H; apply list_elem_of_In in H;
    vm_compute in H; intuition discriminate.
Defined.

(** X20: the report a custom report request builds bears the identifier
    user_(k+1), where k counts the reports with an identifier in
    "user_" among those of the render in which the request started.
    The report is appended to the reports of the moment and selected.
    Its identifier is new among them when each of their identifiers in
    "user_" is one of user_1 to user_k, and when these are user_1 to
    user_k in this order they are user_1 to user_(k+1) afterwards: so
    it is when no reports were loaded while the request was awaited and
    the reports it started from were of that kind. *)
Theorem newReport_fresh (reports prev : list ReportsContainer.ReportPayload)
  (selectedReportIds : list jsstring)
  (customReportName customReportGroup : jsstring)
  (selectedDimensions selectedMetrics : list jsstring)
  (data : list ReportPanel.ReportRow) :
  let k := length (List.filter Selection.isCustom reports) in
  let report :=
    Selection.newReport reports customReportName customReportGroup
      selectedDimensions selectedMetrics data in
  let state :=
    Selection.handleCreateCustomReport reports customReportName
      customReportGroup selectedDimensions selectedMetrics data
      (prev, selectedReportIds) in
  ReportsContainer.id report = str "user_" ++ decimal (Z.of_nat (S k))
  /\ state = (prev ++ [report], selectedReportIds ++ [ReportsContainer.id report])
  /\ ((forall r,
         r ∈ prev -> Selection.isCustom r = true ->
         exists i, (1 <= i <= k)%nat
           /\ ReportsContainer.id r = str "user_" ++ decimal (Z.of_nat i)) ->
      (ReportsContainer.id report ∉ (ReportsContainer.id <$> prev)))
  /\ (ReportsContainer.id <$> List.filter Selection.isCustom prev
      = (fun i => str "user_" ++ decimal (Z.of_nat i)) <$> seq 1 k ->
      ReportsContainer.id <$> List.filter Selection.isCustom state.1
      = (fun i => str "user_" ++ decimal (Z.of_nat i)) <$> seq 1 (S k)).
Proof.
  intros k report state.
  assert (ReportsContainer.id report = str "user_" ++ decimal (Z.of_nat (S k)))
    as Hid.
  { unfold report, Selection.newReport. cbn [ReportsContainer.id].
    fold k. do 2 f_equal. lia. }
  assert (state = (prev ++ [report],
                   selectedReportIds ++ [ReportsContainer.id report])) as Hstate
    by done.
  clearbody report state. subst state. split; [done|]. split; [done|]. split.
  - intros Hprev Hin. apply list_elem_of_fmap in Hin as (r & Er & Hr).
    assert (Selection.isCustom r = true) as Hc.
    { unfold Selection.isCustom. rewrite <- Er, Hid. apply isCustom_user. }
    destruct (Hprev r Hr Hc) as (i & Hi & Ei).
    rewrite <- Er, Hid in Ei. apply app_inv_head in Ei.
    apply decimal_inj in Ei; lia.
  - intros Hids. cbn [fst]. rewrite filter_snoc.
    assert (Selection.isCustom report = true) as ->
      by (unfold Selection.isCustom; rewrite Hid; apply isCustom_user).
    rewrite fmap_app, Hids, seq_S, fmap_app. simpl. by rewrite Hid.
Qed.

Lemma newReport_fresh_witness :
  ReportsContainer.id
  <$> List.filter Selection.isCustom
        (Selection.handleCreateCustomReport [reportA; reportB] (str " ") []
           [str "page"] [str "sessions"] []
           ([reportA; reportB], [str "a"])).1
  = [str "user_1"].
Proof.
  apply (newReport_fresh [reportA; reportB] [reportA; reportB] [str "a"]
           (str " ") [] [str "page"] [str "sessions"] []).
  reflexivity.
Defined.

(** A load that is answered while a request for a custom report is
    awaited breaks the numbering: the request started from the reports
    [user_1], the load leaves one report [a], the new report is
    appended as [user_2], and the next request, which counts one report
    in "user_", builds [user_2] again. *)
Example newReport_repeats_after_load :
  let started :=
    Selection.handleCreateCustomReport [] [] [] [str "page"] [str "sessions"]
      [] ([], []) in
  let loaded := Selection.handleLoadReports [reportA] in
  let second :=
    Selection.handleCreateCustomReport started.1 [] [] [str "page"]
      [str "sessions"] [] loaded in
  let third :=
    Selection.handleCreateCustomReport second.1 [] [] [str "page"]
      [str "sessions"] [] second in
  ReportsContainer.id <$> started.1 = [str "user_1"]
  /\ ReportsContainer.id <$> second.1 = [str "a"; str "user_2"]
  /\ ReportsContainer.id <$> third.1 = [str "a"; str "user_2"; str "user_2"].
Proof. vm_compute. repeat split; reflexivity. Qed.

(** ** Follow-ups of different insights *)

Section FollowupFacts.
Import Page InsightButtons.

(** Every updater of [handleInsightFollowup] rewrites the entry of its
    insight from that entry alone. *)
Lemma followup_event_local e id :
  insightOf e = Some id ->
  exists i (f : InsightFollowupState -> InsightFollowupState),
    forall q, step q e
              = setInsightFollowups i
                  (fun m => <[id := f (entry m id)]> m) q.
Proof.
  destruct e as [| |i id' a|i id' a r|i id' msg]; try done;
    intros [= ->]; exists i.
  - by exists (fun s => {| loading := Some a; basis := basis s;
                           deepDive := deepDive s; error := None |}).
  - by exists (fun s =>
       {| loading := None; error := None;
          basis := if decide (a = basis_action) then Some r else basis s;
          deepDive := if decide (a = deep_dive) then Some r else deepDive s |}).
  - by exists (fun s => {| loading := None; basis := basis s;
                           deepDive := deepDive s; error := Some msg |}).
Qed.

Lemma entry_insert_ne (m : gmap jsstring InsightFollowupState) id other s :
  id <> other -> entry (<[id := s]> m) other = entry m other.
Proof. intros Hne. unfold entry. by rewrite lookup_insert_ne. Qed.

Lemma entry_insert (m : gmap jsstring InsightFollowupState) id s :
  entry (<[id := s]> m) id = s.
Proof. unfold entry. by rewrite lookup_insert_eq. Qed.

Lemma setInsightFollowups_followups i u p m :
  insightFollowups p = Some m ->
  insightFollowups (setInsightFollowups i u p)
  = Some (if decide (i = generation p) then u m else m).
Proof.
  intros Hm. unfold setInsightFollowups. rewrite Hm.
  by destruct (decide (i = generation p)).
Qed.

Lemma followup_event_followups p e id m :
  insightOf e = Some id -> insightFollowups p = Some m ->
  exists m',
    insightFollowups (step p e) = Some m'
    /\ (forall other, other <> id -> entry m' other = entry m other)
    /\ (basis (entry m id) <> None -> basis (entry m' id) <> None)
    /\ (deepDive (entry m id) <> None -> deepDive (entry m' id) <> None).
Proof.
  intros He Hm.
  destruct e as [| |i id' a|i id' a r|i id' msg]; try done;
    injection He as ->; simpl step;
    rewrite (setInsightFollowups_followups _ _ _ _ Hm);
    destruct (decide (i = generation p)); eexists; (split; [done|]);
    try (split_and!; done);
    unfold onStart, onSuccess, onFailure;
    (split; [intros other Hne; by apply entry_insert_ne|]);
    rewrite entry_insert; cbn; try done;
    split; intros ?; by destruct (decide _).
Qed.

End FollowupFacts.

(** X21: follow-ups of different insights do not interfere: an event of
    one leaves the entry of the other as it was, and two such events
    give the same page in either order. *)
Theorem followups_independent (p : Page.page) (e1 e2 : Page.event)
  (id1 id2 : jsstring) :
  InsightButtons.insightOf e1 = Some id1 ->
  InsightButtons.insightOf e2 = Some id2 ->
  id1 <> id2 ->
  Page.step (Page.step p e1) e2 = Page.step (Page.step p e2) e1
  /\ forall m, Page.insightFollowups p = Some m ->
       exists m', Page.insightFollowups (Page.step p e1) = Some m'
                  /\ entry m' id2 = entry m id2.
Proof.
  intros H1 H2 Hne. split.
  - destruct (followup_event_local e1 id1 H1) as (i1 & f1 & E1).
    destruct (followup_event_local e2 id2 H2) as (i2 & f2 & E2).
    rewrite !E1, !E2. unfold Page.setInsightFollowups.
    destruct (Page.insightFollowups p) as [m|] eqn:Em; [|by rewrite Em].
    destruct (decide (i1 = Page.generation p)),
             (decide (i2 = Page.generation p));
      simpl; rewrite ?Em; simpl;
      repeat (destruct (decide _); try done); simpl; try done.
    f_equal. f_equal.
    rewrite !entry_insert_ne by done.
    by apply insert_insert_ne.
  - intros m Hm.
    destruct (followup_event_followups p e1 id1 m H1 Hm) as (m' & E & Hk & _).
    exists m'. split; [done|]. by apply Hk.
Qed.

Lemma followups_independent_witness :
  Page.step
    (Page.step
       {| Page.answer := Some (str "first"); Page.isAsking := false;
          Page.generation := 1; Page.insightFollowups := Some ∅ |}
       (Page.FollowupStart 1 (insightId 0 0) basis_action))
    (Page.FollowupFailure 1 (insightId 0 1) (str "offline"))
  = Page.step
      (Page.step
         {| Page.answer := Some (str "first"); Page.isAsking := false;
            Page.generation := 1; Page.insightFollowups := Some ∅ |}
         (Page.FollowupFailure 1 (insightId 0 1) (str "offline")))
      (Page.FollowupStart 1 (insightId 0 0) basis_action).
Proof.
  apply (followups_independent _ _ _ (insightId 0 0) (insightId 0 1)).
  - reflexivity.
  - reflexivity.
  - vm_compute. discriminate.
Defined.

(** X22: while the answer stays, an explanation or a deep dive that has
    been received for an insight is never taken away by later follow-up
    events: it can only be replaced by a newer one. *)
Theorem followup_results_kept (events : list Page.event) (p : Page.page)
  (m : gmap jsstring InsightFollowupState) (id : jsstring) :
  Forall (fun e => is_Some (InsightButtons.insightOf e)) events ->
  Page.insightFollowups p = Some m ->
  exists m',
    Page.insightFollowups (Page.run p events) = Some m'
    /\ (basis (entry m id) <> None -> basis (entry m' id) <> None)
    /\ (deepDive (entry m id) <> None -> deepDive (entry m' id) <> None).
Proof.
  intros Hev. revert p m.
  induction Hev as [|e events [ide He] _ IH]; intros p m Hm.
  { exists m. by split. }
  destruct (followup_event_followups p e ide m He Hm)
    as (m1 & E1 & Hother & Hb & Hd).
  destruct (IH (Page.step p e) m1 E1) as (m' & E' & Hb' & Hd').
  exists m'. split; [exact E'|].
  destruct (decide (id = ide)) as [->|Hne].
  - split; intros H; [apply Hb', Hb, H|apply Hd', Hd, H].
  - rewrite (Hother id Hne) in Hb', Hd'. by split.
Qed.

Lemma followup_results_kept_witness :
  exists m',
    Page.insightFollowups
      (Page.run
         {| Page.answer := Some (str "first"); Page.isAsking := false;
            Page.generation := 1;
            Page.insightFollowups :=
              Some {[ insightId 0 0 :=
                        {| loading := None; basis := Some (str "because");
                           deepDive := None; error := None |} ]} |}
         [Page.FollowupStart 1 (insightId 0 0) deep_dive;
          Page.FollowupFailure 1 (insightId 0 0) (str "offline")])
    = Some m'
    /\ (basis (entry {[ insightId 0 0 :=
                          {| loading := None; basis := Some (str "because");
                             deepDive := None; error := None |} ]}
                 (insightId 0 0)) <> None ->
        basis (entry m' (insightId 0 0)) <> None)
    /\ (deepDive (entry {[ insightId 0 0 :=
                             {| loading := None; basis := Some (str "because");
                                deepDive := None; error := None |} ]}
                    (insightId 0 0)) <> None ->
        deepDive (entry m' (insightId 0 0)) <> None).
Proof.
  apply followup_results_kept.
  - repeat constructor; by eexists.
  - reflexivity.
Defined.

(** X23: the two buttons of an insight are disabled from the click on
    one of them until the request it started has completed, with a
    result or with an error, and the click disables no other insight. *)
Theorem followup_buttons (p : Page.page)
  (m : gmap jsstring InsightFollowupState) (id : jsstring)
  (action : InsightFollowupAction) (completion : Page.event) :
  Page.insightFollowups p = Some m ->
  Page.completes (Page.generation p) id action completion ->
  let started := Page.step p (Page.FollowupStart (Page.generation p) id action) in
  (exists m1,
     Page.insightFollowups started = Some m1
     /\ InsightButtons.disabled m1 id = true
     /\ forall other, other <> id ->
          InsightButtons.disabled m1 other = InsightButtons.disabled m other)
  /\ exists m2,
       Page.insightFollowups (Page.step started completion) = Some m2
       /\ InsightButtons.disabled m2 id = false.
Proof.
  intros Hm Hc started. subst started. simpl Page.step at 2.
  pose proof (setInsightFollowups_generation (Page.generation p)
                (onStart id action) p) as Hg.
  pose proof (setInsightFollowups_followups (Page.generation p)
                (onStart id action) p m Hm) as Hs.
  rewrite decide_True in Hs by done.
  split.
  - eexists. split; [exact Hs|]. unfold InsightButtons.disabled, onStart. split.
    + by rewrite entry_insert.
    + intros other Hne. by rewrite entry_insert_ne.
  - destruct Hc as [(result & ->)|(message & ->)]; simpl Page.step;
      rewrite (setInsightFollowups_followups _ _ _ _ Hs), Hg,
        decide_True by done;
      eexists; (split; [done|]);
      unfold InsightButtons.disabled, onSuccess, onFailure;
      by rewrite entry_insert.
Qed.

Lemma followup_buttons_witness :
  exists m2,
    Page.insightFollowups
      (Page.step
         (Page.step
            {| Page.answer := Some (str "first"); Page.isAsking := false;
               Page.generation := 1; Page.insightFollowups := Some ∅ |}
            (Page.FollowupStart 1 (insightId 0 0) basis_action))
         (Page.FollowupFailure 1 (insightId 0 0) (str "offline")))
    = Some m2
    /\ InsightButtons.disabled m2 (insightId 0 0) = false.
Proof.
  refine (proj2 (followup_buttons
    {| Page.answer := Some (str "first"); Page.isAsking := false;
       Page.generation := 1; Page.insightFollowups := Some ∅ |}
    ∅ (insightId 0 0) basis_action
    (Page.FollowupFailure 1 (insightId 0 0) (str "offline")) _ _)).
  - reflexivity.
  - right. by eexists.
Defined.

(** ** The report on screen *)

Section ContainerFacts.
Import ReportsContainer.

Lemma find_hasId i rs r :
  List.find (hasId i) rs = Some r -> r ∈ rs /\ id r = i.
Proof.
  intros [Hin Hid]%List.find_some. split; [by apply list_elem_of_In|].
  unfold hasId in Hid. by apply bool_decide_eq_true in Hid.
Qed.

Lemma find_hasId_None i rs r :
  List.find (hasId i) rs = None -> r ∈ rs -> id r <> i.
Proof.
  intros Hn Hin%list_elem_of_In.
  pose proof (List.find_none _ _ Hn r Hin) as H.
  unfold hasId in H. by apply bool_decide_eq_false in H.
Qed.

Lemma find_hasId_is_Some i rs r :
  r ∈ rs -> id r = i -> is_Some (List.find (hasId i) rs).
Proof.
  intros Hin Hid. destruct (List.find (hasId i) rs) eqn:E; [by eexists|].
  by destruct (find_hasId_None i rs r E Hin).
Qed.

Lemma head_elem_of {A} (l : list A) x : head l = Some x -> x ∈ l.
Proof. destruct l; [done|]. intros [= ->]. left. Qed.

End ContainerFacts.

Section SyncFacts.
Import ReportsContainer.

Lemma find_hasId_head r0 rs : List.find (hasId (id r0)) (r0 :: rs) = Some r0.
Proof. simpl. unfold hasId at 1. by rewrite bool_decide_eq_true_2. Qed.

Lemma existsb_hasId_head r0 rs : existsb (hasId (id r0)) (r0 :: rs) = true.
Proof. simpl. unfold hasId at 1. by rewrite bool_decide_eq_true_2. Qed.

(** The second run of the effect, after the first has changed
    [activeReportId], changes nothing. *)
Lemma syncActive_settled rs active :
  syncActive rs (syncActive rs active) = syncActive rs active.
Proof.
  destruct rs as [|r0 rs]; [done|].
  assert (syncActive (r0 :: rs) (Some (id r0)) = Some (id r0)) as Hfirst.
  { unfold syncActive. rewrite existsb_hasId_head.
    by destruct (truthy (id r0)). }
  assert (syncActive (r0 :: rs) active = Some (id r0)
          \/ exists i,
               active = Some i
               /\ negb (truthy i) || negb (existsb (hasId i) (r0 :: rs)) = false)
    as [->|(i & -> & E)]; [|exact Hfirst|].
  { unfold syncActive. destruct active as [i|]; [|by left].
    destruct (negb (truthy i) || negb (existsb (hasId i) (r0 :: rs))) eqn:E;
      [by left|right; by exists i]. }
  unfold syncActive. rewrite E. cbv iota. by rewrite E.
Qed.

(** What the effect leaves is the identifier of the report shown. *)
Lemma syncActive_shown rs active a r :
  syncActive rs active = Some a ->
  match List.find (hasId a) rs with
  | Some x => Some x
  | None => head rs
  end = Some r ->
  a = id r.
Proof.
  destruct rs as [|r0 rs]; [done|].
  assert (match List.find (hasId (id r0)) (r0 :: rs) with
          | Some x => Some x
          | None => head (r0 :: rs)
          end = Some r -> id r0 = id r) as Hfirst.
  { rewrite find_hasId_head. by intros [= <-]. }
  unfold syncActive. destruct active as [i|].
  - destruct (negb (truthy i) || negb (existsb (hasId i) (r0 :: rs))) eqn:E.
    + intros [= <-]. exact Hfirst.
    + intros [= <-]. apply orb_false_elim in E as [_ E].
      apply negb_false_iff in E.
      destruct (List.find (hasId i) (r0 :: rs)) as [r1|] eqn:F.
      * intros [= <-]. by apply find_hasId in F as [_ <-].
      * apply existsb_exists in E as (x & Hx & Hid).
        pose proof (List.find_none _ _ F x Hx). congruence.
  - intros [= <-]. exact Hfirst.
Qed.

End SyncFacts.

(** X24: the panel shows a report exactly when there is one, and the
    report shown is one of those given: the first that bears the active
    identifier, else the first of all.  Once the reports have changed
    or a tab was clicked, and the effect has run, the active identifier
    is the identifier of the report shown.  A click on the tab of a
    report whose identifier is not the empty string shows the first
    report of that identifier; on the tab of a report whose identifier
    is the empty string, the first report of all. *)
Theorem activeReport_spec (c : ReportsContainer.container) :
  (ReportsContainer.activeReport c = None <-> ReportsContainer.reports c = [])
  /\ (forall r,
        ReportsContainer.activeReport c = Some r ->
        r ∈ ReportsContainer.reports c
        /\ (ReportsContainer.activeReportId c = Some (ReportsContainer.id r)
            \/ (head (ReportsContainer.reports c) = Some r
                /\ forall i r',
                     ReportsContainer.activeReportId c = Some i ->
                     r' ∈ ReportsContainer.reports c ->
                     ReportsContainer.id r' <> i)))
  /\ (forall e r,
        (exists rs, e = ReportsContainer.SetReports rs)
        \/ (exists i, e = ReportsContainer.SelectTab i) ->
        ReportsContainer.activeReport (ReportsContainer.step c e) = Some r ->
        ReportsContainer.activeReportId (ReportsContainer.step c e)
        = Some (ReportsContainer.id r))
  /\ (forall r,
        r ∈ ReportsContainer.reports c ->
        truthy (ReportsContainer.id r) = true ->
        exists shown,
          ReportsContainer.activeReport
            (ReportsContainer.step c
               (ReportsContainer.SelectTab (ReportsContainer.id r)))
          = Some shown
          /\ List.find (ReportsContainer.hasId (ReportsContainer.id r))
               (ReportsContainer.reports c) = Some shown
          /\ ReportsContainer.id shown = ReportsContainer.id r)
  /\ (forall r,
        r ∈ ReportsContainer.reports c ->
        truthy (ReportsContainer.id r) = false ->
        ReportsContainer.activeReport
          (ReportsContainer.step c
             (ReportsContainer.SelectTab (ReportsContainer.id r)))
        = head (ReportsContainer.reports c)).
Proof.
  split_and!.
  - unfold ReportsContainer.activeReport.
    destruct (ReportsContainer.activeReportId c) as [i|].
    + destruct (List.find (ReportsContainer.hasId i) (ReportsContainer.reports c))
        as [r|] eqn:E.
      * apply find_hasId in E as [Hin _]. split; [done|].
        intros Hr. rewrite Hr in Hin. by apply elem_of_nil in Hin.
      * by destruct (ReportsContainer.reports c).
    + by destruct (ReportsContainer.reports c).
  - unfold ReportsContainer.activeReport.
    intros r. destruct (ReportsContainer.activeReportId c) as [i|].
    + destruct (List.find (ReportsContainer.hasId i) (ReportsContainer.reports c))
        as [r0|] eqn:E.
      * intros [= <-]. apply find_hasId in E as [Hin <-]. split; [done|by left].
      * intros Hh. split; [by apply head_elem_of|]. right. split; [done|].
        intros j r' [= <-] Hr'. by eapply find_hasId_None.
    + intros Hh. split; [by apply head_elem_of|]. right. by split.
  - intros e r [[rs ->]|[i ->]]; unfold ReportsContainer.activeReport; simpl.
    + destruct (ReportsContainer.syncActive rs (ReportsContainer.activeReportId c))
        as [a|] eqn:Ha.
      * intros H. f_equal. by eapply syncActive_shown.
      * destruct rs as [|r0 rs]; [done|].
        unfold ReportsContainer.syncActive in Ha.
        destruct (ReportsContainer.activeReportId c) as [i|]; [|done].
        by destruct (negb (truthy i) || _).
    + destruct (ReportsContainer.syncActive (ReportsContainer.reports c) (Some i))
        as [a|] eqn:Ha.
      * intros H. f_equal. by eapply syncActive_shown.
      * destruct (ReportsContainer.reports c) as [|r0 rs]; [done|].
        unfold ReportsContainer.syncActive in Ha.
        by destruct (negb (truthy i) || _).
  - intros r Hr Ht. unfold ReportsContainer.activeReport. simpl.
    destruct (find_hasId_is_Some (ReportsContainer.id r)
                (ReportsContainer.reports c) r Hr eq_refl) as [shown E].
    assert (ReportsContainer.syncActive (ReportsContainer.reports c)
              (Some (ReportsContainer.id r)) = Some (ReportsContainer.id r))
      as ->.
    { destruct (ReportsContainer.reports c) as [|r0 rs] eqn:Ers;
        [by apply elem_of_nil in Hr|].
      unfold ReportsContainer.syncActive. rewrite Ht. simpl negb at 1.
      assert (existsb (ReportsContainer.hasId (ReportsContainer.id r)) (r0 :: rs)
              = true) as ->; [|done].
      apply existsb_exists. exists r. split; [by apply list_elem_of_In|].
      unfold ReportsContainer.hasId. by apply bool_decide_eq_true_2. }
    rewrite E. exists shown. split; [done|]. split; [done|].
    by apply find_hasId in E as [_ ?].
  - intros r Hr Ht. unfold ReportsContainer.activeReport. simpl.
    destruct (ReportsContainer.reports c) as [|r0 rs] eqn:Ers;
      [by apply elem_of_nil in Hr|].
    unfold ReportsContainer.syncActive. rewrite Ht. simpl negb. simpl orb.
    cbv iota. by rewrite find_hasId_head.
Qed.

Lemma activeReport_spec_witness :
  exists shown,
    ReportsContainer.activeReport
      (ReportsContainer.step sortedOnA
         (ReportsContainer.SelectTab (ReportsContainer.id reportB)))
    = Some shown
    /\ List.find (ReportsContainer.hasId (ReportsContainer.id reportB))
         (ReportsContainer.reports sortedOnA) = Some shown
    /\ ReportsContainer.id shown = ReportsContainer.id reportB.
Proof.
  destruct (activeReport_spec sortedOnA) as (_ & _ & _ & Hclick & _).
  apply Hclick.
  - right. left.
  - reflexivity.
Defined.

(** X25: a click on a column header always leaves the table sorted by
    that column; the direction is "desc" exactly when the table was
    sorted by the same column in direction "asc", and two more clicks on
    the same header bring the same configuration back. *)
Theorem handleSort_spec :
  (forall prev column,
     exists d,
       ReportPanel.handleSort prev column
       = Some {| ReportPanel.key := column; ReportPanel.direction := d |}
       /\ (d = desc <->
           prev = Some {| ReportPanel.key := column;
                          ReportPanel.direction := asc |})
       /\ ReportPanel.handleSort
            (ReportPanel.handleSort (ReportPanel.handleSort prev column) column)
            column
          = ReportPanel.handleSort prev column)
  /\ (forall prev colIdx,
        exists d,
          AnswerTable.handleSort prev colIdx
          = Some {| AnswerTable.colIdx := colIdx; AnswerTable.direction := d |}
          /\ (d = desc <->
              prev = Some {| AnswerTable.colIdx := colIdx;
                             AnswerTable.direction := asc |})
          /\ AnswerTable.handleSort
               (AnswerTable.handleSort (AnswerTable.handleSort prev colIdx) colIdx)
               colIdx
             = AnswerTable.handleSort prev colIdx).
Proof.
  split.
  - intros [[k d]|] column; unfold ReportPanel.handleSort; simpl.
    + destruct (decide (k = column)) as [->|Hk]; simpl.
      * rewrite !decide_True by done. simpl.
        exists (toggle d). split; [done|]. split; [|by destruct d].
        destruct d; split; try done. 
      * rewrite !decide_True by done. simpl.
        exists asc. split; [done|]. split; [|done].
        split; [done|]. intros [= ? ?]. done.
    + rewrite !decide_True by done. simpl.
      exists asc. split; [done|]. by split.
  - intros [[k d]|] colIdx; unfold AnswerTable.handleSort; simpl.
    + destruct (decide (k = colIdx)) as [->|Hk]; simpl.
      * rewrite !decide_True by done. simpl.
        exists (toggle d). split; [done|]. split; [|by destruct d].
        destruct d; split; try done.
      * rewrite !decide_True by done. simpl.
        exists asc. split; [done|]. split; [|done].
        split; [done|]. intros [= ? ?]. done.
    + rewrite !decide_True by done. simpl.
      exists asc. split; [done|]. by split.
Qed.

Lemma handleSort_spec_witness :
  exists d,
    AnswerTable.handleSort
      (Some {| AnswerTable.colIdx := 2; AnswerTable.direction := asc |}) 2
    = Some {| AnswerTable.colIdx := 2; AnswerTable.direction := d |}
    /\ (d = desc <->
        Some {| AnswerTable.colIdx := 2; AnswerTable.direction := asc |}
        = Some {| AnswerTable.colIdx := 2; AnswerTable.direction := asc |})
    /\ AnswerTable.handleSort
         (AnswerTable.handleSort
            (AnswerTable.handleSort
               (Some {| AnswerTable.colIdx := 2; AnswerTable.direction := asc |})
               2) 2) 2
       = AnswerTable.handleSort
           (Some {| AnswerTable.colIdx := 2; AnswerTable.direction := asc |}) 2.
Proof. apply (proj2 handleSort_spec). Defined.

(** ** Cells without a digit *)

Section BlankCellFacts.

Lemma trimStart_spaces s :
  Forall (fun c => isWhiteSpace c = true) s -> trimStart s = [].
Proof. induction 1 as [|c r Hc _ IH]; [done|]. simpl. by rewrite Hc. Qed.

Lemma trim_spaces s : Forall (fun c => isWhiteSpace c = true) s -> trim s = [].
Proof. intros Hs. unfold trim. by rewrite trimStart_spaces. Qed.

Lemma trimStart_Forall (P : N -> Prop) s : Forall P s -> Forall P (trimStart s).
Proof.
  intros Hs. destruct (trimStart_suffix s) as [pre E].
  rewrite E in Hs. by apply Forall_app in Hs as [_ ?].
Qed.

Lemma trimEnd_Forall (P : N -> Prop) s : Forall P s -> Forall P (trimEnd s).
Proof.
  induction 1 as [|c r Hc Hr IH]; [done|]. rewrite trimEnd_cons.
  destruct (trimEnd r); [destruct (isWhiteSpace c); by repeat constructor|].
  by constructor.
Qed.

Lemma matchDuration_digit s :
  is_Some (matchDuration s) -> exists c r, s = c :: r /\ isDigit c = true.
Proof.
  intros [[[g1 g2] g3] Hm].
  apply matchDuration_spec in Hm as ((N1 & _ & D1) & _ & _ & ->).
  destruct g1 as [|c g1]; [done|]. apply Forall_cons_1 in D1 as [Hc _].
  by eexists _, _.
Qed.

Lemma parseDurationToSeconds_no_digit raw :
  Forall (fun c => isDigit c = false) raw -> parseDurationToSeconds raw = None.
Proof.
  intros Hraw. rewrite (proj1 (parseDurationToSeconds_value raw)).
  destruct (matchDuration (trim raw)) as [x|] eqn:Hm; [|done].
  destruct (matchDuration_digit (trim raw)) as (c & r & E & Hc); [by eexists|].
  assert (Forall (fun c => isDigit c = false) (trim raw)) as Ht
    by by apply trimEnd_Forall, trimStart_Forall.
  rewrite E in Ht. apply Forall_cons_1 in Ht as [Hc' _]. congruence.
Qed.

End BlankCellFacts.

(** X26: a cell that is not empty and holds only percent signs, dollar
    signs, commas and white space reads as the number 0 in an answer
    table, so it gets a bar; the comparator of the tables reads a cell of
    commas and white space as no number at all. *)
Theorem symbol_cells (raw : jsstring) :
  (raw <> [] ->
   Forall (fun c => c = 37%N \/ c = 36%N \/ c = 44%N \/ isWhiteSpace c = true)
     raw ->
   parseAnswerNumber raw = Some (of_Z 0) /\ AnswerBars.showBar raw = true)
  /\ (Forall (fun c => c = 44%N \/ isWhiteSpace c = true) raw ->
      parseMaybeNumber (VString raw) = None).
Proof.
  split.
  - intros Hne Hraw.
    assert (parseAnswerNumber raw = Some (of_Z 0)) as H.
    { unfold parseAnswerNumber.
      assert (truthy raw = true) as -> by (by destruct raw).
      simpl negb. cbv iota.
      rewrite parseDurationToSeconds_no_digit.
      2:{ eapply Forall_impl; [exact Hraw|]. intros c Hc.
          apply not_true_is_false. intros Hd%isDigit_range.
          destruct Hc as [->|[->|[->|Hw]]]; try lia.
          by rewrite (isDigit_not_space c) in Hw by by apply isDigit_range. }
      assert (removeCommas
                (List.filter (fun c => negb (isWhiteSpace c))
                   (List.filter
                      (fun c => negb ((c =? 37) || (c =? 44) || (c =? 36))%N)
                      raw)) = []) as ->.
      { clear Hne. induction Hraw as [|c r Hc _ IH]; [done|]. simpl.
        destruct Hc as [->|[->|[->|Hw]]]; simpl; try exact IH.
        destruct ((c =? 37) || (c =? 44) || (c =? 36))%N; [exact IH|].
        simpl. rewrite Hw. simpl. exact IH. }
      done. }
    split; [done|]. unfold AnswerBars.showBar. rewrite H.
    by apply bool_decide_eq_true_2.
  - intros Hraw. unfold parseMaybeNumber.
    assert (trim (removeCommas raw) = []) as ->; [|done].
    apply trim_spaces. unfold removeCommas.
    induction Hraw as [|c r Hc _ IH]; [done|]. simpl.
    destruct Hc as [->|Hw]; simpl; [exact IH|].
    destruct (c =? 44)%N; simpl; [exact IH|by constructor].
Qed.

Lemma symbol_cells_witness :
  parseAnswerNumber (str " $ ") = Some (of_Z 0)
  /\ AnswerBars.showBar (str " $ ") = true.
Proof.
  apply (symbol_cells (str " $ ")); [done|].
  repeat constructor; vm_compute; tauto.
Defined.

(** ** The messages of the highlights and the visible reports *)

Section VisibleFacts.
Import ReportsContainer Selection.

Lemma filter_all {A} (f : A -> bool) l :
  (forall x, x ∈ l -> f x = true) -> List.filter f l = l.
Proof.
  induction l as [|a l IH]; intros H; [done|]. simpl.
  rewrite (H a) by left. f_equal. apply IH. intros x Hx. apply H. by right.
Qed.

Lemma filter_ext_elem_of {A} (f g : A -> bool) l :
  (forall x, x ∈ l -> f x = g x) -> List.filter f l = List.filter g l.
Proof.
  intros H. apply List.filter_ext_in. intros x Hx. apply H.
  by apply list_elem_of_In.
Qed.

End VisibleFacts.

(** X27: with rows in the report, the message about missing fields is
    shown exactly when the first row lacks every candidate key of the
    page, of the revenue or of the revenue per session; the other rows
    are not asked. *)
Theorem highlights_fields_required (report : ReportsContainer.ReportPayload)
  (first : ReportPanel.ReportRow) (rest : list ReportPanel.ReportRow) :
  ReportsContainer.data report = first :: rest ->
  (LandingPage.LandingPageHighlights (Some report) = LandingPage.FieldsRequired
   <-> (forall k, k ∈ LandingPage.pageCandidates -> first !! k = None)
       \/ (forall k, k ∈ LandingPage.revenueCandidates -> first !! k = None)
       \/ (forall k, k ∈ LandingPage.revenuePerSessionCandidates ->
                     first !! k = None)).
Proof.
  intros Hd. unfold LandingPage.LandingPageHighlights, LandingPage.pickFirstKey.
  rewrite Hd.
  assert (forall cs,
            Forall (fun k => truthy k = true) cs ->
            match List.find (LandingPage.hasKey first) cs with
            | Some k => truthy k = true /\ ~ (forall k, k ∈ cs -> first !! k = None)
            | None => forall k, k ∈ cs -> first !! k = None
            end) as Hfind.
  { intros cs Hcs.
    destruct (List.find (LandingPage.hasKey first) cs) as [k|] eqn:E.
    - apply find_hasKey in E as (earlier & later & -> & [v Hv] & _).
      apply Forall_app in Hcs as [_ [Hk _]%Forall_cons_1].
      split; [done|]. intros Hno. rewrite (Hno k) in Hv; [done|].
      apply elem_of_app. right. left.
    - exact (proj1 (proj2 (find_hasKey first cs [])) E). }
  pose proof (Hfind LandingPage.pageCandidates ltac:(by repeat constructor)) as H1.
  pose proof (Hfind LandingPage.revenueCandidates ltac:(by repeat constructor))
    as H2.
  pose proof (Hfind LandingPage.revenuePerSessionCandidates
                ltac:(by repeat constructor)) as H3.
  destruct (List.find (LandingPage.hasKey first) LandingPage.pageCandidates);
    [|tauto].
  destruct (List.find (LandingPage.hasKey first) LandingPage.revenueCandidates);
    [|tauto].
  destruct (List.find (LandingPage.hasKey first)
              LandingPage.revenuePerSessionCandidates); [|tauto].
  destruct H1 as [-> H1], H2 as [-> H2], H3 as [-> H3]. simpl.
  split; [done|tauto].
Qed.

Lemma highlights_fields_required_witness :
  LandingPage.LandingPageHighlights
    (Some {| ReportsContainer.id := str "landing_pages";
             ReportsContainer.name := str "Landing pages";
             ReportsContainer.description := [];
             ReportsContainer.data :=
               [rowOf [(str "Page", VString (str "/a"))];
                rowOf [(str "Page", VString (str "/b"));
                       (str "Revenue", VNumber (of_Z 1));
                       (str "Revenue per Session", VNumber (of_Z 1))]] |})
  = LandingPage.FieldsRequired.
Proof.
  apply (highlights_fields_required _
           (rowOf [(str "Page", VString (str "/a"))])
           [rowOf [(str "Page", VString (str "/b"));
                   (str "Revenue", VNumber (of_Z 1));
                   (str "Revenue per Session", VNumber (of_Z 1))]]).
  - reflexivity.
  - right. left. intros k Hk. apply list_elem_of_In in Hk.
    destruct Hk as [<-|[<-|[<-|[<-|[]]]]]; vm_compute; reflexivity.
Defined.

(** X28: after a load every report is visible; and a new report whose
    identifier no report has is appended to the visible reports, which
    stay otherwise as they were. *)
Theorem visibleReports_spec (reports : list ReportsContainer.ReportPayload)
  (selectedReportIds : list jsstring) (report : ReportsContainer.ReportPayload) :
  Selection.visibleReports reports (ReportsContainer.id <$> reports) = reports
  /\ ((ReportsContainer.id report ∉ (ReportsContainer.id <$> reports)) ->
      let state := Selection.addReport (reports, selectedReportIds) report in
      Selection.visibleReports state.1 state.2
      = Selection.visibleReports reports selectedReportIds ++ [report]).
Proof.
  split.
  - unfold Selection.visibleReports. apply filter_all. intros r Hr.
    apply bool_decide_eq_true_2, list_elem_of_fmap. by exists r.
  - intros Hfresh. simpl. unfold Selection.visibleReports.
    rewrite List.filter_app. simpl.
    rewrite bool_decide_eq_true_2
      by (apply elem_of_app; right; apply list_elem_of_singleton; done).
    f_equal. apply filter_ext_elem_of. intros r Hr. apply bool_decide_ext.
    rewrite elem_of_app, list_elem_of_singleton.
    split; [|by left]. intros [?|E]; [done|].
    destruct Hfresh. rewrite <- E. apply list_elem_of_fmap. by exists r.
Qed.

Lemma visibleReports_spec_witness :
  Selection.visibleReports [reportA; reportB] [str "a"; str "b"]
  = [reportA; reportB].
Proof.
  apply (visibleReports_spec [reportA; reportB] [] reportA).
Defined.

(** ** The two directions of a sort *)

Section ReversalFacts.
Context {T : Type} (cellOf : T -> value).

Lemma StronglySorted_rev {A} (R R' : relation A) (l : list A) :
  StronglySorted R l ->
  (forall x y, x ∈ l -> y ∈ l -> R x y -> R' y x) ->
  StronglySorted R' (rev l).
Proof.
  induction 1 as [|a l Hl IH Ha]; intros HR; [constructor|].
  simpl. apply StronglySorted_app_2.
  - intros x y Hx Hy%list_elem_of_singleton. subst y.
    rewrite elem_of_rev in Hx. rewrite Forall_forall in Ha.
    apply HR; [left|by right|by apply Ha].
  - apply IH. intros x y Hx Hy. apply HR; by right.
  - repeat constructor.
Qed.

Lemma fmap_rev {A B} (f : A -> B) (l : list A) : f <$> rev l = rev (f <$> l).
Proof.
  induction l as [|a l IH]; [done|]. simpl. by rewrite fmap_app, IH.
Qed.

Lemma numeric_view_reverse (rows : list T) :
  Forall (fun row => numericCell (cellOf row) = true) rows ->
  (forall i j ri rj,
     rows !! i = Some ri -> rows !! j = Some rj ->
     cellUnits (cellOf ri) = cellUnits (cellOf rj) -> i = j) ->
  sortedView (viewComparator cellOf desc) rows
  = rev (sortedView (viewComparator cellOf asc) rows).
Proof.
  intros Hnum Hdistinct. unfold sortedView. rewrite <- fmap_rev. f_equal.
  symmetry. apply numeric_view_unique; [done| |].
  - rewrite <- Permutation_rev. apply sortedWithIndex_perm.
  - eapply StronglySorted_rev; [by apply numeric_view_sorted|].
    intros [x i] [y j] Hx Hy Hxy.
    rewrite sortedWithIndex_perm in Hx, Hy.
    apply elem_of_withIndex in Hx, Hy.
    rewrite Forall_forall in Hnum.
    assert (numericCell (cellOf x) = true) as Nx
      by (apply Hnum; by eapply list_elem_of_lookup_2).
    assert (numericCell (cellOf y) = true) as Ny
      by (apply Hnum; by eapply list_elem_of_lookup_2).
    apply numeric_le in Hxy as [H1 H2]; [|done..].
    apply numeric_le; [done..|]. simpl in *. split; [done|].
    intros E. rewrite (Hdistinct j i y x Hy Hx E). done.
Qed.

End ReversalFacts.

(** X29: on a column whose cells read as finite numbers that are all
    different, the descending view of a table is the ascending view read
    backwards. *)
Theorem descending_is_reverse :
  (forall rows key,
     Forall (fun row => numericCell (ReportPanel.get row key) = true) rows ->
     (forall i j ri rj,
        rows !! i = Some ri -> rows !! j = Some rj ->
        cellUnits (ReportPanel.get ri key) = cellUnits (ReportPanel.get rj key) ->
        i = j) ->
     ReportPanel.sortedRows rows
       (Some {| ReportPanel.key := key; ReportPanel.direction := desc |})
     = rev (ReportPanel.sortedRows rows
              (Some {| ReportPanel.key := key; ReportPanel.direction := asc |})))
  /\ (forall rows colIdx,
        Forall (fun row =>
                  numericCell (VString (AnswerTable.cell row colIdx)) = true)
          rows ->
        (forall i j ri rj,
           rows !! i = Some ri -> rows !! j = Some rj ->
           cellUnits (VString (AnswerTable.cell ri colIdx))
           = cellUnits (VString (AnswerTable.cell rj colIdx)) ->
           i = j) ->
        AnswerTable.sortedRows rows
          (Some {| AnswerTable.colIdx := colIdx; AnswerTable.direction := desc |})
        = rev (AnswerTable.sortedRows rows
                 (Some {| AnswerTable.colIdx := colIdx;
                          AnswerTable.direction := asc |}))).
Proof.
  split.
  - intros rows key Hnum Hd.
    exact (numeric_view_reverse (fun row => ReportPanel.get row key) rows Hnum Hd).
  - intros rows colIdx Hnum Hd.
    exact (numeric_view_reverse
             (fun row => VString (AnswerTable.cell row colIdx)) rows Hnum Hd).
Qed.

Lemma descending_is_reverse_witness :
  AnswerTable.sortedRows [[str "20"]; [str "1,000"]; [str "3"]]
    (Some {| AnswerTable.colIdx := 0; AnswerTable.direction := desc |})
  = rev (AnswerTable.sortedRows [[str "20"]; [str "1,000"]; [str "3"]]
           (Some {| AnswerTable.colIdx := 0; AnswerTable.direction := asc |})).
Proof.
  apply (proj2 descending_is_reverse).
  - repeat constructor.
  - intros [|[|[|i]]] [|[|[|j]]] ri rj Hi Hj; simpl in Hi, Hj; try done;
      injection Hi as <-; injection Hj as <-; vm_compute; discriminate.
Defined.

(** ** Missing cells in a sorted column *)

Section MissingCellFacts.
Context {T : Type} (cellOf : T -> value) (d : SortDirection).

Lemma numericCell_not_nullish v : numericCell v = true -> nullish v = false.
Proof. by destruct v. Qed.

Lemma viewComparator_missing (l r : T * nat) :
  numberOrMissing (cellOf l.1) = true -> numberOrMissing (cellOf r.1) = true ->
  before (viewComparator cellOf d) l r =
    if nullish (cellOf l.1) && nullish (cellOf r.1) then (l.2 <? r.2)%nat
    else if nullish (cellOf l.1) then bool_decide (d = desc)
    else if nullish (cellOf r.1) then bool_decide (d = asc)
    else
      match d with
      | asc => cellUnits (cellOf l.1) <? cellUnits (cellOf r.1)
      | desc => cellUnits (cellOf r.1) <? cellUnits (cellOf l.1)
      end
      || ((cellUnits (cellOf l.1) =? cellUnits (cellOf r.1)) && (l.2 <? r.2)%nat).
Proof.
  unfold numberOrMissing. intros Hl Hr.
  destruct (nullish (cellOf l.1)) eqn:Nl, (nullish (cellOf r.1)) eqn:Nr;
    simpl in Hl, Hr; simpl andb; cbv iota.
  - unfold before, order, viewComparator, compareValues. rewrite Nl, Nr.
    simpl andb. cbv iota. change (negb (eqb0 (of_Z 0))) with false. cbv iota.
    destruct (index_difference_sign l.2 r.2) as [Hi Hn]. by rewrite Hn.
  - unfold before, order, viewComparator, compareValues. rewrite Nl, Nr.
    simpl andb. cbv iota. by destruct d.
  - unfold before, order, viewComparator, compareValues. rewrite Nl, Nr.
    simpl andb. cbv iota. by destruct d.
  - by apply viewComparator_numeric.
Qed.

Lemma viewComparator_missing_consistent (U : list (T * nat)) :
  Forall (fun x => numberOrMissing (cellOf x.1) = true) U ->
  consistent (viewComparator cellOf d) U.
Proof.
  rewrite Forall_forall. intros HU. split.
  - intros x y Hx Hy. rewrite !viewComparator_missing by auto.
    destruct (nullish (cellOf x.1)), (nullish (cellOf y.1)), d; simpl;
      repeat match goal with
             | |- context [(?a <? ?b)%nat] => destruct (Nat.ltb_spec a b)
             | |- context [?a <? ?b] => destruct (Z.ltb_spec a b)
             | |- context [?a =? ?b] => destruct (Z.eqb_spec a b)
             end; simpl; try done; try lia.
  - unfold le. intros x y z Hx Hy Hz.
    rewrite !viewComparator_missing by auto.
    destruct (nullish (cellOf x.1)), (nullish (cellOf y.1)),
             (nullish (cellOf z.1)), d; simpl;
      repeat match goal with
             | |- context [(?a <? ?b)%nat] => destruct (Nat.ltb_spec a b)
             | |- context [?a <? ?b] => destruct (Z.ltb_spec a b)
             | |- context [?a =? ?b] => destruct (Z.eqb_spec a b)
             end; simpl; try done; try lia.
Qed.

Lemma missing_cells_position (rows : list T) p q x i y j :
  Forall (fun row => numberOrMissing (cellOf row) = true) rows ->
  (p < q)%nat ->
  sortedWithIndex (viewComparator cellOf d) rows !! p = Some (x, i) ->
  sortedWithIndex (viewComparator cellOf d) rows !! q = Some (y, j) ->
  (nullish (cellOf x) = true -> nullish (cellOf y) = false -> d = desc)
  /\ (nullish (cellOf x) = false -> nullish (cellOf y) = true -> d = asc).
Proof.
  intros Hmix Hpq Hp Hq.
  assert (Forall (fun x => numberOrMissing (cellOf x.1) = true) (withIndex rows))
    as HU
    by by apply (withIndex_Forall (fun row => numberOrMissing (cellOf row) = true)).
  pose proof (sort_sorted (viewComparator cellOf d) (withIndex rows)
                (viewComparator_missing_consistent _ HU) (withIndex rows)
                ltac:(done)) as Hs.
  pose proof (sorted_lookup _ _ p q _ _ Hs Hpq Hp Hq) as Hle.
  unfold le in Hle. rewrite Forall_forall in HU.
  rewrite viewComparator_missing in Hle.
  - simpl in Hle. split; intros Nx Ny; rewrite Nx, Ny in Hle; simpl in Hle;
      destruct d; done.
  - apply HU. rewrite <- (sortedWithIndex_perm (viewComparator cellOf d) rows).
    by eapply list_elem_of_lookup_2.
  - apply HU. rewrite <- (sortedWithIndex_perm (viewComparator cellOf d) rows).
    by eapply list_elem_of_lookup_2.
Qed.

End MissingCellFacts.

(** X30: in a report table sorted by a column whose cells are finite
    numbers or missing (null, or the key is absent), the rows with a
    missing cell come after all the others when the direction is "asc"
    and before all the others when it is "desc"; the comparator is a
    consistent ordering of such a column. *)
Theorem missing_cells_last (rows : list ReportPanel.ReportRow)
  (c : ReportPanel.config) :
  Forall (fun row =>
            numberOrMissing (ReportPanel.get row (ReportPanel.key c)) = true)
    rows ->
  consistent (ReportPanel.comparator c) (withIndex rows)
  /\ forall p q x i y j,
       (p < q)%nat ->
       ReportPanel.sortedWithIndex rows c !! p = Some (x, i) ->
       ReportPanel.sortedWithIndex rows c !! q = Some (y, j) ->
       (nullish (ReportPanel.get x (ReportPanel.key c)) = true ->
        nullish (ReportPanel.get y (ReportPanel.key c)) = false ->
        ReportPanel.direction c = desc)
       /\ (nullish (ReportPanel.get x (ReportPanel.key c)) = false ->
           nullish (ReportPanel.get y (ReportPanel.key c)) = true ->
           ReportPanel.direction c = asc).
Proof.
  intros Hmix. split.
  - apply (viewComparator_missing_consistent
             (fun row => ReportPanel.get row (ReportPanel.key c))
             (ReportPanel.direction c)).
    by apply (withIndex_Forall
                (fun row =>
                   numberOrMissing (ReportPanel.get row (ReportPanel.key c))
                   = true)).
  - intros p q x i y j Hpq Hp Hq.
    exact (missing_cells_position
             (fun row => ReportPanel.get row (ReportPanel.key c))
             (ReportPanel.direction c) rows p q x i y j Hmix Hpq Hp Hq).
Qed.

Lemma missing_cells_last_witness :
  ReportPanel.sortedRows
    [rowOf [(str "k", VNull)]; rowOf [(str "k", VNumber (of_Z 2))];
     rowOf []; rowOf [(str "k", VString (str "1"))]]
    (Some {| ReportPanel.key := str "k"; ReportPanel.direction := asc |})
  = [rowOf [(str "k", VString (str "1"))]; rowOf [(str "k", VNumber (of_Z 2))];
     rowOf [(str "k", VNull)]; rowOf []]
  /\ consistent
       (ReportPanel.comparator
          {| ReportPanel.key := str "k"; ReportPanel.direction := asc |})
       (withIndex
          [rowOf [(str "k", VNull)]; rowOf [(str "k", VNumber (of_Z 2))];
           rowOf []; rowOf [(str "k", VString (str "1"))]]).
Proof.
  split; [vm_compute; reflexivity|].
  apply (missing_cells_last
           [rowOf [(str "k", VNull)]; rowOf [(str "k", VNumber (of_Z 2))];
            rowOf []; rowOf [(str "k", VString (str "1"))]]
           {| ReportPanel.key := str "k"; ReportPanel.direction := asc |}).
  repeat constructor.
Defined.
